(** * Semantic Discovery Engine: indexing, retrieval and title clean-up

    A shallow embedding of [engine.py] (class [SemanticEngine]: [index],
    [recommend], [stats]) and of the two title helpers of [pipeline.py]
    ([clean_title], [extract_year]), with the properties stated about them.

    Python values are modelled as follows.
    - [float]: the exact rational value of a finite binary64 number, type [Q];
      every arithmetic result is rounded once to binary64 ([Float64.fl]).
      Float comparison [==], [<=] is [Qeq], [Qle].  NaN, infinities and the
      sign of zero are not represented.
    - [int]: [Z].  [str]: [string] in the engine, a list of characters of an
      abstract character type in the title helpers.
    - [dict] with string keys: [gmap string _]; [d.get(k, default)] is
      [default d0 (d !! k)].
    - A pandas cell that may be NaN/missing: [option string].
    - Calls on the two collaborators of the engine (the sentence-transformer
      model and the ChromaDB collection) are events of a small free monad,
      interpreted by a [Backend]. *)

From Stdlib Require Import ZArith QArith Qround Qpower Qabs Lia Lqa Ascii.
From Stdlib Require Import Floats.SpecFloat.
From stdpp Require Import gmap strings list fin_maps pretty sorting.

(* ===================================================================== *)
(** * Part I: the model                                                    *)
(* ===================================================================== *)

(** ** Binary64 arithmetic on exact values *)
Module Float64.
Local Open Scope Q_scope.

Definition pow2 (e : Z) : Q := (2#1) ^ e.

(** Nearest integer to a non-negative rational, ties to the even one. *)
Definition rne (q : Q) : Z :=
  let f := Qfloor q in
  match Qcompare (q - inject_Z f) (1#2) with
  | Lt => f
  | Gt => (f + 1)%Z
  | Eq => if Z.even f then f else (f + 1)%Z
  end.

(** [floor (log2 q)] for [q > 0]. *)
Definition ilog2 (q : Q) : Z :=
  let c := (Z.log2 (Qnum q) - Z.log2 (Zpos (Qden q)))%Z in
  if Qle_bool (pow2 c) q then c else (c - 1)%Z.

(** Exponent of the unit in the last place: 53 significant bits, and the
    subnormal floor [2^-1074]. *)
Definition fexp (q : Q) : Z := Z.max (ilog2 q - 52) (-1074).

Definition fl_pos (q : Q) : Q :=
  let e := fexp q in inject_Z (rne (q / pow2 e)) * pow2 e.

(** Round to nearest binary64, ties to even; the sign is kept apart, as in
    IEEE 754.  (Overflow to infinity is not represented: the operations below
    stay within the finite range on finite arguments.) *)
Definition fl (q : Q) : Q :=
  match Qcompare q 0 with
  | Eq => 0
  | Gt => fl_pos q
  | Lt => - fl_pos (- q)
  end.

(** Python's [x - y] and [x / y] (also [int / int]): the exact result,
    rounded once. *)
Definition fsub (x y : Q) : Q := fl (x - y).
Definition fdiv (x y : Q) : Q := fl (x / y).

(** Round half to even on the magnitude. *)
Definition round_half_even (q : Q) : Z :=
  if Qle_bool 0 q then rne q else (- rne (- q))%Z.

(** [round(x, ndigits)] on a float: the decimal with [ndigits] places that is
    nearest to the exact value of [x] (ties to even), read back as the nearest
    float. *)
Definition py_round (x : Q) (ndigits : Z) : Q :=
  let p := (10#1) ^ ndigits in
  fl (inject_Z (round_half_even (x * p)) / p).

(** [math.ceil] of a float. *)
Definition ceil (x : Q) : Z := Qceiling x.

(** The largest finite binary64 number. *)
Definition max_float : Q := inject_Z (2 ^ 53 - 1) * pow2 971.

(** The value of a finite float of the Standard Library's IEEE 754
    specification, and the float of an integer there; used to compare [fl]
    with that specification on examples. *)
Definition of_spec (x : spec_float) : Q :=
  match x with
  | S754_finite s m e => (if s then -1 else 1) * inject_Z (Zpos m) * pow2 e
  | _ => 0
  end.

Definition spec_of_Z (n : Z) : spec_float := binary_normalize 53 1024 n 0 false.

End Float64.

(** ** [engine.py] *)
Module Engine.
Import Float64.
Local Open Scope Z_scope.

Abbreviation vector := (list Q).
Abbreviation metadata := (gmap string string).

(** Exceptions that can reach a caller of the engine. *)
Inductive exn : Type :=
  | IndexError
  | ValidationError
  | EncodingFailure
  | StoreUnavailable.

(** The dict returned by [collection.query(..., include=["metadatas",
    "distances"])]: one inner list per query embedding. *)
Record QueryReply : Type := {
  metadatas : list (list metadata);
  distances : list (list Q)
}.

(** Calls the engine makes on [self.model] and [self.collection]. *)
Inductive call : Type -> Type :=
  | Encode (texts : list string) : call (list vector)
  | Count : call Z
  | Upsert (ids : list string) (embeddings : list vector)
           (documents : list string) (metadatas : list metadata) : call unit
  | Query (query_embeddings : list vector) (n_results : Z) : call QueryReply.

(** Engine code: a tree of collaborator calls ending in a value or in an
    exception. *)
Inductive prog (A : Type) : Type :=
  | Ret (a : A)
  | Raise (e : exn)
  | Do {X : Type} (c : call X) (k : X -> prog A).
Arguments Ret {A} a.
Arguments Raise {A} e.
Arguments Do {A X} c k.

Fixpoint bind {A B : Type} (p : prog A) (f : A -> prog B) : prog B :=
  match p with
  | Ret a => f a
  | Raise e => Raise e
  | Do c k => Do c (fun x => bind (k x) f)
  end.

#[global] Instance prog_ret : MRet prog := fun A a => Ret a.
#[global] Instance prog_bind : MBind prog := fun A B f p => bind p f.

Definition perform {X : Type} (c : call X) : prog X := Do c Ret.

(** [for x in xs: body(x)] *)
Fixpoint for_each {X : Type} (xs : list X) (body : X -> prog unit) : prog unit :=
  match xs with
  | [] => Ret tt
  | x :: xs' => bind (body x) (fun _ => for_each xs' body)
  end.

(** [l[0]] *)
Definition getitem0 {X : Type} (l : list X) : prog X :=
  match l with
  | x :: _ => Ret x
  | [] => Raise IndexError
  end.

(** [range(n)] *)
Definition range (n : Z) : list Z := Z.of_nat <$> seq 0 (Z.to_nat n).

(** [df.iloc[start:stop]] for [0 <= start <= stop]. *)
Definition iloc {X : Type} (df : list X) (start stop : Z) : list X :=
  take (Z.to_nat (stop - start)) (drop (Z.to_nat start) df).

Definition len {X : Type} (l : list X) : Z := Z.of_nat (length l).

(** *** Config *)
Definition COLLECTION_NAME : string := "movies".
Definition MODEL_NAME : string := "all-MiniLM-L6-v2".
Definition BATCH_SIZE : Z := 512.

(** *** Rows of [processed_movies.csv] *)
Module Catalog.
Record Row : Type := {
  movieId : Z;
  title : option string;
  clean_title : option string;
  year : option string;
  genres_clean : option string;
  tags : option string;
  soup : option string
}.
End Catalog.
Abbreviation Row := Catalog.Row.
Abbreviation DataFrame := (list Catalog.Row).

(** [.fillna("")] on one cell. *)
Definition fillna (cell : option string) : string := default EmptyString cell.

(** [batch["soup"].tolist()], after [df["soup"].fillna("").astype(str)]. *)
Definition soups_of (batch : DataFrame) : list string :=
  (fun r => fillna (Catalog.soup r)) <$> batch.

(** [batch["movieId"].astype(str).tolist()] *)
Definition ids_of (batch : DataFrame) : list string :=
  (fun r => pretty (Catalog.movieId r)) <$> batch.

(** One record of [batch[[...]].fillna("").to_dict(orient="records")]. *)
Definition record_of (r : Row) : metadata :=
  <["title" := fillna (Catalog.title r)]>
  (<["clean_title" := fillna (Catalog.clean_title r)]>
  (<["year" := fillna (Catalog.year r)]>
  (<["genres_clean" := fillna (Catalog.genres_clean r)]>
  (<["tags" := fillna (Catalog.tags r)]> ∅)))).

Definition metadatas_of (batch : DataFrame) : list metadata :=
  record_of <$> batch.

(** [math.ceil(total / BATCH_SIZE)] *)
Definition n_batch (total : Z) : Z :=
  ceil (fdiv (inject_Z total) (inject_Z BATCH_SIZE)).

(** [df.iloc[i * BATCH_SIZE : (i + 1) * BATCH_SIZE]] *)
Definition batch_of (df : DataFrame) (i : Z) : DataFrame :=
  iloc df (i * BATCH_SIZE) ((i + 1) * BATCH_SIZE).

(** The body of the indexing loop for batch number [i]. *)
Definition index_batch (df : DataFrame) (i : Z) : prog unit :=
  let batch := batch_of df i in
  let soups := soups_of batch in
  let ids := ids_of batch in
  let metadatas := metadatas_of batch in
  embeddings ← perform (Encode soups);
  perform (Upsert ids embeddings soups metadatas).

(** [SemanticEngine.index]; [df] is the content of [PROCESSED_FILE]. *)
Definition index (df : DataFrame) (force : bool) : prog unit :=
  existing ← perform Count;
  if bool_decide (existing > 0) && negb force then Ret tt
  else
    let total := len df in
    _ ← for_each (range (n_batch total)) (index_batch df);
    _ ← perform Count;
    Ret tt.

(** The dicts appended to [recommendations]. *)
Record QueryResult : Type := {
  title : string;
  year : string;
  genres : string;
  tags : string;
  score : Q;
  distance : Q
}.

(** The body of the loop over [zip(metadatas, distances)]. *)
Definition recommendation (hit : metadata * Q) : QueryResult :=
  let '(meta, dist) := hit in
  let score := py_round (fsub 1 dist) 4 in
  {| title := default "N/A" (meta !! "title");
     year := default "N/A" (meta !! "year");
     genres := default "N/A" (meta !! "genres_clean");
     tags := default "" (meta !! "tags");
     score := score;
     distance := py_round dist 4 |}.

(** [SemanticEngine.recommend] *)
Definition recommend (query : string) (n_results : Z) : prog (list QueryResult) :=
  query_vec ← perform (Encode [query]);
  results ← perform (Query query_vec n_results);
  metas ← getitem0 (metadatas results);
  dists ← getitem0 (distances results);
  Ret (recommendation <$> zip metas dists).

Record Stats : Type := {
  collection : string;
  total_movies : Z;
  model : string;
  vector_dim : Z
}.

(** [SemanticEngine.stats] *)
Definition stats : prog Stats :=
  total ← perform Count;
  Ret {| collection := COLLECTION_NAME;
         total_movies := total;
         model := MODEL_NAME;
         vector_dim := 384 |}.

(** *** Running engine code against its collaborators *)

(** The embedding model and the vector store.  Only [upsert] returns a
    store; [count] and [query] are reads. *)
Record Backend : Type := {
  store : Type;
  encode : list string -> exn + list vector;
  count : store -> Z;
  upsert : store -> list string -> list vector -> list string ->
           list metadata -> option exn * store;
  query : store -> list vector -> Z -> exn + QueryReply
}.

Definition handle (B : Backend) {X : Type} (c : call X) (s : store B)
  : (exn + X) * store B :=
  match c in call X return (exn + X) * store B with
  | Encode texts => (encode B texts, s)
  | Count => (inr (count B s), s)
  | Upsert ids embeddings documents metas =>
      match upsert B s ids embeddings documents metas with
      | (Some e, s') => (inl e, s')
      | (None, s') => (inr tt, s')
      end
  | Query qs n => (query B s qs n, s)
  end.

(** What an observer of the collaborators sees: the calls, in order. *)
Inductive event : Type :=
  | EvEncode (texts : list string)
  | EvCount
  | EvUpsert (ids : list string) (embeddings : list vector)
             (documents : list string) (metadatas : list metadata)
  | EvQuery (query_embeddings : list vector) (n_results : Z).

Definition event_of {X : Type} (c : call X) : event :=
  match c with
  | Encode texts => EvEncode texts
  | Count => EvCount
  | Upsert ids embeddings documents metas => EvUpsert ids embeddings documents metas
  | Query qs n => EvQuery qs n
  end.

Definition is_write (e : event) : bool :=
  match e with
  | EvUpsert _ _ _ _ => true
  | _ => false
  end.

(** Outcome of a run: the calls made, the value or exception, the store. *)
Record Outcome (B : Backend) (A : Type) : Type := {
  trace : list event;
  result : exn + A;
  final : store B
}.
Arguments trace {B A} o.
Arguments result {B A} o.
Arguments final {B A} o.

Fixpoint run {A : Type} (B : Backend) (p : prog A) (s : store B) : Outcome B A :=
  match p with
  | Ret a => {| trace := []; result := inr a; final := s |}
  | Raise e => {| trace := []; result := inl e; final := s |}
  | Do c k =>
      match handle B c s with
      | (inl e, s') => {| trace := [event_of c]; result := inl e; final := s' |}
      | (inr x, s') =>
          let o := run B (k x) s' in
          {| trace := event_of c :: trace o; result := result o; final := final o |}
      end
  end.

(** *** Vocabulary of the properties *)

(** The batches the indexing loop visits, in order. *)
Definition batches (df : DataFrame) : list DataFrame :=
  batch_of df <$> range (n_batch (len df)).

(** The two calls one batch gives rise to, [vs] being what the Embedder
    returned for it. *)
Definition batch_events (batch : DataFrame) (vs : list vector) : list event :=
  [EvEncode (soups_of batch);
   EvUpsert (ids_of batch) vs (soups_of batch) (metadatas_of batch)].

(** [value] is the field stored under [key], or [fallback] when the
    metadata has no such field. *)
Definition field_or (m : metadata) (key fallback value : string) : Prop :=
  match m !! key with
  | Some x => value = x
  | None => value = fallback
  end.

(** The calls of a whole loop, [vss] being the Embedder's answers. *)
Fixpoint schedule (bs : list DataFrame) (vss : list (list vector)) : list event :=
  match bs, vss with
  | b :: bs', vs :: vss' => batch_events b vs ++ schedule bs' vss'
  | _, _ => []
  end.

(** The store after the upsert of one batch. *)
Definition after_upsert (B : Backend) (s : store B) (batch : DataFrame)
    (vs : list vector) : store B :=
  (upsert B s (ids_of batch) vs (soups_of batch) (metadatas_of batch)).2.


(** A loop over the batches [bs] that ran to its end: every [encode] call
    returned (the vectors [vss]), every [upsert] was accepted, and the store
    went from [s] to [s']. *)
Inductive Indexed (B : Backend) : store B -> list DataFrame ->
    list (list vector) -> store B -> Prop :=
  | Indexed_nil (s : store B) : Indexed B s [] [] s
  | Indexed_cons (s s' : store B) (b : DataFrame) (vs : list vector)
      (bs : list DataFrame) (vss : list (list vector)) :
      encode B (soups_of b) = inr vs ->
      (upsert B s (ids_of b) vs (soups_of b) (metadatas_of b)).1 = None ->
      Indexed B (after_upsert B s b vs) bs vss s' ->
      Indexed B s (b :: bs) (vs :: vss) s'.

(** Store contract used for idempotence: an accepted upsert of at least one
    id leaves a populated store. *)
Definition upsert_populates (B : Backend) : Prop :=
  forall (s : store B) ids vs docs ms,
    ids <> [] ->
    (upsert B s ids vs docs ms).1 = None ->
    count B (upsert B s ids vs docs ms).2 > 0.

End Engine.

(** ** [pipeline.py]: the two title helpers *)
Module Pipeline.

(** Python strings are sequences of Unicode code points.  The helpers only
    ask of a character whether it is whitespace ([\s], [str.strip]), whether
    it is a decimal digit ([\d]), and whether it is one of three literals, so
    the character type and the two classifications are kept abstract. *)
Section Regex.
Context {char : Type} `{EqDecision char}.
Variables is_space is_digit : char -> bool.
Variables lparen rparen newline : char.
Variable unknown : list char.

(** [$] without [re.MULTILINE]: at the end of the string, or just before
    a newline that ends the string. *)
Definition at_dollar (s : list char) : bool :=
  match s with
  | [] => true
  | [c] => bool_decide (c = newline)
  | _ => false
  end.

(** [\s*$] at the start of [s]: greedy, giving characters back one at a
    time until [$] holds.  Returns how many characters [\s*] keeps. *)
Fixpoint ws_dollar (s : list char) : option nat :=
  match s with
  | [] => Some 0%nat
  | c :: s' =>
      if is_space c then
        match ws_dollar s' with
        | Some n => Some (S n)
        | None => if at_dollar s then Some 0%nat else None
        end
      else if at_dollar s then Some 0%nat else None
  end.

(** A match of [\((\d{4})\)\s*$] starting at the first character of [s]:
    group 1 and the length of the whole match. *)
Definition match_year (s : list char) : option (list char * nat) :=
  match s with
  | l :: d1 :: d2 :: d3 :: d4 :: r :: rest =>
      if bool_decide (l = lparen) && is_digit d1 && is_digit d2
         && is_digit d3 && is_digit d4 && bool_decide (r = rparen)
      then
        match ws_dollar rest with
        | Some n => Some ([d1; d2; d3; d4], (6 + n)%nat)
        | None => None
        end
      else None
  | _ => None
  end.

(** [re.search]: the match at the leftmost position that has one. *)
Fixpoint search_year (s : list char) : option (list char) :=
  match match_year s with
  | Some (g, _) => Some g
  | None =>
      match s with
      | [] => None
      | _ :: s' => search_year s'
      end
  end.

(** [re.sub(pattern, "", s)]: every leftmost non-overlapping match is
    dropped; [skip] counts the characters still inside the current match. *)
Fixpoint sub_year (skip : nat) (s : list char) : list char :=
  match s with
  | [] => []
  | c :: s' =>
      match skip with
      | S k => sub_year k s'
      | O =>
          match match_year s with
          | Some (_, n) => sub_year (pred n) s'
          | None => c :: sub_year 0 s'
          end
      end
  end.

Fixpoint lstrip (s : list char) : list char :=
  match s with
  | c :: s' => if is_space c then lstrip s' else s
  | [] => []
  end.
Definition rstrip (s : list char) : list char := rev (lstrip (rev s)).
Definition strip (s : list char) : list char := lstrip (rstrip s).

Definition clean_title (title : list char) : list char :=
  strip (sub_year 0 title).

Definition extract_year (title : list char) : list char :=
  match search_year title with
  | Some g => g
  | None => unknown
  end.

(** [title] is [p], then a parenthesized run [ds] of four digits, then
    the whitespace [w], and nothing more. *)
Definition year_suffix (title p ds w : list char) : Prop :=
  title = p ++ lparen :: ds ++ rparen :: w
  /\ length ds = 4%nat
  /\ Forall (fun c => is_digit c = true) ds
  /\ Forall (fun c => is_space c = true) w.
End Regex.

(** The instance used in examples: code points below 256. *)
Definition ascii_space (c : Ascii.ascii) : bool :=
  let n := Ascii.nat_of_ascii c in
  ((9 <=? n) && (n <=? 13) || (28 <=? n) && (n <=? 32)
   || (n =? 133) || (n =? 160))%nat.

Definition ascii_digit (c : Ascii.ascii) : bool :=
  let n := Ascii.nat_of_ascii c in ((48 <=? n) && (n <=? 57))%nat.

Definition chars (s : string) : list Ascii.ascii := String.list_ascii_of_string s.

Definition clean_title_str (title : string) : string :=
  String.string_of_list_ascii
    (clean_title ascii_space ascii_digit "("%char ")"%char "010"%char (chars title)).

Definition extract_year_str (title : string) : string :=
  String.string_of_list_ascii
    (extract_year ascii_space ascii_digit "("%char ")"%char "010"%char
       (chars "Unknown") (chars title)).
End Pipeline.

(** ** The Vector Store and the Embedder, as the spec describes them *)
Module RefStore.
Import Engine.

(** What the store keeps under one id. *)
Record IndexEntry : Type := {
  entry_vector : vector;
  entry_document : string;
  entry_metadata : metadata
}.

Abbreviation state := (gmap string IndexEntry).

Section Store.
(** The embedding model and the distance metric fixed at creation. *)
Variable embed : list string -> exn + list vector.
Variable metric : vector -> vector -> Q.

Definition put (s : state) (kv : string * IndexEntry) : state :=
  <[kv.1 := kv.2]> s.

Fixpoint entries (vs : list vector) (docs : list string) (ms : list metadata)
  : list IndexEntry :=
  match vs, docs, ms with
  | v :: vs', d :: docs', m :: ms' =>
      {| entry_vector := v; entry_document := d; entry_metadata := m |}
      :: entries vs' docs' ms'
  | _, _, _ => []
  end.

Definition same_lengths (ids : list string) (vs : list vector)
    (docs : list string) (ms : list metadata) : bool :=
  bool_decide (length vs = length ids) && bool_decide (length docs = length ids)
  && bool_decide (length ms = length ids).

(** Modelled from the spec: the Vector Store's [upsert] (section 4.2 and the
    [ValidationError] of section 7), which is ChromaDB code and not part of
    the sources.  The four sequences must have equal length, else the call
    is rejected before any write; otherwise each [ids[i]] is created or
    fully replaced. *)
Definition ref_upsert (s : state) (ids : list string) (vs : list vector)
    (docs : list string) (ms : list metadata) : option exn * state :=
  if same_lengths ids vs docs ms
  then (None, foldl put s (zip ids (entries vs docs ms)))
  else (Some ValidationError, s).

(** Modelled from the spec: [count()], the number of distinct ids stored. *)
Definition ref_count (s : state) : Z := Z.of_nat (size s).

Fixpoint insert_hit (h : metadata * Q) (l : list (metadata * Q))
  : list (metadata * Q) :=
  match l with
  | [] => [h]
  | h' :: l' => if Qle_bool h.2 h'.2 then h :: l else h' :: insert_hit h l'
  end.

Definition nearest_first (l : list (metadata * Q)) : list (metadata * Q) :=
  foldr insert_hit [] l.

Definition hits (s : state) (q : vector) (k : Z) : list (metadata * Q) :=
  take (Z.to_nat k)
    (nearest_first
       ((fun kv => (entry_metadata kv.2, metric q (entry_vector kv.2)))
          <$> map_to_list s)).

(** Modelled from the spec: [query], the [k] entries nearest to each query
    vector, nearest first, fewer when the store holds fewer. *)
Definition ref_query (s : state) (qs : list vector) (k : Z) : exn + QueryReply :=
  inr {| metadatas := (fun q => (hits s q k).*1) <$> qs;
         distances := (fun q => (hits s q k).*2) <$> qs |}.

Definition backend : Backend :=
  {| store := state;
     encode := embed;
     count := ref_count;
     upsert := ref_upsert;
     query := ref_query |}.
End Store.

(** Stub collaborators for examples: every text is embedded as its length,
    in as many coordinates as asked; the metric is the L1 distance computed
    exactly. *)
Definition stub_embed (dim : nat) (texts : list string) : exn + list vector :=
  inr ((fun t => replicate dim (inject_Z (Z.of_nat (String.length t)))) <$> texts).

Fixpoint l1_distance (v w : vector) : Q :=
  match v, w with
  | x :: v', y :: w' => (Qabs (x - y) + l1_distance v' w')%Q
  | _, _ => 0%Q
  end.

Definition stub_backend (dim : nat) : Backend := backend (stub_embed dim) l1_distance.

(** A second stub Embedder, to swap in: every text is embedded as its
    length plus [c]. *)
Definition shifted_embed (dim : nat) (c : Z) (texts : list string) : exn + list vector :=
  inr ((fun t => replicate dim (inject_Z (Z.of_nat (String.length t) + c))) <$> texts).

(** *** Example data *)

Definition d_1_3_f32 : Q := 10905190 # 8388608.

Definition one_entry (x : Q) (m : metadata) : state :=
  {[ "1" := {| entry_vector := [x]; entry_document := "doc"; entry_metadata := m |} ]}.

Definition toy_story : metadata :=
  <["title" := "Toy Story (1995)"]> (<["year" := "1995"]>
  (<["genres_clean" := "Animation Comedy"]> (<["tags" := "pixar"]> ∅))).

(** Two entries, at L1 distance 1/4 and 3/4 from the embedding of the
    empty query; the second has no metadata fields at all. *)
Definition two_entries : state :=
  <["1" := {| entry_vector := [1 # 4]%Q; entry_document := "a"; entry_metadata := toy_story |}]>
  (<["2" := {| entry_vector := [3 # 4]%Q; entry_document := "b"; entry_metadata := ∅ |}]> ∅).

Definition movie (i : Z) (t : string) : Engine.Row :=
  {| Engine.Catalog.movieId := i;
     Engine.Catalog.title := Some t;
     Engine.Catalog.clean_title := Some t;
     Engine.Catalog.year := None;
     Engine.Catalog.genres_clean := Some "Drama";
     Engine.Catalog.tags := None;
     Engine.Catalog.soup := Some t |}.

Definition small_catalog : Engine.DataFrame :=
  [movie 1 "sad robot space drama"; movie 2 "funny talking dog comedy"].
End RefStore.

(** ** Test doubles *)
Module Doubles.
Import Engine.

(** A store that answers every query with a canned reply and accepts every
    upsert without keeping anything; its Embedder returns one empty vector
    per call. *)
Definition canned (reply : exn + QueryReply) : Backend :=
  {| store := unit;
     encode := fun _ => inr [[]];
     count := fun _ => 0%Z;
     upsert := fun s _ _ _ _ => (None, s);
     query := fun _ _ _ => reply |}.

(** An Embedder that is out of order. *)
Definition broken_embed (texts : list string) : exn + list vector :=
  inl EncodingFailure.

Definition broken_backend : Backend :=
  RefStore.backend broken_embed RefStore.l1_distance.

(** An Embedder that returns a single vector whatever it is given, so that
    the reference store rejects the upsert of a batch of two rows. *)
Definition short_embed (texts : list string) : exn + list vector :=
  inr [[21%Q]].

Definition picky_backend : Backend :=
  RefStore.backend short_embed RefStore.l1_distance.
End Doubles.

(** ** Vocabulary for the reference store *)
Module RefStoreMore.
Import Engine RefStore.

(** The (id, entry) pairs that the upserts of a completed loop hand to the
    store, in order; [vss] are the Embedder's answers per batch. *)
Definition written (bs : list DataFrame) (vss : list (list vector))
  : list (string * IndexEntry) :=
  concat (zip_with
            (fun b vs => zip (ids_of b) (entries vs (soups_of b) (metadatas_of b)))
            bs vss).
End RefStoreMore.

(** ** [pipeline.py]: genres, tags, soup and the pipeline itself *)
Module PipelineRest.
Import Pipeline.

(** Rows of [movies.csv] and of the processed file.  A missing cell (NaN) is
    [None]. *)
Module Movies.
Record Row (char : Type) : Type := {
  movieId : Z;
  title : list char;
  genres : option (list char)
}.
Arguments movieId {char} _.
Arguments title {char} _.
Arguments genres {char} _.
End Movies.

Module Processed.
Record Row (char : Type) : Type := {
  movieId : Z;
  title : list char;
  clean_title : list char;
  year : list char;
  genres_clean : list char;
  tags : list char;
  soup : list char
}.
Arguments movieId {char} _.
Arguments title {char} _.
Arguments clean_title {char} _.
Arguments year {char} _.
Arguments genres_clean {char} _.
Arguments tags {char} _.
Arguments soup {char} _.
End Processed.

(** The row that [build_soup] is applied to: [tags] is [None] when the
    column is absent ([row.get("tags", "")]). *)
Record SoupRow (char : Type) : Type := {
  row_clean_title : list char;
  row_genres_clean : list char;
  row_tags : option (list char)
}.
Arguments row_clean_title {char} _.
Arguments row_genres_clean {char} _.
Arguments row_tags {char} _.

Section Rest.
Context {char : Type} `{EqDecision char}.
Variables is_space is_digit : char -> bool.
Variables lparen rparen newline : char.
Variable unknown : list char.
(** The characters [" "] and ["|"], the literal ["(no genres listed)"], and
    [str.lower]. *)
Variables space pipe : char.
Variable no_genres_listed : list char.
Variable lower : list char -> list char.

(** [s.replace(old, new)] for one-character [old] and [new]. *)
Definition replace_char (old new : char) (s : list char) : list char :=
  (fun c => if decide (c = old) then new else c) <$> s.

Definition format_genres (genres : option (list char)) : list char :=
  match genres with
  | None => []
  | Some g =>
      if decide (g = no_genres_listed) then [] else replace_char pipe space g
  end.

(** [sep.join(parts)] *)
Fixpoint join (sep : list char) (parts : list (list char)) : list char :=
  match parts with
  | [] => []
  | [p] => p
  | p :: ps => p ++ sep ++ join sep ps
  end.

(** [s.split()]: the maximal runs of non-whitespace characters. *)
Fixpoint split (s : list char) : list (list char) :=
  match s with
  | [] => []
  | c :: s' =>
      if is_space c then split s'
      else
        match s' with
        | [] => [[c]]
        | c' :: _ =>
            if is_space c' then [c] :: split s'
            else
              match split s' with
              | w :: ws => (c :: w) :: ws
              | [] => [[c]]
              end
        end
  end.

Definition build_soup (row : SoupRow char) : list char :=
  let parts := [row_clean_title row; row_genres_clean row;
                default [] (row_tags row)] in
  strip is_space (join [space] (filter (fun p => p <> []) parts)).

(** [Series.unique()]: first occurrences, in order of appearance. *)
Fixpoint unique (l : list (list char)) : list (list char) :=
  match l with
  | [] => []
  | x :: l' => x :: filter (fun y => y <> x) (unique l')
  end.

(** The inner function of [aggregate_tags], on the [tag] column of one
    group: [dropna], [str.lower], [unique], [" ".join]. *)
Definition _join (grp : list (option (list char))) : list char :=
  join [space] (unique (lower <$> omap id grp)).

(** The [tag] cells of the rows of [tags_df] whose [movieId] is [k]. *)
Definition group (tags_df : list (Z * option (list char))) (k : Z)
  : list (option (list char)) :=
  snd <$> filter (fun r => r.1 = k) tags_df.

(** What pandas raises on the frames with no rows (see [aggregate_tags] and
    [run_pipeline]). *)
Inductive error : Type :=
  | TypeError
  | ValueError.

(** [tags_df.groupby("movieId").apply(_join).rename("tags")]: a series
    indexed by the [movieId]s that occur in [tags_df].  On a frame with no
    rows there is no group, [apply] returns an empty DataFrame instead of a
    Series, and [rename("tags")] raises [TypeError]. *)
Definition aggregate_tags (tags_df : list (Z * option (list char)))
  : error + gmap Z (list char) :=
  match tags_df with
  | [] => inl TypeError
  | _ :: _ =>
      inr (list_to_map ((fun k => (k, _join (group tags_df k))) <$> tags_df.*1))
  end.

(** Steps 2 to 4 of [run_pipeline] on one row of [movies_df], [tag_series]
    being the result of step 3's [aggregate_tags]. *)
Definition process (tag_series : gmap Z (list char)) (m : Movies.Row char)
  : Processed.Row char :=
  let clean := clean_title is_space is_digit lparen rparen newline (Movies.title m) in
  let year := extract_year is_space is_digit lparen rparen newline unknown
                (Movies.title m) in
  let genres_clean := format_genres (Movies.genres m) in
  let tags := default [] (tag_series !! Movies.movieId m) in
  {| Processed.movieId := Movies.movieId m;
     Processed.title := Movies.title m;
     Processed.clean_title := clean;
     Processed.year := year;
     Processed.genres_clean := genres_clean;
     Processed.tags := tags;
     Processed.soup :=
       build_soup {| row_clean_title := clean; row_genres_clean := genres_clean;
                     row_tags := Some tags |} |}.

(** [run_pipeline]: from the two data frames read to the data frame
    written.  Step 3 raises what [aggregate_tags] raises.  In step 4, on a
    [movies_df] with no rows, [progress_apply(build_soup, axis=1)] returns an
    empty DataFrame, and its assignment to the column [soup] raises
    [ValueError]. *)
Definition run_pipeline (movies_df : list (Movies.Row char))
    (tags_df : list (Z * option (list char)))
  : error + list (Processed.Row char) :=
  match aggregate_tags tags_df with
  | inl e => inl e
  | inr tag_series =>
      match movies_df with
      | [] => inl ValueError
      | _ :: _ => inr (process tag_series <$> movies_df)
      end
  end.

(** *** Vocabulary *)

(** No whitespace at either end. *)
Definition stripped (s : list char) : Prop :=
  (forall c, head s = Some c -> is_space c = false)
  /\ (forall c, last s = Some c -> is_space c = false).

(** A genre name: not empty, no whitespace, no ["|"]. *)
Definition genre_name (g : list char) : Prop :=
  g <> [] /\ Forall (fun c => is_space c = false /\ c <> pipe) g.
End Rest.

(** The instance used in examples: characters are the code points below
    256.  [str.lower] there moves [A-Z] and the capital letters 192 to 222
    (the multiplication sign 215 apart) up by 32, and nothing else. *)
Definition latin1_lower (s : list Ascii.ascii) : list Ascii.ascii :=
  (fun c => let n := Ascii.nat_of_ascii c in
            if ((65 <=? n) && (n <=? 90)
                || (192 <=? n) && (n <=? 222) && negb (n =? 215))%nat
            then Ascii.ascii_of_nat (n + 32) else c)
    <$> s.

Definition run_pipeline_str (movies : list (Z * string * option string))
    (tags : list (Z * option string)) : error + list (Processed.Row Ascii.ascii) :=
  run_pipeline ascii_space ascii_digit "("%char ")"%char "010"%char (chars "Unknown")
    " "%char "|"%char (chars "(no genres listed)") latin1_lower
    ((fun m : Z * string * option string =>
        {| Movies.movieId := m.1.1; Movies.title := chars m.1.2;
           Movies.genres := chars <$> m.2 |}) <$> movies)
    ((fun t : Z * option string => (t.1, chars <$> t.2)) <$> tags).
End PipelineRest.

(** ** [api.py] *)
Module Api.
Import Engine.
Local Open Scope Z_scope.

(** The engine object held in [engine_instance]; its model and collection
    are the [Backend] and the store of the run. *)
Inductive SemanticEngine : Type := TheEngine.

(** What a route hands back to FastAPI: a body, an [HTTPException] raised
    by the handler, or the rejection (status 422) of a request that does not
    meet the declared constraints.  An engine exception is not caught by any
    route: it stays a [Raise] of the program. *)
Inductive reply (A : Type) : Type :=
  | Body (a : A)
  | HTTPException (status_code : Z) (detail : string)
  | RequestValidationError.
Arguments Body {A} a.
Arguments HTTPException {A} status_code detail.
Arguments RequestValidationError {A}.

Record RecommendResponse : Type := {
  query : string;
  n_results : Z;
  results : list QueryResult
}.

Definition _get_engine (engine_instance : option SemanticEngine)
  : reply SemanticEngine :=
  match engine_instance with
  | None => HTTPException 503 "Engine not initialised yet."
  | Some e => Body e
  end.


(** [GET /stats] *)
Definition get_stats (engine_instance : option SemanticEngine) : prog (reply Stats) :=
  match _get_engine engine_instance with
  | Body _ => st ← stats; Ret (Body st)
  | HTTPException c d => Ret (HTTPException c d)
  | RequestValidationError => Ret RequestValidationError
  end.

(** The body shared by the two [/recommend] handlers. *)
Definition respond (engine_instance : option SemanticEngine) (q : string) (n : Z)
  : prog (reply RecommendResponse) :=
  match _get_engine engine_instance with
  | Body _ =>
      rs ← recommend q n;
      Ret (Body {| query := q; n_results := len rs; results := rs |})
  | HTTPException c d => Ret (HTTPException c d)
  | RequestValidationError => Ret RequestValidationError
  end.

(** A Python [str] is held as its UTF-8 encoding.  [len], and with it the
    [min_length] constraint, counts characters: the bytes that are not
    continuation bytes ([0x80] to [0xBF]). *)
Definition continuation (c : Ascii.ascii) : bool :=
  let n := Ascii.nat_of_ascii c in ((128 <=? n) && (n <=? 191))%nat.

Fixpoint characters (s : string) : nat :=
  match s with
  | EmptyString => 0
  | String c s' => ((if continuation c then 0 else 1) + characters s')%nat
  end.

(** [GET /recommend]: [query] is required with [min_length=2]; [n] defaults
    to 10 and must satisfy [ge=1, le=50].  A parameter that is absent from
    the request is [None]. *)
Definition recommend_get (engine_instance : option SemanticEngine)
    (query : option string) (n : option Z) : prog (reply RecommendResponse) :=
  match query with
  | None => Ret RequestValidationError
  | Some q =>
      let n := default 10 n in
      if bool_decide (2 <= Z.of_nat (characters q))
         && bool_decide (1 <= n) && bool_decide (n <= 50)
      then respond engine_instance q n
      else Ret RequestValidationError
  end.

(** [POST /recommend]: the fields of [RecommendRequest]; [query] is
    required, with no length constraint; [n_results] defaults to 10 and must
    satisfy [ge=1, le=50]. *)
Definition recommend_post (engine_instance : option SemanticEngine)
    (query : option string) (n_results : option Z) : prog (reply RecommendResponse) :=
  match query with
  | None => Ret RequestValidationError
  | Some q =>
      let n := default 10 n_results in
      if bool_decide (1 <= n) && bool_decide (n <= 50)
      then respond engine_instance q n
      else Ret RequestValidationError
  end.

(** *** Vocabulary *)

(** Every query the store receives asks for between 1 and 50 results. *)
Definition asks_within_bounds (t : list event) : Prop :=
  Forall (fun e => match e with
                   | EvQuery _ k => 1 <= k <= 50
                   | _ => True
                   end) t.

(** Every text the Embedder receives has at least two characters. *)
Definition encodes_two_characters (t : list event) : Prop :=
  Forall (fun e => match e with
                   | EvEncode texts => Forall (fun q => (2 <= characters q)%nat) texts
                   | _ => True
                   end) t.
End Api.

(* ===================================================================== *)
(** * The dashboard helpers ([app.py])

    The three functions that build the HTML of a result card.  A Python
    [str] is the list of its code points; the literal pieces of the
    f-strings are transcribed piece by piece, with [dq] for the double quote
    and [nl] for the line feed.  The functions that talk to the network and
    to Streamlit's widgets are not modelled. *)
Module App.
Import Float64 Pipeline PipelineRest.
Local Open Scope Z_scope.

Definition str : Type := list N.

(** The code points of an ASCII literal. *)
Definition cp (s : string) : str :=
  (fun a => N_of_ascii a) <$> String.list_ascii_of_string s.

Definition dq : str := [34%N].
Definition nl : str := [10%N].

(** The characters [str.strip] and [str.split] treat as whitespace. *)
Definition py_isspace (c : N) : bool :=
  ((9 <=? c) && (c <=? 13) || (28 <=? c) && (c <=? 32)
   || (c =? 133) || (c =? 160) || (c =? 5760)
   || (8192 <=? c) && (c <=? 8202) || (c =? 8232) || (c =? 8233)
   || (c =? 8239) || (c =? 8287) || (c =? 12288))%N.

(** What [int()] raises on an infinite float. *)
Inductive error : Type := OverflowError.

(** [x * y] on finite floats: the exact product, rounded once; a product
    that rounds beyond the largest finite float is an infinity, [None]. *)
Definition fmul (x y : Q) : option Q :=
  let p := fl (x * y) in
  if Qle_bool (Qabs p) max_float then Some p else None.

(** Truncation towards zero. *)
Definition trunc (x : Q) : Z :=
  if Qle_bool 0 x then Qfloor x else Qceiling x.

(** [int(x)] on a float: truncation, [OverflowError] on an infinity. *)
Definition int_of_float (x : option Q) : error + Z :=
  match x with
  | Some q => inr (trunc q)
  | None => inl OverflowError
  end.

(** [f"{n}"] for an [int]. *)
Definition str_of_int (n : Z) : str := cp (pretty n).

Definition GENRE_COLOURS : gmap str str :=
  list_to_map
    [(cp "Action", cp "#e74c3c");
     (cp "Comedy", cp "#f39c12");
     (cp "Drama", cp "#3498db");
     (cp "Thriller", cp "#8e44ad");
     (cp "Romance", cp "#e91e8c");
     (cp "Animation", cp "#1abc9c");
     (cp "Horror", cp "#c0392b");
     (cp "Sci-Fi", cp "#2980b9");
     (cp "Adventure", cp "#27ae60");
     (cp "Fantasy", cp "#9b59b6");
     (cp "Crime", cp "#7f8c8d");
     (cp "Documentary", cp "#16a085");
     (cp "Children", cp "#f1c40f");
     (cp "Musical", cp "#d35400");
     (cp "Mystery", cp "#2c3e50");
     (cp "War", cp "#95a5a6");
     (cp "Western", cp "#a04000")].

Definition DEFAULT_COLOUR : str := cp "#555555".

Definition genre_pill (genre : str) : str :=
  let colour := default DEFAULT_COLOUR (GENRE_COLOURS !! strip py_isspace genre) in
  cp "<span style=" ++ dq ++ cp "background:" ++ colour ++
  cp ";color:#fff;padding:3px 10px;border-radius:12px;font-size:0.75rem;margin:2px;display:inline-block;" ++
  dq ++ cp ">" ++ strip py_isspace genre ++ cp "</span>".

(** The two locals of [score_bar]: [pct] and [colour]. *)
Definition score_pct (score : Q) : error + Z := int_of_float (fmul score (100 # 1)).

Definition score_colour (score : Q) : str :=
  if Qle_bool (1 # 2) score then cp "#2ecc71"
  else if Qle_bool (fl (3 # 10)) score then cp "#f39c12"
  else cp "#e74c3c".

(** The f-string that [score_bar] returns, as a function of its two
    locals. *)
Definition score_bar_html (colour : str) (pct : Z) : str :=
  cp "<div style=" ++ dq ++
  cp "background:#eee;border-radius:6px;height:8px;width:100%;margin:6px 0" ++ dq ++
  cp "><div style=" ++ dq ++ cp "background:" ++ colour ++ cp ";width:" ++
  str_of_int pct ++ cp "%;height:100%;border-radius:6px;transition:width 0.4s ease" ++
  dq ++ cp "></div></div><small style=" ++ dq ++ cp "color:" ++ colour ++
  cp ";font-weight:600;" ++ dq ++ cp ">" ++ str_of_int pct ++ cp "% match</small>".

(** [pct] is computed first, so an [OverflowError] of [int()] is raised
    before anything else is done. *)
Definition score_bar (score : Q) : error + str :=
  match score_pct score with
  | inl e => inl e
  | inr pct => inr (score_bar_html (score_colour score) pct)
  end.

(** A result as the card reads it: the keys [movie_card] subscripts. *)
Record Movie : Type := {
  title : str;
  year : str;
  genres : str;
  tags : str;
  score : Q
}.

(** The three locals of [movie_card]. *)
Definition genres_html (movie : Movie) : str :=
  concat (genre_pill <$>
            filter (fun g => g <> []) (split py_isspace (genres movie))).

Definition tags_snippet (movie : Movie) : str :=
  if bool_decide (80 < Engine.len (tags movie)) then take 80 (tags movie) ++ [8230%N]
  else tags movie.

Definition tags_html (movie : Movie) : str :=
  if bool_decide (tags_snippet movie <> []) then
    cp "<p style=" ++ dq ++ cp "font-size:0.8rem;color:#888;margin:4px 0" ++ dq ++
    cp ">" ++ [127991%N] ++ cp " " ++ tags_snippet movie ++ cp "</p>"
  else [].

(** The f-string that [movie_card] returns, [bar] being the value of
    [score_bar(movie['score'])]. *)
Definition movie_card_html (movie : Movie) (rank : Z) (bar : str) : str :=
  nl ++ cp "    <div style=" ++ dq ++ nl ++
  cp "        background: linear-gradient(135deg,#1e2130,#2a2f45);" ++ nl ++
  cp "        border-radius:14px;padding:18px 22px;margin:10px 0;" ++ nl ++
  cp "        border-left:4px solid #7c83fd;" ++ nl ++
  cp "        box-shadow:0 4px 15px rgba(0,0,0,0.3);" ++ nl ++ cp "    " ++ dq ++
  cp ">" ++ nl ++ cp "        <div style=" ++ dq ++
  cp "display:flex;justify-content:space-between;align-items:flex-start" ++ dq ++
  cp ">" ++ nl ++ cp "            <div>" ++ nl ++ cp "                <span style=" ++
  dq ++ cp "font-size:1.3rem;font-weight:700;color:#e8eaf6" ++ dq ++ cp ">" ++ nl ++
  cp "                    #" ++ str_of_int rank ++ cp " &nbsp;" ++ title movie ++ nl ++
  cp "                </span>" ++ nl ++ cp "                <span style=" ++ dq ++
  cp "color:#888;font-size:0.9rem;margin-left:8px" ++ dq ++ cp ">" ++ nl ++
  cp "                    (" ++ year movie ++ cp ")" ++ nl ++
  cp "                </span>" ++ nl ++ cp "            </div>" ++ nl ++
  cp "        </div>" ++ nl ++ cp "        <div style=" ++ dq ++ cp "margin:8px 0" ++
  dq ++ cp ">" ++ genres_html movie ++ cp "</div>" ++ nl ++ cp "        " ++
  tags_html movie ++ nl ++ cp "        " ++ bar ++ nl ++
  cp "    </div>" ++ nl ++ cp "    ".

(** The holes of the f-string are evaluated from left to right; the last
    one, [score_bar(movie['score'])], is the only one that can raise. *)
Definition movie_card (movie : Movie) (rank : Z) : error + str :=
  match score_bar (score movie) with
  | inl e => inl e
  | inr bar => inr (movie_card_html movie rank bar)
  end.

End App.

(* ===================================================================== *)
(** * Part II: properties                                                  *)
(* ===================================================================== *)

(** ** Rounding is monotone, and exact on representable values *)
Module Float64Facts.
Import Float64.
Local Open Scope Q_scope.

Lemma rne_cases q : rne q = Qfloor q \/ rne q = (Qfloor q + 1)%Z.
Proof.
  unfold rne. destruct (Qcompare _ _); auto. destruct (Z.even _); auto.
Qed.

Lemma rne_mono x y : x <= y -> (rne x <= rne y)%Z.
Proof.
  intros Hxy. pose proof (Qfloor_resp_le _ _ Hxy) as Hf.
  destruct (Z.eq_dec (Qfloor x) (Qfloor y)) as [E|NE].
  - unfold rne. rewrite <- E.
    destruct (Qcompare_spec (x - inject_Z (Qfloor x)) (1#2)) as [Hx|Hx|Hx],
             (Qcompare_spec (y - inject_Z (Qfloor x)) (1#2)) as [Hy|Hy|Hy];
      try destruct (Z.even (Qfloor x)); try lia; exfalso; lra.
  - destruct (rne_cases x) as [-> | ->], (rne_cases y) as [-> | ->]; lia.
Qed.

Lemma rne_Z z : rne (inject_Z z) = z.
Proof.
  unfold rne. rewrite Qfloor_Z.
  destruct (Qcompare_spec (inject_Z z - inject_Z z) (1#2)) as [H|H|H]; try reflexivity; exfalso; lra.
Qed.

Lemma rne_ext x y : x == y -> rne x = rne y.
Proof.
  intros E. apply Z.le_antisymm; apply rne_mono; rewrite E; apply Qle_refl.
Qed.

Lemma pow2_pos e : 0 < pow2 e.
Proof. apply Qpower_0_lt. reflexivity. Qed.

Lemma pow2_add a b : pow2 (a + b) == pow2 a * pow2 b.
Proof. apply Qpower_plus. discriminate. Qed.

Lemma pow2_le a b : (a <= b)%Z -> pow2 a <= pow2 b.
Proof. intros H. apply Qpower_le_compat_l; [exact H | discriminate]. Qed.

Lemma pow2_lt_inv a b : pow2 a < pow2 b -> (a < b)%Z.
Proof.
  intros H. destruct (Z_lt_le_dec a b) as [L|L]; [exact L|].
  apply pow2_le in L. exfalso; lra.
Qed.

Lemma pow2_Z k : (0 <= k)%Z -> pow2 k == inject_Z (2 ^ k).
Proof. intros H. unfold pow2. rewrite Zpower_Qpower by exact H. reflexivity. Qed.

Lemma Q_num_den (q : Q) : q * inject_Z (Zpos (Qden q)) == inject_Z (Qnum q).
Proof.
  destruct q as [n d]. unfold Qeq, Qmult, inject_Z. simpl. lia.
Qed.

Lemma ilog2_spec q : 0 < q -> pow2 (ilog2 q) <= q /\ q < pow2 (ilog2 q + 1).
Proof.
  intros Hq.
  pose proof (Q_num_den q) as Hnd.
  assert (Hn : (0 < Qnum q)%Z).
  { destruct q as [n d]. unfold Qlt in Hq. simpl in *. lia. }
  set (la := Z.log2 (Qnum q)) in *. set (ld := Z.log2 (Zpos (Qden q))).
  assert (Hla : (0 <= la)%Z) by apply Z.log2_nonneg.
  assert (Hld : (0 <= ld)%Z) by apply Z.log2_nonneg.
  destruct (Z.log2_spec (Qnum q) Hn) as [Hn1 Hn2]. fold la in Hn1, Hn2.
  destruct (Z.log2_spec (Zpos (Qden q)) eq_refl) as [Hd1 Hd2]. fold ld in Hd1, Hd2.
  assert (Qn1 : pow2 la <= inject_Z (Qnum q)).
  { rewrite pow2_Z by lia. rewrite <- Zle_Qle. exact Hn1. }
  assert (Qn2 : inject_Z (Qnum q) < pow2 (la + 1)).
  { rewrite pow2_Z by lia. rewrite <- Zlt_Qlt. rewrite <- Z.add_1_r in Hn2. exact Hn2. }
  assert (Qd1 : pow2 ld <= inject_Z (Zpos (Qden q))).
  { rewrite pow2_Z by lia. rewrite <- Zle_Qle. exact Hd1. }
  assert (Qd2 : inject_Z (Zpos (Qden q)) < pow2 (ld + 1)).
  { rewrite pow2_Z by lia. rewrite <- Zlt_Qlt. rewrite <- Z.add_1_r in Hd2. exact Hd2. }
  pose proof (pow2_pos ld) as Pld. pose proof (pow2_pos (ld + 1)) as Pld1.
  unfold ilog2. fold la ld.
  destruct (Qle_bool (pow2 (la - ld)) q) eqn:B.
  - apply Qle_bool_iff in B. split; [exact B|].
    assert (E : pow2 (la - ld + 1) * pow2 ld == pow2 (la + 1)).
    { rewrite <- pow2_add. replace (la - ld + 1 + ld)%Z with (la + 1)%Z by lia. reflexivity. }
    pose proof (pow2_pos (la - ld + 1)) as PX.
    set (X := pow2 (la - ld + 1)) in *. set (P := pow2 ld) in *.
    set (D := inject_Z (Zpos (Qden q))) in *. set (N := inject_Z (Qnum q)) in *.
    set (Y := pow2 (la + 1)) in *.
    destruct (Qlt_le_dec q X) as [L|L]; [exact L|exfalso].
    assert (X * P <= q * D) by (apply Qle_trans with (q * P); nra).
    lra.
  - assert (B' : ~ pow2 (la - ld) <= q) by (rewrite <- Qle_bool_iff; congruence).
    apply Qnot_le_lt in B'. replace (la - ld - 1 + 1)%Z with (la - ld)%Z by lia.
    split; [|exact B'].
    assert (E : pow2 (la - ld - 1) * pow2 (ld + 1) == pow2 la).
    { rewrite <- pow2_add. replace (la - ld - 1 + (ld + 1))%Z with la by lia. reflexivity. }
    pose proof (pow2_pos (la - ld - 1)) as PX.
    set (X := pow2 (la - ld - 1)) in *. set (P := pow2 (ld + 1)) in *.
    set (D := inject_Z (Zpos (Qden q))) in *. set (N := inject_Z (Qnum q)) in *.
    set (Y := pow2 la) in *.
    destruct (Qlt_le_dec q X) as [L|L]; [exfalso|exact L].
    assert (q * D < X * P) by (apply Qle_lt_trans with (X * D); nra).
    lra.
Qed.

Lemma ilog2_mono x y : 0 < x -> x <= y -> (ilog2 x <= ilog2 y)%Z.
Proof.
  intros Hx Hxy.
  destruct (ilog2_spec x Hx) as [A _].
  destruct (ilog2_spec y) as [_ B]; [lra|].
  assert (H : pow2 (ilog2 x) < pow2 (ilog2 y + 1)) by lra.
  apply pow2_lt_inv in H. lia.
Qed.

Lemma fexp_mono x y : 0 < x -> x <= y -> (fexp x <= fexp y)%Z.
Proof. intros Hx Hxy. pose proof (ilog2_mono x y Hx Hxy). unfold fexp. lia. Qed.

Lemma scaled_lt x : 0 < x -> x / pow2 (fexp x) < inject_Z (2 ^ 53).
Proof.
  intros Hx. destruct (ilog2_spec x Hx) as [_ B].
  pose proof (pow2_pos (fexp x)) as P.
  apply Qlt_shift_div_r; [exact P|].
  rewrite <- pow2_Z by lia. rewrite <- pow2_add.
  eapply Qlt_le_trans; [exact B|]. apply pow2_le. unfold fexp. lia.
Qed.

Lemma scaled_ge x : 0 < x -> (-1074 < ilog2 x - 52)%Z ->
  inject_Z (2 ^ 52) <= x / pow2 (fexp x).
Proof.
  intros Hx Hn. destruct (ilog2_spec x Hx) as [A _].
  pose proof (pow2_pos (fexp x)) as P.
  apply Qle_shift_div_l; [exact P|].
  rewrite <- pow2_Z by lia. rewrite <- pow2_add.
  eapply Qle_trans; [|exact A]. apply pow2_le. unfold fexp. lia.
Qed.

Lemma fl_pos_mono x y : 0 < x -> x <= y -> fl_pos x <= fl_pos y.
Proof.
  intros Hx Hxy. assert (Hy : 0 < y) by lra.
  pose proof (fexp_mono x y Hx Hxy) as He.
  pose proof (pow2_pos (fexp x)) as Px. pose proof (pow2_pos (fexp y)) as Py.
  unfold fl_pos.
  destruct (Z.eq_dec (fexp x) (fexp y)) as [E|NE].
  - rewrite <- E. apply Qmult_le_compat_r; [|lra].
    rewrite <- Zle_Qle. apply rne_mono.
    apply Qmult_le_compat_r; [exact Hxy|]. apply Qlt_le_weak, Qinv_lt_0_compat, Px.
  - assert (A : (rne (x / pow2 (fexp x)) <= 2 ^ 53)%Z).
    { rewrite <- (rne_Z (2 ^ 53)). apply rne_mono, Qlt_le_weak, scaled_lt, Hx. }
    assert (B : (2 ^ 52 <= rne (y / pow2 (fexp y)))%Z).
    { rewrite <- (rne_Z (2 ^ 52)). apply rne_mono, scaled_ge; [exact Hy|].
      unfold fexp in *. lia. }
    apply Qle_trans with (inject_Z (2 ^ 53) * pow2 (fexp x)).
    { apply Qmult_le_compat_r; [|lra]. rewrite <- Zle_Qle. exact A. }
    apply Qle_trans with (inject_Z (2 ^ 52) * pow2 (fexp y)).
    2:{ apply Qmult_le_compat_r; [|lra]. rewrite <- Zle_Qle. exact B. }
    rewrite <- !pow2_Z by lia. rewrite <- !pow2_add. apply pow2_le. lia.
Qed.

Lemma fl_pos_nonneg x : 0 <= x -> 0 <= fl_pos x.
Proof.
  intros Hx. unfold fl_pos. pose proof (pow2_pos (fexp x)) as P.
  apply Qmult_le_0_compat; [|lra].
  change 0 with (inject_Z 0). rewrite <- Zle_Qle.
  rewrite <- (rne_Z 0). apply rne_mono.
  apply Qle_shift_div_l; [exact P|]. change (inject_Z 0) with 0. lra.
Qed.

Lemma fl_mono x y : x <= y -> fl x <= fl y.
Proof.
  intros Hxy. unfold fl.
  destruct (Qcompare_spec x 0) as [Hx|Hx|Hx], (Qcompare_spec y 0) as [Hy|Hy|Hy];
    try lra.
  - apply fl_pos_nonneg; lra.
  - assert (0 <= fl_pos (- x)) by (apply fl_pos_nonneg; lra). lra.
  - apply Qopp_le_compat. apply fl_pos_mono; lra.
  - assert (0 <= fl_pos (- x)) by (apply fl_pos_nonneg; lra).
    assert (0 <= fl_pos y) by (apply fl_pos_nonneg; lra). lra.
  - apply fl_pos_mono; lra.
Qed.

Lemma fl_ext x y : x == y -> fl x == fl y.
Proof. intros E. apply Qle_antisym; apply fl_mono; rewrite E; apply Qle_refl. Qed.

Lemma fl_pos_exact m e :
  (0 < m < 2 ^ 53)%Z -> (-1074 <= e)%Z ->
  fl_pos (inject_Z m * pow2 e) == inject_Z m * pow2 e.
Proof.
  intros Hm He. unfold fl_pos.
  set (q := inject_Z m * pow2 e). set (E := fexp q).
  pose proof (pow2_pos e) as Pe.
  assert (Hm0 : 0 < inject_Z m) by (change 0 with (inject_Z 0); rewrite <- Zlt_Qlt; lia).
  assert (Hq : 0 < q) by (unfold q; nra).
  destruct (ilog2_spec q Hq) as [A _].
  assert (Hlt : q < pow2 (53 + e)).
  { unfold q. rewrite pow2_add. apply Qmult_lt_compat_r; [exact Pe|].
    rewrite pow2_Z by lia. rewrite <- Zlt_Qlt. lia. }
  assert (HE : (E <= e)%Z).
  { assert (H : pow2 (ilog2 q) < pow2 (53 + e)) by lra.
    apply pow2_lt_inv in H. unfold E, fexp. lia. }
  clearbody E. clear A Hlt Hq. unfold q. clear q.
  pose proof (pow2_pos E) as PE.
  assert (Hsplit : pow2 e == pow2 (e - E) * pow2 E).
  { rewrite <- pow2_add. replace (e - E + E)%Z with e by lia. reflexivity. }
  assert (Hint : inject_Z m * pow2 e / pow2 E == inject_Z (m * 2 ^ (e - E))).
  { rewrite inject_Z_mult, <- pow2_Z by lia. rewrite Hsplit. field. lra. }
  rewrite (rne_ext _ _ Hint), rne_Z.
  rewrite inject_Z_mult, <- pow2_Z by lia. rewrite Hsplit. ring.
Qed.


Lemma rne_nonneg q : 0 <= q -> (0 <= rne q)%Z.
Proof. intros H. rewrite <- (rne_Z 0). apply rne_mono. exact H. Qed.

Lemma round_half_even_mono x y : x <= y -> (round_half_even x <= round_half_even y)%Z.
Proof.
  intros Hxy. unfold round_half_even.
  destruct (Qle_bool 0 x) eqn:Bx, (Qle_bool 0 y) eqn:By.
  - apply rne_mono, Hxy.
  - apply Qle_bool_iff in Bx. assert (~ 0 <= y) by (rewrite <- Qle_bool_iff; congruence).
    exfalso; lra.
  - apply Qle_bool_iff in By. assert (Nx : ~ 0 <= x) by (rewrite <- Qle_bool_iff; congruence).
    assert (0 <= rne (- x))%Z by (apply rne_nonneg; lra).
    assert (0 <= rne y)%Z by (apply rne_nonneg; lra). lia.
  - assert (rne (- y) <= rne (- x))%Z by (apply rne_mono; lra). lia.
Qed.

Lemma py_round_mono x y n : x <= y -> py_round x n <= py_round y n.
Proof.
  intros Hxy. unfold py_round.
  assert (P : 0 < (10#1) ^ n) by (apply Qpower_0_lt; reflexivity).
  apply fl_mono. apply Qmult_le_compat_r.
  - rewrite <- Zle_Qle. apply round_half_even_mono.
    apply Qmult_le_compat_r; [exact Hxy | lra].
  - apply Qlt_le_weak, Qinv_lt_0_compat, P.
Qed.

Lemma fsub_mono_r x y z : y <= z -> fsub x z <= fsub x y.
Proof. intros H. apply fl_mono. lra. Qed.

Lemma fdiv_pow2_exact t k :
  (0 <= t < 2 ^ 53)%Z -> (0 <= k <= 1074)%Z ->
  fdiv (inject_Z t) (inject_Z (2 ^ k)) == inject_Z t / inject_Z (2 ^ k).
Proof.
  intros Ht Hk. unfold fdiv.
  assert (P : 0 < pow2 k) by apply pow2_pos.
  assert (E : inject_Z t / inject_Z (2 ^ k) == inject_Z t * pow2 (- k)).
  { rewrite <- pow2_Z by lia. unfold pow2 at 2. rewrite Qpower_opp. reflexivity. }
  destruct (Z.eq_dec t 0%Z) as [->|Nz].
  - reflexivity.
  - rewrite (fl_ext _ _ E). unfold fl.
    assert (Hpos : 0 < inject_Z t * pow2 (- k)).
    { pose proof (pow2_pos (- k)).
      assert (0 < inject_Z t) by (change 0 with (inject_Z 0); rewrite <- Zlt_Qlt; lia). nra. }
    destruct (Qcompare_spec (inject_Z t * pow2 (- k)) 0) as [H|H|H]; try (exfalso; lra).
    rewrite fl_pos_exact by lia. symmetry. exact E.
Qed.

(** On finite floats, [1 - d] and [round(d, 4)] stay finite, so leaving
    overflow out of [fl] loses nothing for the engine. *)
Lemma fsub_1_finite (d : Q) :
  - max_float <= d -> d <= max_float ->
  - max_float <= fsub 1 d /\ fsub 1 d <= max_float.
Proof.
  intros Hlo Hhi.
  assert (Etop : fsub 1 (- max_float) == max_float) by (vm_compute; reflexivity).
  assert (Ebot : fsub 1 max_float == - max_float) by (vm_compute; reflexivity).
  pose proof (fsub_mono_r 1 _ _ Hlo). pose proof (fsub_mono_r 1 _ _ Hhi).
  split; lra.
Qed.

Lemma py_round_4_finite (d : Q) :
  - max_float <= d -> d <= max_float ->
  - max_float <= py_round d 4 /\ py_round d 4 <= max_float.
Proof.
  intros Hlo Hhi.
  assert (Etop : py_round max_float 4 == max_float) by (vm_compute; reflexivity).
  assert (Ebot : py_round (- max_float) 4 == - max_float) by (vm_compute; reflexivity).
  pose proof (py_round_mono _ _ 4 Hlo). pose proof (py_round_mono _ _ 4 Hhi).
  split; lra.
Qed.

(** The model agrees with the IEEE 754 specification of the Standard
    Library where the examples below use it: [1 - 5e-05], [1 - 1.23456],
    and the read-back of the decimals [0.9999] and [-0.2346]. *)
Example fsub_agrees_with_ieee_1 :
  of_spec (SFsub 53 1024 (spec_of_Z 1) (S754_finite false 7378697629483821 (-67)))
  == fsub 1 (fl (5 # 100000)).
Proof. vm_compute. reflexivity. Qed.

Example fsub_agrees_with_ieee_2 :
  of_spec (SFsub 53 1024 (spec_of_Z 1) (S754_finite false 5559963955966520 (-52)))
  == fsub 1 (fl (123456 # 100000)).
Proof. vm_compute. reflexivity. Qed.

Example fdiv_agrees_with_ieee_1 :
  of_spec (SFdiv 53 1024 (spec_of_Z 9999) (spec_of_Z 10000)) == fl (9999 # 10000).
Proof. vm_compute. reflexivity. Qed.

Example fdiv_agrees_with_ieee_2 :
  of_spec (SFdiv 53 1024 (spec_of_Z (-2346)) (spec_of_Z 10000)) == fl (-2346 # 10000).
Proof. vm_compute. reflexivity. Qed.
End Float64Facts.

(** ** Columns of a batch *)
Module CatalogFacts.
Import Engine.

(** Rows keep their position inside the three per-batch lists. *)
Lemma batch_positions (b : DataFrame) (i : nat) (r : Row) :
  b !! i = Some r ->
  ids_of b !! i = Some (pretty (Catalog.movieId r))
  /\ soups_of b !! i = Some (fillna (Catalog.soup r))
  /\ metadatas_of b !! i = Some (record_of r).
Proof.
  intros H. unfold ids_of, soups_of, metadatas_of.
  rewrite !list_lookup_fmap, H. auto.
Qed.

(** The record of a row holds exactly the five metadata columns, each with
    the text of the row's cell, or the empty string for a missing cell. *)
Lemma record_of_content (r : Row) :
  dom (record_of r)
  = ({[ "title"; "clean_title"; "year"; "genres_clean"; "tags" ]} : gset string)
  /\ record_of r !! "title" = Some (default "" (Catalog.title r))
  /\ record_of r !! "clean_title" = Some (default "" (Catalog.clean_title r))
  /\ record_of r !! "year" = Some (default "" (Catalog.year r))
  /\ record_of r !! "genres_clean" = Some (default "" (Catalog.genres_clean r))
  /\ record_of r !! "tags" = Some (default "" (Catalog.tags r)).
Proof.
  unfold record_of, fillna. split.
  - rewrite !dom_insert_L, dom_empty_L.
    apply set_eq. intros k. rewrite !elem_of_union, !elem_of_singleton, elem_of_empty.
    tauto.
  - repeat split; repeat (rewrite lookup_insert_ne by discriminate);
      rewrite lookup_insert_eq; reflexivity.
Qed.

Lemma batch_lengths (b : DataFrame) :
  length (ids_of b) = length b /\ length (soups_of b) = length b
  /\ length (metadatas_of b) = length b.
Proof. unfold ids_of, soups_of, metadatas_of. rewrite !length_fmap. auto. Qed.
End CatalogFacts.

(** ** The reference store *)
Module RefStoreFacts.
Import Engine RefStore.

Lemma foldl_put_notin (kvs : list (string * IndexEntry)) (s : state) (k : string) :
  k ∉ kvs.*1 -> foldl put s kvs !! k = s !! k.
Proof.
  revert s. induction kvs as [|[k' e] kvs IH]; intros s Hk; simpl; [reflexivity|].
  rewrite fmap_cons in Hk. apply not_elem_of_cons in Hk as [Hne Hk].
  rewrite IH by exact Hk. unfold put. simpl. apply lookup_insert_ne.
  intros E. apply Hne. symmetry. exact E.
Qed.

Lemma foldl_put_lookup (kvs : list (string * IndexEntry)) (s : state)
    (i : nat) (k : string) (e : IndexEntry) :
  NoDup kvs.*1 -> kvs !! i = Some (k, e) -> foldl put s kvs !! k = Some e.
Proof.
  revert s i. induction kvs as [|[k' e'] kvs IH]; intros s i Hnd Hi; [discriminate|].
  rewrite fmap_cons in Hnd. apply NoDup_cons in Hnd as [Hk' Hnd].
  destruct i as [|i]; simpl in *.
  - injection Hi as -> ->. rewrite foldl_put_notin by exact Hk'.
    unfold put. simpl. apply lookup_insert_eq.
  - eapply IH; eassumption.
Qed.

Lemma foldl_put_nonempty (kvs : list (string * IndexEntry)) (s : state) :
  kvs <> [] -> foldl put s kvs <> ∅.
Proof.
  destruct kvs as [|kv kvs _] using rev_ind; [contradiction|]. intros _.
  rewrite foldl_app. simpl. unfold put at 1. apply insert_non_empty.
Qed.

Lemma entries_length (vs : list vector) (docs : list string) (ms : list metadata) :
  length docs = length vs -> length ms = length vs ->
  length (entries vs docs ms) = length vs.
Proof.
  revert docs ms. induction vs as [|v vs IH]; intros [|d docs] [|m ms] Hd Hm;
    simpl in *; try discriminate; [reflexivity|].
  f_equal. apply IH; congruence.
Qed.

Lemma entries_lookup (vs : list vector) (docs : list string) (ms : list metadata)
    (i : nat) (v : vector) (d : string) (m : metadata) :
  vs !! i = Some v -> docs !! i = Some d -> ms !! i = Some m ->
  entries vs docs ms !! i
  = Some {| entry_vector := v; entry_document := d; entry_metadata := m |}.
Proof.
  revert docs ms i. induction vs as [|v' vs IH]; intros [|d' docs] [|m' ms] [|i];
    simpl; try discriminate.
  - intros [= ->] [= ->] [= ->]. reflexivity.
  - apply IH.
Qed.

Lemma same_lengths_spec ids vs docs ms :
  same_lengths ids vs docs ms = true <->
  length vs = length ids /\ length docs = length ids /\ length ms = length ids.
Proof.
  unfold same_lengths. rewrite !andb_true_iff, !bool_decide_eq_true. tauto.
Qed.

Section Facts.
Variable embed : list string -> exn + list vector.
Variable metric : vector -> vector -> Q.
Let B := backend embed metric.

Lemma ref_upsert_accepted (s : state) ids vs docs ms :
  (upsert B s ids vs docs ms).1 = None ->
  same_lengths ids vs docs ms = true
  /\ (upsert B s ids vs docs ms).2 = foldl put s (zip ids (entries vs docs ms)).
Proof.
  simpl. unfold ref_upsert. destruct (same_lengths ids vs docs ms); simpl;
    [auto | discriminate].
Qed.

Lemma ref_upsert_populates : upsert_populates B.
Proof.
  intros s ids vs docs ms Hne Hacc.
  destruct (ref_upsert_accepted s ids vs docs ms Hacc) as [Hlen ->].
  apply same_lengths_spec in Hlen as (Hv & Hd & Hm).
  simpl. unfold ref_count.
  assert (size (foldl put s (zip ids (entries vs docs ms))) <> 0%nat); [|lia].
  intros H0. apply map_size_empty_iff in H0. revert H0. apply foldl_put_nonempty.
  assert (He : length (entries vs docs ms) = length vs)
    by (apply entries_length; lia).
  destruct ids as [|k ids]; [contradiction|].
  destruct (entries vs docs ms); [simpl in *; lia | discriminate].
Qed.

(** C7. An [upsert] whose four sequences do not all have the same length is
    rejected with [ValidationError] and the store is left as it was: the
    same entries, hence the same [count()] and the same answers to
    [query].  Seen from [index]: the batch's calls raise and write
    nothing. *)
Theorem upsert_rejects_mismatched_lengths (s : state) ids vs docs ms :
  ~ (length vs = length ids /\ length docs = length ids /\ length ms = length ids) ->
  upsert B s ids vs docs ms = (Some ValidationError, s)
  /\ (let o := run B (perform (Upsert ids vs docs ms)) s in
      result o = inl ValidationError /\ final o = s
      /\ count B (final o) = count B s
      /\ forall qs k, query B (final o) qs k = query B s qs k).
Proof.
  intros Hlen.
  assert (E : same_lengths ids vs docs ms = false).
  { destruct (same_lengths ids vs docs ms) eqn:E; [|reflexivity].
    apply same_lengths_spec in E. contradiction. }
  assert (U : upsert B s ids vs docs ms = (Some ValidationError, s)).
  { simpl. unfold ref_upsert. rewrite E. reflexivity. }
  split; [exact U|]. cbn [run perform handle]. rewrite U. cbn. auto.
Qed.

Lemma ref_indexed_frame (s s' : state) bs vss (k : string) :
  Indexed B s bs vss s' -> k ∉ ids_of (concat bs) -> s' !! k = s !! k.
Proof.
  intros Hind. induction Hind as [s|s s' b vs bs vss Henc Hup Hind IH]; intros Hk;
    [reflexivity|].
  simpl in Hk. unfold ids_of in Hk. rewrite fmap_app in Hk.
  apply not_elem_of_app in Hk as [Hb Hrest].
  rewrite IH by exact Hrest.
  destruct (ref_upsert_accepted s _ _ _ _ Hup) as [Hlen Hs1].
  apply same_lengths_spec in Hlen as (Hv & Hd & Hm).
  unfold after_upsert. rewrite Hs1. apply foldl_put_notin.
  rewrite fst_zip; [exact Hb|]. rewrite entries_length; lia.
Qed.

Lemma ref_indexed_lookup (s s' : state) bs vss :
  Indexed B s bs vss s' ->
  NoDup (ids_of (concat bs)) ->
  forall (k : nat) (b : DataFrame) (i : nat) (r : Row),
    bs !! k = Some b -> b !! i = Some r ->
    exists vs x,
      embed (soups_of b) = inr vs /\ vs !! i = Some x
      /\ s' !! pretty (Catalog.movieId r)
         = Some {| entry_vector := x;
                   entry_document := fillna (Catalog.soup r);
                   entry_metadata := record_of r |}.
Proof.
  intros Hind. induction Hind as [s|s s' b vs bs vss Henc Hup Hind IH];
    intros Hnd k b0 i r Hk Hi; [discriminate|].
  simpl in Hnd. unfold ids_of in Hnd. rewrite fmap_app in Hnd.
  apply NoDup_app in Hnd as (Hndb & Hdisj & Hndrest).
  destruct k as [|k]; simpl in Hk.
  - injection Hk as <-.
    destruct (ref_upsert_accepted s _ _ _ _ Hup) as [Hlen Hs1].
    apply same_lengths_spec in Hlen as (Hv & Hd & Hm).
    assert (Hlenb : length (ids_of b) = length b) by apply length_fmap.
    destruct (lookup_lt_is_Some_2 vs i) as [x Hx].
    { rewrite Hv, Hlenb. eapply lookup_lt_Some, Hi. }
    destruct (CatalogFacts.batch_positions b i r Hi) as (Hid & Hsoup & Hmeta).
    exists vs, x. split; [exact Henc|]. split; [exact Hx|].
    rewrite (ref_indexed_frame _ _ _ _ _ Hind).
    2:{ apply Hdisj. apply list_elem_of_lookup. exists i. exact Hid. }
    unfold after_upsert. rewrite Hs1.
    eapply (foldl_put_lookup _ _ i).
    + rewrite fst_zip; [exact Hndb|]. rewrite entries_length; lia.
    + rewrite lookup_zip_with, Hid. simpl.
      rewrite (entries_lookup _ _ _ _ _ _ _ Hx Hsoup Hmeta). reflexivity.
  - apply (IH Hndrest k b0 i r Hk Hi).
Qed.

(** The reference store keeps the contract of [query]: at most [k] hits, at
    most [count()] hits, nearest first. *)
Lemma insert_hit_Forall (P : Q -> Prop) (h : metadata * Q) (l : list (metadata * Q)) :
  P h.2 -> Forall P l.*2 -> Forall P (insert_hit h l).*2.
Proof.
  intros Hh Hl. induction l as [|h' l IH]; simpl.
  - repeat constructor. exact Hh.
  - rewrite fmap_cons in Hl. apply Forall_cons in Hl as [Hh' Hl].
    destruct (Qle_bool h.2 h'.2); rewrite !fmap_cons; repeat constructor; auto.
Qed.

Lemma insert_hit_sorted (h : metadata * Q) (l : list (metadata * Q)) :
  StronglySorted Qle l.*2 -> StronglySorted Qle (insert_hit h l).*2.
Proof.
  induction l as [|h' l IH]; intros Hs; simpl.
  - repeat constructor.
  - rewrite fmap_cons in Hs. apply StronglySorted_inv in Hs as [Hs Hall].
    destruct (Qle_bool h.2 h'.2) eqn:Hle.
    + apply Qle_bool_iff in Hle. rewrite !fmap_cons. constructor.
      * constructor; assumption.
      * constructor; [exact Hle|].
        eapply Forall_impl; [exact Hall|]. intros x Hx. eapply Qle_trans; eassumption.
    + assert (Hlt : (h'.2 <= h.2)%Q).
      { destruct (Qlt_le_dec h'.2 h.2) as [L|L]; [apply Qlt_le_weak, L|].
        apply Qle_bool_iff in L. congruence. }
      rewrite fmap_cons. constructor; [apply IH, Hs|].
      apply insert_hit_Forall; assumption.
Qed.

Lemma nearest_first_sorted (l : list (metadata * Q)) :
  StronglySorted Qle (nearest_first l).*2.
Proof.
  induction l as [|h l IH]; simpl; [constructor | apply insert_hit_sorted, IH].
Qed.

Lemma insert_hit_length (h : metadata * Q) (l : list (metadata * Q)) :
  length (insert_hit h l) = S (length l).
Proof.
  induction l as [|h' l IH]; simpl; [reflexivity|].
  destruct (Qle_bool h.2 h'.2); simpl; [reflexivity | rewrite IH; reflexivity].
Qed.

Lemma nearest_first_length (l : list (metadata * Q)) :
  length (nearest_first l) = length l.
Proof.
  induction l as [|h l IH]; simpl; [reflexivity|].
  rewrite insert_hit_length, IH. reflexivity.
Qed.

Lemma StronglySorted_take (l : list Q) (n : nat) :
  StronglySorted Qle l -> StronglySorted Qle (take n l).
Proof.
  intros Hs. revert n. induction Hs as [|x l Hs IH Hall]; intros [|n]; simpl;
    try constructor.
  - apply IH.
  - apply Forall_take, Hall.
Qed.

Lemma ref_hits_contract (s : state) (q : vector) (k : Z) :
  (0 <= k -> Z.of_nat (length (hits metric s q k)) <= k)%Z
  /\ (Z.of_nat (length (hits metric s q k)) <= ref_count s)%Z
  /\ Sorted Qle (hits metric s q k).*2.
Proof.
  unfold hits, ref_count. rewrite length_take, nearest_first_length, length_fmap.
  rewrite length_map_to_list.
  split; [lia|]. split; [lia|].
  apply StronglySorted_Sorted. rewrite fmap_take.
  apply StronglySorted_take, nearest_first_sorted.
Qed.
End Facts.

Lemma upsert_rejects_mismatched_lengths_witness :
  upsert (stub_backend 1) two_entries ["1"; "9"] [[0%Q]] ["x"; "y"] [∅; ∅]
  = (Some ValidationError, two_entries)
  /\ (let o := run (stub_backend 1)
                 (perform (Upsert ["1"; "9"] [[0%Q]] ["x"; "y"] [∅; ∅])) two_entries in
      result o = inl ValidationError /\ final o = two_entries
      /\ count (stub_backend 1) (final o) = count (stub_backend 1) two_entries
      /\ forall qs k, query (stub_backend 1) (final o) qs k
                      = query (stub_backend 1) two_entries qs k).
Proof.
  apply (upsert_rejects_mismatched_lengths (stub_embed 1) l1_distance two_entries
           ["1"; "9"] [[0%Q]] ["x"; "y"] [∅; ∅]).
  simpl. lia.
Defined.
End RefStoreFacts.

(** ** Running the engine's methods *)
Module EngineFacts.
Import Float64 Float64Facts Engine.
Local Open Scope Z_scope.

Section Run.
Variable B : Backend.

Lemma run_bind {X Y : Type} (p : prog X) (f : X -> prog Y) (s : store B) :
  run B (bind p f) s =
  match result (run B p s) with
  | inl e => {| trace := trace (run B p s); result := inl e;
                final := final (run B p s) |}
  | inr x =>
      let o := run B (f x) (final (run B p s)) in
      {| trace := trace (run B p s) ++ trace o; result := result o;
         final := final o |}
  end.
Proof.
  revert s. induction p as [a|e|Z c k IH]; intros s; simpl.
  - destruct (run B (f a) s); reflexivity.
  - reflexivity.
  - destruct (handle B c s) as [[e|x] s']; simpl; [reflexivity|].
    rewrite IH. destruct (result (run B (k x) s')); reflexivity.
Qed.

(** [recommend] makes two calls, both reads. *)
Lemma run_recommend (s : store B) (q : string) (n : Z) :
  run B (recommend q n) s =
  match encode B [q] with
  | inl e => {| trace := [EvEncode [q]]; result := inl e; final := s |}
  | inr v =>
      {| trace := [EvEncode [q]; EvQuery v n];
         result :=
           match query B s v n with
           | inl e => inl e
           | inr r =>
               match metadatas r, distances r with
               | ms :: _, ds :: _ => inr (recommendation <$> zip ms ds)
               | _, _ => inl IndexError
               end
           end;
         final := s |}
  end.
Proof.
  unfold recommend, mbind, prog_bind, perform. simpl.
  destruct (encode B [q]) as [e|v]; [reflexivity|]. simpl.
  destruct (query B s v n) as [e|r]; [reflexivity|]. simpl.
  destruct (metadatas r) as [|ms rm]; [reflexivity|]. simpl.
  destruct (distances r) as [|ds rd]; reflexivity.
Qed.

Lemma run_stats (s : store B) :
  run B stats s =
  {| trace := [EvCount];
     result := inr {| collection := COLLECTION_NAME; total_movies := count B s;
                      model := MODEL_NAME; vector_dim := 384 |};
     final := s |}.
Proof. reflexivity. Qed.

Lemma run_index_batch (df : DataFrame) (i : Z) (s : store B) :
  run B (index_batch df i) s =
  let b := batch_of df i in
  match encode B (soups_of b) with
  | inl e => {| trace := [EvEncode (soups_of b)]; result := inl e; final := s |}
  | inr vs =>
      {| trace := batch_events b vs;
         result :=
           match (upsert B s (ids_of b) vs (soups_of b) (metadatas_of b)).1 with
           | Some e => inl e
           | None => inr tt
           end;
         final := after_upsert B s b vs |}
  end.
Proof.
  unfold index_batch, mbind, prog_bind, perform, after_upsert, batch_events. simpl.
  destruct (encode B (soups_of (batch_of df i))) as [e|vs]; [reflexivity|]. simpl.
  destruct (upsert B s _ vs _ _) as [[e|] s']; reflexivity.
Qed.

Lemma run_for_each_cons (df : DataFrame) (i : Z) (js : list Z) (s : store B) :
  run B (for_each (i :: js) (index_batch df)) s =
  match result (run B (index_batch df i) s) with
  | inl e => {| trace := trace (run B (index_batch df i) s); result := inl e;
                final := final (run B (index_batch df i) s) |}
  | inr _ =>
      let o := run B (for_each js (index_batch df)) (final (run B (index_batch df i) s)) in
      {| trace := trace (run B (index_batch df i) s) ++ trace o;
         result := result o; final := final o |}
  end.
Proof.
  exact (run_bind (index_batch df i) (fun _ => for_each js (index_batch df)) s).
Qed.

(** The skip path: one [count()] call and nothing else. *)
Lemma run_index_skip (df : DataFrame) (s : store B) :
  count B s > 0 ->
  run B (index df false) s = {| trace := [EvCount]; result := inr tt; final := s |}.
Proof.
  intros H. unfold index, mbind, prog_bind, perform. simpl.
  rewrite bool_decide_eq_true_2 by exact H. reflexivity.
Qed.

(** The indexing path: [count()], the loop, [count()]. *)
Lemma run_index_go (df : DataFrame) (force : bool) (s : store B) :
  count B s <= 0 \/ force = true ->
  run B (index df force) s =
  let o := run B (for_each (range (n_batch (len df))) (index_batch df)) s in
  match result o with
  | inl e => {| trace := EvCount :: trace o; result := inl e; final := final o |}
  | inr _ => {| trace := EvCount :: trace o ++ [EvCount]; result := inr tt;
                final := final o |}
  end.
Proof.
  intros H. unfold index, mbind, prog_bind, perform. simpl.
  assert (E : bool_decide (count B s > 0) && negb force = false).
  { destruct H as [H| ->]; [|apply andb_false_r].
    rewrite bool_decide_eq_false_2 by lia. reflexivity. }
  rewrite E. rewrite run_bind. simpl.
  destruct (result (run B (for_each _ _) s)); reflexivity.
Qed.
End Run.

(** C9. [recommend] never mutates the Vector Store: whatever the query and
    [n_results], and whether it returns or raises, the store it leaves is
    the store it found, and none of the calls it makes is a write. *)
Theorem recommend_never_mutates (B : Backend) (s : store B) (q : string) (n : Z) :
  final (run B (recommend q n) s) = s
  /\ Forall (fun e => is_write e = false) (trace (run B (recommend q n) s)).
Proof.
  rewrite run_recommend. destruct (encode B [q]) as [e|v]; simpl; split;
    repeat constructor.
Qed.

Lemma py_round_0 : (py_round 0 4 == 0)%Q.
Proof. vm_compute. reflexivity. Qed.

Lemma py_round_1 : (py_round 1 4 == 1)%Q.
Proof. vm_compute. reflexivity. Qed.

Lemma fsub_1_0 : (fsub 1 0 == 1)%Q.
Proof. vm_compute. reflexivity. Qed.

Lemma fsub_1_1 : (fsub 1 1 == 0)%Q.
Proof. vm_compute. reflexivity. Qed.

Lemma score_le_1 (d : Q) : (0 <= d -> py_round (fsub 1 d) 4 <= 1)%Q.
Proof.
  intros H. pose proof py_round_1 as E. pose proof fsub_1_0 as E'.
  assert (M : (fsub 1 d <= fsub 1 0)%Q) by apply fsub_mono_r, H.
  assert (M' : (fsub 1 d <= 1)%Q) by lra.
  pose proof (py_round_mono _ _ 4 M'). lra.
Qed.

Lemma score_ge_0 (d : Q) : (d <= 1 -> 0 <= py_round (fsub 1 d) 4)%Q.
Proof.
  intros H. pose proof py_round_0 as E. pose proof fsub_1_1 as E'.
  assert (M : (fsub 1 1 <= fsub 1 d)%Q) by apply fsub_mono_r, H.
  assert (M' : (0 <= fsub 1 d)%Q) by lra.
  pose proof (py_round_mono _ _ 4 M'). lra.
Qed.

Lemma rounded_distance_ge_0 (d : Q) : (0 <= d -> 0 <= py_round d 4)%Q.
Proof.
  intros H. pose proof py_round_0 as E. pose proof (py_round_mono _ _ 4 H). lra.
Qed.

Section Recommend.
Local Open Scope Q_scope.
Variable B : Backend.
Variable s : store B.
Variables (q : string) (n : Z).
(** What the Embedder returned for the query and the store for the vector. *)
Variables (v : list vector) (ms : list metadata) (ds : list Q).
Variables (rm : list (list metadata)) (rd : list (list Q)).
Hypothesis embedded : encode B [q] = inr v.
Hypothesis answered :
  query B s v n = inr {| metadatas := ms :: rm; distances := ds :: rd |}.

Lemma recommend_returns :
  run B (recommend q n) s =
  {| trace := [EvEncode [q]; EvQuery v n];
     result := inr (recommendation <$> zip ms ds);
     final := s |}.
Proof. rewrite run_recommend, embedded, answered. reflexivity. Qed.

Lemma recommendation_fields (h : metadata * Q) :
  score (recommendation h) = py_round (fsub 1 h.2) 4
  /\ distance (recommendation h) = py_round h.2 4.
Proof. destruct h; split; reflexivity. Qed.

Lemma Forall2_recommendation (P : QueryResult -> metadata * Q -> Prop)
    (hs : list (metadata * Q)) :
  (forall h, h ∈ hs -> P (recommendation h) h) ->
  Forall2 P (recommendation <$> hs) hs.
Proof.
  intros H. apply Forall2_fmap_l, Forall_Forall2_diag, Forall_forall. exact H.
Qed.

Lemma zip_snd_Forall (P : Q -> Prop) (ms' : list metadata) (ds' : list Q) :
  Forall P ds' -> Forall (fun h : metadata * Q => P h.2) (zip ms' ds').
Proof.
  intros H. revert ms'. induction H as [|d ds' Hd _ IH]; intros [|m ms']; simpl;
    constructor; auto.
Qed.

Lemma rounded_distances_sorted (ms' : list metadata) (ds' : list Q) :
  StronglySorted Qle ds' ->
  StronglySorted Qle (distance <$> (recommendation <$> zip ms' ds')).
Proof.
  intros H. revert ms'. induction H as [|d ds' _ IH Hd]; intros [|m ms']; simpl;
    try constructor.
  - apply IH.
  - rewrite <- list_fmap_compose. apply Forall_fmap.
    eapply Forall_impl; [apply (zip_snd_Forall (Qle d)), Hd|].
    intros [m' d'] Hle. simpl in *. apply py_round_mono, Hle.
Qed.

(** C3. When the store answers as its contract says (at most [n_results]
    hits, at most [count()] hits, nearest first), [recommend] returns at
    most [n_results] results and at most [count()] results, in the store's
    order, non-decreasing in [distance]; on a store with zero entries it
    returns the empty list. *)
Theorem recommend_bounded_and_ordered :
  (Z.of_nat (length ds) <= n)%Z ->
  (Z.of_nat (length ds) <= count B s)%Z ->
  Sorted Qle ds ->
  exists rs,
    result (run B (recommend q n) s) = inr rs
    /\ (len rs <= n)%Z
    /\ (len rs <= count B s)%Z
    /\ rs = recommendation <$> zip ms ds
    /\ Sorted Qle (distance <$> rs)
    /\ (count B s = 0%Z -> rs = []).
Proof.
  intros Hn Hc Hs. eexists. split; [rewrite recommend_returns; reflexivity|].
  assert (Hlen : (length (recommendation <$> zip ms ds) <= length ds)%nat).
  { rewrite length_fmap, length_zip. lia. }
  unfold len. repeat split; try lia.
  - apply StronglySorted_Sorted, rounded_distances_sorted.
    apply Sorted_StronglySorted; [|exact Hs].
    intros x y z. apply Qle_trans.
  - intros H0. apply nil_length_inv. lia.
Qed.

(** C8. For every hit, the QueryResult takes [title], [year] and [genres]
    from the metadata fields [title], [year] and [genres_clean], with
    ["N/A"] when the field is missing, and [tags] from the field [tags],
    with the empty string when it is missing. *)
Theorem metadata_fallbacks :
  exists rs,
    result (run B (recommend q n) s) = inr rs
    /\ Forall2 (fun r h =>
                 field_or h.1 "title" "N/A" (title r)
                 /\ field_or h.1 "year" "N/A" (year r)
                 /\ field_or h.1 "genres_clean" "N/A" (genres r)
                 /\ field_or h.1 "tags" "" (tags r))
               rs (zip ms ds).
Proof.
  eexists. split; [rewrite recommend_returns; reflexivity|].
  apply Forall2_recommendation. intros [m d] _. unfold field_or. simpl.
  repeat split; match goal with |- context [m !! ?k] => destruct (m !! k) end;
    reflexivity.
Qed.
End Recommend.


(** C2. The code at the raw distance [1.2999999523162842], the binary32
    number nearest to 1.3 (a cosine distance lies between 0 and 2).  The
    score is [round(1 - d, 4) = -0.3], below the range 0-1 that the docstring
    of [recommend] gives for it, and the [distance] field is
    [round(d, 4) = 1.3], not the raw value that the docstring says it is. *)
Theorem score_negative_and_distance_rounded :
  exists r d,
    query (RefStore.stub_backend 1) (RefStore.one_entry RefStore.d_1_3_f32 ∅) [[0%Q]] 1
      = inr {| metadatas := [[∅]]; distances := [[d]] |}
    /\ result (run (RefStore.stub_backend 1) (recommend "" 1)
                 (RefStore.one_entry RefStore.d_1_3_f32 ∅)) = inr [r]
    /\ (d == RefStore.d_1_3_f32)%Q
    /\ (fl d == d)%Q
    /\ (0 <= d)%Q /\ (d <= 2)%Q
    /\ (score r == fl (- (3 # 10)))%Q
    /\ (score r < 0)%Q
    /\ (distance r == fl (13 # 10))%Q
    /\ ~ (distance r == d)%Q.
Proof.
  exists (recommendation (∅, RefStore.d_1_3_f32)).
  eexists. split; [vm_compute; reflexivity|].
  split; [vm_compute; reflexivity|].
  repeat split; try (vm_compute; reflexivity); vm_compute; discriminate.
Qed.

Lemma recommend_bounded_and_ordered_witness :
  exists rs,
    result (run (RefStore.stub_backend 1) (recommend "" 2) RefStore.two_entries) = inr rs
    /\ (len rs <= 2)%Z
    /\ (len rs <= count (RefStore.stub_backend 1) RefStore.two_entries)%Z
    /\ rs = recommendation <$> zip [RefStore.toy_story; ∅] [1 # 4; 3 # 4]%Q
    /\ Sorted Qle (distance <$> rs)
    /\ (count (RefStore.stub_backend 1) RefStore.two_entries = 0%Z -> rs = []).
Proof.
  apply (recommend_bounded_and_ordered (RefStore.stub_backend 1)
           RefStore.two_entries "" 2 [[0%Q]] [RefStore.toy_story; ∅]
           [1 # 4; 3 # 4]%Q [] []).
  - vm_compute. reflexivity.
  - vm_compute. reflexivity.
  - simpl. lia.
  - vm_compute. discriminate.
  - repeat constructor. unfold Qle. simpl. lia.
Defined.

Lemma metadata_fallbacks_witness :
  exists rs,
    result (run (RefStore.stub_backend 1) (recommend "" 2) RefStore.two_entries) = inr rs
    /\ Forall2 (fun r h =>
                 field_or h.1 "title" "N/A" (title r)
                 /\ field_or h.1 "year" "N/A" (year r)
                 /\ field_or h.1 "genres_clean" "N/A" (genres r)
                 /\ field_or h.1 "tags" "" (tags r))
               rs (zip [RefStore.toy_story; ∅] [1 # 4; 3 # 4]%Q).
Proof.
  apply (metadata_fallbacks (RefStore.stub_backend 1)
           RefStore.two_entries "" 2 [[0%Q]] [RefStore.toy_story; ∅]
           [1 # 4; 3 # 4]%Q [] []); vm_compute; reflexivity.
Defined.

(** The second hit of the example has no metadata: the fallbacks show. *)
Example fallbacks_on_empty_metadata :
  result (run (RefStore.stub_backend 1) (recommend "" 2) RefStore.two_entries)
  = inr [recommendation (RefStore.toy_story, 1 # 4)%Q;
         {| title := "N/A"; year := "N/A"; genres := "N/A"; tags := "";
            score := py_round (fsub 1 (3 # 4)) 4; distance := py_round (3 # 4) 4 |}].
Proof. vm_compute. reflexivity. Qed.

(** *** Batching *)

Lemma n_batch_exact (t : Z) : 0 <= t < 2 ^ 53 -> n_batch t = (t + 511) / 512.
Proof.
  intros Ht. unfold n_batch, ceil, BATCH_SIZE.
  pose proof (fdiv_pow2_exact t 9 Ht ltac:(lia)) as E.
  change (2 ^ 9) with 512 in E. rewrite E.
  unfold Qceiling.
  assert (E' : (- (inject_Z t / inject_Z 512) == inject_Z (- t) / inject_Z 512)%Q).
  { rewrite inject_Z_opp. field. }
  rewrite E', <- Zdiv_Qdiv.
  Z.div_mod_to_equations. lia.
Qed.

Lemma batch_of_nat (df : DataFrame) (k : nat) :
  batch_of df (Z.of_nat k) = take 512 (drop (512 * k) df).
Proof.
  unfold batch_of, iloc, BATCH_SIZE. f_equal; [lia|]. f_equal. lia.
Qed.

Lemma chunks_concat {X : Type} (l : list X) (c k : nat) :
  concat ((fun i => take c (drop (c * i) l)) <$> seq 0 k) = take (c * k) l.
Proof.
  induction k as [|k IH].
  - rewrite Nat.mul_0_r. reflexivity.
  - rewrite seq_S, fmap_app, concat_app, IH. simpl. rewrite app_nil_r.
    replace (c * S k)%nat with (c * k + c)%nat by lia.
    rewrite <- (take_drop (c * k) (take (c * k + c) l)).
    rewrite take_take, Nat.min_l by lia. f_equal.
    rewrite <- take_drop_commute. reflexivity.
Qed.

Lemma batches_nat (df : DataFrame) :
  batches df =
  (fun i => take 512 (drop (512 * i) df)) <$> seq 0 (Z.to_nat (n_batch (len df))).
Proof.
  unfold batches, range. rewrite <- list_fmap_compose.
  apply list_fmap_ext. intros i k _. simpl. apply batch_of_nat.
Qed.

Section Batches.
Variable df : DataFrame.
Hypothesis fits : len df < 2 ^ 53.

Lemma n_batch_len : Z.to_nat (n_batch (len df)) = ((length df + 511) / 512)%nat.
Proof.
  rewrite n_batch_exact by (unfold len in *; lia). unfold len.
  change 511 with (Z.of_nat 511). change 512 with (Z.of_nat 512).
  rewrite <- Nat2Z.inj_add, <- Nat2Z.inj_div, Nat2Z.id. reflexivity.
Qed.

Lemma batches_length : length (batches df) = ((length df + 511) / 512)%nat.
Proof. rewrite batches_nat, length_fmap, length_seq. apply n_batch_len. Qed.

Lemma batches_concat : concat (batches df) = df.
Proof.
  rewrite batches_nat, chunks_concat, n_batch_len. apply take_ge.
  pose proof (Nat.div_mod_eq (length df + 511) 512).
  pose proof (Nat.mod_upper_bound (length df + 511) 512). lia.
Qed.

Lemma batches_lookup (i : nat) (b : DataFrame) :
  batches df !! i = Some b ->
  b = take 512 (drop (512 * i) df)
  /\ (0 < length b <= 512)%nat
  /\ ((S i < length (batches df))%nat -> length b = 512%nat).
Proof.
  intros Hb. pose proof (lookup_lt_Some _ _ _ Hb) as Hi.
  rewrite batches_length in *. rewrite batches_nat in Hb.
  rewrite list_lookup_fmap in Hb.
  rewrite lookup_seq_lt in Hb by (rewrite n_batch_len; exact Hi).
  simpl in Hb. injection Hb as <-.
  rewrite length_take, length_drop.
  pose proof (Nat.div_mod_eq (length df + 511) 512).
  pose proof (Nat.mod_upper_bound (length df + 511) 512).
  split; [reflexivity|]. split; [lia|]. intros HS. lia.
Qed.
End Batches.


(** *** The indexing loop *)
Section Loop.
Variable B : Backend.
Variable df : DataFrame.

Lemma loop_completed (js : list Z) (s : store B) :
  result (run B (for_each js (index_batch df)) s) = inr tt ->
  exists vss,
    Indexed B s (batch_of df <$> js) vss
      (final (run B (for_each js (index_batch df)) s))
    /\ trace (run B (for_each js (index_batch df)) s)
       = schedule (batch_of df <$> js) vss.
Proof.
  revert s. induction js as [|i js IH]; intros s.
  - intros _. exists []. split; [constructor | reflexivity].
  - rewrite run_for_each_cons, run_index_batch. cbv zeta.
    destruct (encode B (soups_of (batch_of df i))) as [e|vs] eqn:Henc;
      [discriminate|].
    cbn [result trace final].
    destruct (upsert B s _ vs _ _).1 as [e|] eqn:Hup; [discriminate|].
    cbn [result trace final]. intros Hres.
    destruct (IH _ Hres) as (vss & Hind & Htr).
    exists (vs :: vss). split.
    + rewrite fmap_cons. econstructor; eassumption.
    + rewrite Htr. reflexivity.
Qed.

Lemma index_completed (force : bool) (s : store B) :
  count B s <= 0 \/ force = true ->
  result (run B (index df force) s) = inr tt ->
  exists vss,
    Indexed B s (batches df) vss (final (run B (index df force) s))
    /\ trace (run B (index df force) s)
       = EvCount :: schedule (batches df) vss ++ [EvCount].
Proof.
  intros Hgo. rewrite (run_index_go B df force s Hgo). cbv zeta.
  destruct (result (run B (for_each _ _) s)) as [e|[]] eqn:Hres; [discriminate|].
  intros _. destruct (loop_completed _ _ Hres) as (vss & Hind & Htr).
  exists vss. cbn [final trace]. rewrite Htr. split; [exact Hind | reflexivity].
Qed.

Lemma Indexed_populated (s s' : store B) bs vss :
  upsert_populates B ->
  Indexed B s bs vss s' ->
  bs <> [] -> Forall (fun b => b <> []) bs ->
  count B s' > 0.
Proof.
  intros Hpop Hind. induction Hind as [s|s s' b vs bs vss Henc Hup Hind IH].
  - intros Hne. contradiction.
  - intros _ Hall. apply Forall_cons in Hall as [Hb Hall].
    destruct bs as [|b' bs].
    + inversion Hind; subst. unfold after_upsert. apply Hpop; [|exact Hup].
      unfold ids_of. destruct b; [contradiction | discriminate].
    + apply IH; [discriminate | exact Hall].
Qed.
End Loop.

(** C4. With [count() > 0] and no force flag, [index] makes its one
    [count()] call and returns: no write, the store unchanged.  Hence a
    second run without force, after a run that completed, leaves count and
    stored vectors as the first run left them (given that an accepted,
    non-empty upsert populates the store). *)
Theorem index_idempotent_without_force (B : Backend) (df : DataFrame) (s : store B) :
  (count B s > 0 ->
   run B (index df false) s = {| trace := [EvCount]; result := inr tt; final := s |})
  /\ (len df < 2 ^ 53 ->
      upsert_populates B ->
      result (run B (index df false) s) = inr tt ->
      let s1 := final (run B (index df false) s) in
      let again := run B (index df false) s1 in
      result again = inr tt
      /\ final again = s1
      /\ count B (final again) = count B s1
      /\ Forall (fun e => is_write e = false) (trace again)).
Proof.
  split; [apply run_index_skip|].
  intros Hfit Hpop Hres. cbv zeta.
  destruct (Z_lt_le_dec 0 (count B s)) as [Hpos|Hzero].
  - rewrite !(run_index_skip B df s) by lia. cbn [final].
    rewrite !(run_index_skip B df s) by lia. cbn.
    repeat split. repeat constructor.
  - destruct (index_completed B df false s (or_introl Hzero) Hres) as (vss & Hind & _).
    remember (final (run B (index df false) s)) as s1 eqn:Es1. clear Es1.
    destruct (batches df) as [|b bs] eqn:Hbs.
    + assert (Hs1 : s1 = s) by (inversion Hind; congruence).
      assert (Hnb : range (n_batch (len df)) = []).
      { unfold batches in Hbs. apply fmap_nil_inv in Hbs. exact Hbs. }
      rewrite Hs1. rewrite (run_index_go B df false s (or_introl Hzero)), Hnb. cbn.
      repeat split. repeat constructor.
    + assert (Hc : count B s1 > 0).
      { eapply Indexed_populated; [exact Hpop | exact Hind | discriminate |].
        rewrite <- Hbs. apply Forall_forall. intros b' Hb'.
        apply list_elem_of_lookup in Hb' as [i Hi].
        destruct (batches_lookup df Hfit i b' Hi) as (_ & Hlen & _).
        destruct b'; [simpl in Hlen; lia | discriminate]. }
      rewrite (run_index_skip B df s1 Hc). cbn.
      repeat split. repeat constructor.
Qed.

(** C5. When [index] does not skip (and runs to its end), the batches it
    visits are the consecutive slices of 512 rows of the catalog, in order,
    the last one possibly shorter.  From each batch it extracts three lists
    as long as the batch: at position [i], for row [i] of the batch, the
    [movieId] in decimal as the id, the text of the [soup] cell (the empty
    string when the cell is missing) as the document, and a record with
    exactly the keys [title], [clean_title], [year], [genres_clean] and
    [tags], each holding the text of that cell (the empty string when
    missing).  For each batch in turn it calls [encode] on the batch's
    soups and then [upsert] with the ids, the returned vectors, the soups
    and the records; a batch is finished before the next one is begun. *)
Theorem index_batches_in_order (B : Backend) (df : DataFrame) (force : bool)
    (s : store B) :
  len df < 2 ^ 53 ->
  count B s <= 0 \/ force = true ->
  result (run B (index df force) s) = inr tt ->
  concat (batches df) = df
  /\ (forall (i : nat) (b : DataFrame),
        batches df !! i = Some b ->
        b = take 512 (drop (512 * i) df)
        /\ (0 < length b <= 512)%nat
        /\ ((S i < length (batches df))%nat -> length b = 512%nat))
  /\ (forall (b : DataFrame),
        length (ids_of b) = length b /\ length (soups_of b) = length b
        /\ length (metadatas_of b) = length b)
  /\ (forall (b : DataFrame) (i : nat) (r : Row),
        b !! i = Some r ->
        ids_of b !! i = Some (pretty (Catalog.movieId r))
        /\ soups_of b !! i = Some (default "" (Catalog.soup r))
        /\ exists m : metadata,
             metadatas_of b !! i = Some m
             /\ dom m = ({[ "title"; "clean_title"; "year"; "genres_clean"; "tags" ]}
                         : gset string)
             /\ m !! "title" = Some (default "" (Catalog.title r))
             /\ m !! "clean_title" = Some (default "" (Catalog.clean_title r))
             /\ m !! "year" = Some (default "" (Catalog.year r))
             /\ m !! "genres_clean" = Some (default "" (Catalog.genres_clean r))
             /\ m !! "tags" = Some (default "" (Catalog.tags r)))
  /\ exists vss,
       Indexed B s (batches df) vss (final (run B (index df force) s))
       /\ trace (run B (index df force) s)
          = EvCount :: schedule (batches df) vss ++ [EvCount].
Proof.
  intros Hfit Hgo Hres. split; [apply batches_concat, Hfit|].
  split; [apply batches_lookup, Hfit|].
  split; [apply CatalogFacts.batch_lengths|].
  split; [|apply index_completed; assumption].
  intros b i r Hr.
  destruct (CatalogFacts.batch_positions b i r Hr) as (Hid & Hsoup & Hmeta).
  split; [exact Hid|]. split; [exact Hsoup|].
  exists (record_of r). split; [exact Hmeta|]. apply CatalogFacts.record_of_content.
Qed.

Lemma index_batches_in_order_witness :
  let B := RefStore.stub_backend 2 in
  let df := RefStore.small_catalog in
  (concat (batches df) = df
   /\ (forall (i : nat) (b : DataFrame),
         batches df !! i = Some b ->
         b = take 512 (drop (512 * i) df)
         /\ (0 < length b <= 512)%nat
         /\ ((S i < length (batches df))%nat -> length b = 512%nat))
   /\ (forall (b : DataFrame),
         length (ids_of b) = length b /\ length (soups_of b) = length b
         /\ length (metadatas_of b) = length b)
   /\ (forall (b : DataFrame) (i : nat) (r : Row),
         b !! i = Some r ->
         ids_of b !! i = Some (pretty (Catalog.movieId r))
         /\ soups_of b !! i = Some (default "" (Catalog.soup r))
         /\ exists m : metadata,
              metadatas_of b !! i = Some m
              /\ dom m = ({[ "title"; "clean_title"; "year"; "genres_clean"; "tags" ]}
                          : gset string)
              /\ m !! "title" = Some (default "" (Catalog.title r))
              /\ m !! "clean_title" = Some (default "" (Catalog.clean_title r))
              /\ m !! "year" = Some (default "" (Catalog.year r))
              /\ m !! "genres_clean" = Some (default "" (Catalog.genres_clean r))
              /\ m !! "tags" = Some (default "" (Catalog.tags r)))
   /\ exists vss,
        Indexed B ∅ (batches df) vss (final (run B (index df false) ∅))
        /\ trace (run B (index df false) ∅)
           = EvCount :: schedule (batches df) vss ++ [EvCount])
  /\ trace (run B (index df false) ∅)
     = [EvCount;
        EvEncode ["sad robot space drama"; "funny talking dog comedy"];
        EvUpsert ["1"; "2"] [[21%Q; 21%Q]; [24%Q; 24%Q]]
          ["sad robot space drama"; "funny talking dog comedy"]
          [<["title" := "sad robot space drama"]>
             (<["clean_title" := "sad robot space drama"]>
             (<["year" := ""]> (<["genres_clean" := "Drama"]> (<["tags" := ""]> ∅))));
           <["title" := "funny talking dog comedy"]>
             (<["clean_title" := "funny talking dog comedy"]>
             (<["year" := ""]> (<["genres_clean" := "Drama"]> (<["tags" := ""]> ∅))))];
        EvCount].
Proof.
  cbv zeta. split.
  - apply (index_batches_in_order (RefStore.stub_backend 2) RefStore.small_catalog
             false (∅ : RefStore.state)).
    + vm_compute. reflexivity.
    + left. vm_compute. discriminate.
    + vm_compute. reflexivity.
  - vm_compute. reflexivity.
Defined.

Lemma index_idempotent_without_force_witness :
  run (RefStore.stub_backend 2) (index RefStore.small_catalog false) RefStore.two_entries
  = Build_Outcome (RefStore.stub_backend 2) unit [EvCount] (inr tt) RefStore.two_entries
  /\ (let s1 := final (run (RefStore.stub_backend 2)
                         (index RefStore.small_catalog false) (∅ : RefStore.state)) in
      let again := run (RefStore.stub_backend 2) (index RefStore.small_catalog false) s1 in
      result again = inr tt
      /\ final again = s1
      /\ count (RefStore.stub_backend 2) (final again)
         = count (RefStore.stub_backend 2) s1
      /\ Forall (fun e => is_write e = false) (trace again)).
Proof.
  split.
  - apply (proj1 (index_idempotent_without_force (RefStore.stub_backend 2)
                    RefStore.small_catalog RefStore.two_entries)).
    vm_compute. reflexivity.
  - apply (proj2 (index_idempotent_without_force (RefStore.stub_backend 2)
                    RefStore.small_catalog (∅ : RefStore.state))).
    + vm_compute. reflexivity.
    + apply RefStoreFacts.ref_upsert_populates.
    + vm_compute. reflexivity.
Defined.

Lemma elem_of_concat {X : Type} (x : X) (ls : list (list X)) :
  x ∈ concat ls -> exists l, x ∈ l /\ l ∈ ls.
Proof.
  induction ls as [|l ls IH]; simpl; intros H.
  - apply elem_of_nil in H. contradiction.
  - apply elem_of_app in H as [H|H].
    + exists l. split; [exact H | apply elem_of_cons; auto].
    + destruct (IH H) as (l' & Hx & Hl'). exists l'. split; [exact Hx|].
      apply elem_of_cons. auto.
Qed.

End EngineFacts.

(** ** The title helpers *)
Module PipelineFacts.
Import Pipeline.

Section RegexFacts.
Context {char : Type} `{EqDecision char}.
Variables is_space is_digit : char -> bool.
Variables lparen rparen newline : char.
Variable unknown : list char.

(** What the proofs need of the character tables: a newline is
    whitespace; an opening parenthesis is neither whitespace, nor a digit,
    nor a closing parenthesis. *)
Hypothesis newline_space : is_space newline = true.
Hypothesis lparen_not_space : is_space lparen = false.
Hypothesis lparen_not_digit : is_digit lparen = false.
Hypothesis lparen_not_rparen : lparen <> rparen.

Local Abbreviation ws_dollar := (ws_dollar is_space newline).
Local Abbreviation match_year := (match_year is_space is_digit lparen rparen newline).
Local Abbreviation search_year := (search_year is_space is_digit lparen rparen newline).
Local Abbreviation sub_year := (sub_year is_space is_digit lparen rparen newline).
Local Abbreviation strip := (strip is_space).
Local Abbreviation clean_title := (clean_title is_space is_digit lparen rparen newline).
Local Abbreviation extract_year :=
  (extract_year is_space is_digit lparen rparen newline unknown).
Local Abbreviation year_suffix := (year_suffix is_space is_digit lparen rparen).
Local Abbreviation spaces := (Forall (fun c => is_space c = true)).
Local Abbreviation digits := (Forall (fun c => is_digit c = true)).

Lemma ws_dollar_spaces (w : list char) : spaces w -> ws_dollar w = Some (length w).
Proof.
  induction 1 as [|c w Hc _ IH]; simpl; [reflexivity|]. rewrite Hc, IH. reflexivity.
Qed.

(** [\s*$] can only succeed by running to the very end of the string. *)
Lemma ws_dollar_inv (w : list char) (n : nat) :
  ws_dollar w = Some n -> n = length w /\ spaces w.
Proof.
  revert n. induction w as [|c w IH]; intros n; simpl.
  - intros [= <-]. auto.
  - destruct (is_space c) eqn:Hc.
    + destruct (ws_dollar w) as [m|] eqn:Hw.
      * intros [= <-]. destruct (IH m eq_refl) as [-> Hs]. auto.
      * destruct w as [|c' w]; [discriminate Hw|].
        destruct (bool_decide (c = newline)); discriminate.
    + destruct w as [|c' w]; [|discriminate].
      destruct (bool_decide (c = newline)) eqn:Hnl; [|discriminate].
      apply bool_decide_eq_true in Hnl. subst c. congruence.
Qed.

Lemma match_year_intro (ds w : list char) :
  length ds = 4%nat -> digits ds -> spaces w ->
  match_year (lparen :: ds ++ rparen :: w) = Some (ds, (6 + length w)%nat).
Proof.
  intros Hlen Hds Hw.
  destruct ds as [|d1 [|d2 [|d3 [|d4 [|]]]]]; try discriminate.
  repeat match goal with H : digits (_ :: _) |- _ =>
    apply Forall_cons in H as [? H] end.
  simpl. rewrite !bool_decide_eq_true_2 by reflexivity.
  repeat match goal with H : is_digit _ = true |- _ => rewrite H; clear H end.
  simpl. rewrite (ws_dollar_spaces w Hw). reflexivity.
Qed.

Lemma match_year_inv (s g : list char) (n : nat) :
  match_year s = Some (g, n) ->
  exists w, s = lparen :: g ++ rparen :: w /\ length g = 4%nat
            /\ digits g /\ spaces w /\ n = length s.
Proof.
  destruct s as [|l [|d1 [|d2 [|d3 [|d4 [|r rest]]]]]]; try discriminate.
  unfold Pipeline.match_year.
  destruct (bool_decide (l = lparen)) eqn:Hl; [|discriminate].
  destruct (is_digit d1) eqn:H1; [|discriminate].
  destruct (is_digit d2) eqn:H2; [|discriminate].
  destruct (is_digit d3) eqn:H3; [|discriminate].
  destruct (is_digit d4) eqn:H4; [|discriminate].
  destruct (bool_decide (r = rparen)) eqn:Hr; [|discriminate].
  simpl. destruct (ws_dollar rest) as [m|] eqn:Hw; [|discriminate].
  intros [= <- <-]. apply bool_decide_eq_true in Hl, Hr. subst l r.
  destruct (ws_dollar_inv rest m Hw) as [-> Hs].
  exists rest. simpl. repeat split; auto.
Qed.

(** A match covers the rest of the string, and no character after its
    first one is an opening parenthesis. *)
Lemma match_year_no_lparen (c : char) (s g : list char) (n : nat) :
  match_year (c :: s) = Some (g, n) -> lparen ∉ s.
Proof.
  intros Hm. destruct (match_year_inv _ _ _ Hm) as (w & E & _ & Hg & Hw & _).
  injection E as -> ->. intros Hin.
  apply elem_of_app in Hin as [Hin|Hin].
  - rewrite Forall_forall in Hg. specialize (Hg _ Hin). congruence.
  - apply elem_of_cons in Hin as [Hin|Hin]; [contradiction|].
    rewrite Forall_forall in Hw. specialize (Hw _ Hin). congruence.
Qed.

Lemma match_year_before_suffix (c : char) (p rest : list char) :
  match_year (c :: p ++ lparen :: rest) = None.
Proof.
  destruct (match_year (c :: p ++ lparen :: rest)) as [[g n]|] eqn:Hm; [|reflexivity].
  exfalso. apply (match_year_no_lparen _ _ _ _ Hm).
  apply elem_of_app. right. apply elem_of_cons. auto.
Qed.

Lemma sub_year_skip_all (s : list char) : sub_year (length s) s = [].
Proof. induction s as [|c s IH]; simpl; [reflexivity | exact IH]. Qed.

Lemma search_year_unfold (s : list char) :
  search_year s =
  match match_year s with
  | Some (g, _) => Some g
  | None => match s with [] => None | _ :: s' => search_year s' end
  end.
Proof. destruct s; reflexivity. Qed.

Lemma sub_year_unfold (c : char) (s : list char) :
  sub_year 0 (c :: s) =
  match match_year (c :: s) with
  | Some (_, n) => sub_year (pred n) s
  | None => c :: sub_year 0 s
  end.
Proof. reflexivity. Qed.

Lemma search_year_complete (title p ds w : list char) :
  year_suffix title p ds w -> search_year title = Some ds.
Proof.
  intros (-> & Hlen & Hds & Hw). induction p as [|c p IH].
  - rewrite search_year_unfold. simpl app.
    rewrite match_year_intro by assumption. reflexivity.
  - rewrite search_year_unfold. simpl app.
    rewrite match_year_before_suffix. exact IH.
Qed.

Lemma sub_year_complete (title p ds w : list char) :
  year_suffix title p ds w -> sub_year 0 title = p.
Proof.
  intros (-> & Hlen & Hds & Hw). induction p as [|c p IH].
  - simpl app. rewrite sub_year_unfold, match_year_intro by assumption.
    replace (pred (6 + length w)) with (length (ds ++ rparen :: w))
      by (rewrite length_app; simpl; lia).
    apply sub_year_skip_all.
  - simpl app. rewrite sub_year_unfold, match_year_before_suffix, IH. reflexivity.
Qed.

Lemma search_year_sound (title g : list char) :
  search_year title = Some g -> exists p w, year_suffix title p g w.
Proof.
  induction title as [|c t IH]; rewrite search_year_unfold.
  - simpl. discriminate.
  - destruct (match_year (c :: t)) as [[g' n]|] eqn:Hm.
    + intros [= ->]. destruct (match_year_inv _ _ _ Hm) as (w & E & Hlen & Hg & Hw & _).
      exists [], w. repeat split; assumption.
    + intros Hs. destruct (IH Hs) as (p & w & E & Hrest).
      exists (c :: p), w. split; [rewrite E; reflexivity | exact Hrest].
Qed.

Lemma sub_year_no_match (title : list char) :
  search_year title = None -> sub_year 0 title = title.
Proof.
  induction title as [|c t IH]; [reflexivity|].
  rewrite search_year_unfold, sub_year_unfold.
  destruct (match_year (c :: t)) as [[g n]|]; [discriminate|].
  intros Hs. rewrite (IH Hs). reflexivity.
Qed.

(** C10. [clean_title] and [extract_year] agree on every title.  When the
    title ends with a parenthesized run of four digits, optionally followed
    by whitespace, [extract_year] returns those four digits and
    [clean_title] returns what precedes the parenthesis, stripped;
    otherwise [extract_year] returns ["Unknown"] and [clean_title] returns
    the title, stripped. *)
Theorem clean_title_and_extract_year_agree (title : list char) :
  (forall p ds w, year_suffix title p ds w ->
     extract_year title = ds /\ clean_title title = strip p)
  /\ ((~ exists p ds w, year_suffix title p ds w) ->
      extract_year title = unknown /\ clean_title title = strip title).
Proof.
  split.
  - intros p ds w Hsuf. unfold Pipeline.extract_year, Pipeline.clean_title.
    rewrite (search_year_complete _ _ _ _ Hsuf), (sub_year_complete _ _ _ _ Hsuf).
    auto.
  - intros Hno. unfold Pipeline.extract_year, Pipeline.clean_title.
    destruct (search_year title) as [g|] eqn:Hs.
    + exfalso. apply Hno. destruct (search_year_sound _ _ Hs) as (p & w & Hsuf).
      exists p, g, w. exact Hsuf.
    + rewrite (sub_year_no_match _ Hs). auto.
Qed.
End RegexFacts.

Lemma clean_title_and_extract_year_agree_witness :
  (extract_year_str "Toy Story (1995) " = "1995"
   /\ clean_title_str "Toy Story (1995) " = "Toy Story")
  /\ (extract_year_str " Up " = "Unknown" /\ clean_title_str " Up " = "Up").
Proof.
  pose proof (fun t => clean_title_and_extract_year_agree ascii_space ascii_digit
                "("%char ")"%char "010"%char (chars "Unknown")
                eq_refl eq_refl eq_refl ltac:(discriminate) t) as H.
  split.
  - destruct (proj1 (H (chars "Toy Story (1995) ")) (chars "Toy Story ") (chars "1995")
                (chars " ")) as [Hy Hc].
    { unfold year_suffix. split; [reflexivity|]. split; [reflexivity|].
      split; repeat constructor. }
    unfold extract_year_str, clean_title_str. rewrite Hy, Hc. split; reflexivity.
  - destruct (proj2 (H (chars " Up "))) as [Hy Hc].
    { intros (p & ds & w & E & Hlen & _).
      apply (f_equal length) in E. rewrite length_app in E. cbn in E.
      rewrite length_app in E. cbn in E. lia. }
    unfold extract_year_str, clean_title_str. rewrite Hy, Hc. split; reflexivity.
Defined.
End PipelineFacts.

(** ** More on [engine.py]: failures, re-indexing, round trips *)
Module EngineMore.
Import Float64 Float64Facts Engine EngineFacts.
Local Open Scope Z_scope.

Section Ranking.
Local Open Scope Q_scope.
Variable B : Backend.
Variable s : store B.
Variables (q : string) (n : Z).
Variables (v : list vector) (ms : list metadata) (ds : list Q).
Variables (rm : list (list metadata)) (rd : list (list Q)).
Hypothesis embedded : encode B [q] = inr v.
Hypothesis answered :
  query B s v n = inr {| metadatas := ms :: rm; distances := ds :: rd |}.

Lemma score_antitone (d d' : Q) :
  d <= d' -> py_round (fsub 1 d') 4 <= py_round (fsub 1 d) 4.
Proof. intros H. apply py_round_mono, fsub_mono_r, H. Qed.

Lemma scores_sorted (ms' : list metadata) (ds' : list Q) :
  StronglySorted Qle ds' ->
  StronglySorted (fun a b => b <= a) (score <$> (recommendation <$> zip ms' ds')).
Proof.
  intros H. revert ms'. induction H as [|d ds' _ IH Hd]; intros [|m ms']; simpl;
    try constructor.
  - apply IH.
  - rewrite <- list_fmap_compose. apply Forall_fmap.
    eapply Forall_impl; [apply (zip_snd_Forall (Qle d)), Hd|].
    intros [m' d'] Hle. simpl in *. apply score_antitone, Hle.
Qed.

(** X1. The ranking by score agrees with the store's ranking by distance:
    when the store returns its hits nearest first, the scores of the results
    never increase down the list. *)
Theorem scores_never_increase :
  Sorted Qle ds ->
  exists rs,
    result (run B (recommend q n) s) = inr rs
    /\ Sorted (fun a b => b <= a) (score <$> rs).
Proof.
  intros Hs. eexists.
  split; [rewrite (recommend_returns B s q n v ms ds rm rd embedded answered);
          reflexivity|].
  apply StronglySorted_Sorted, scores_sorted.
  apply Sorted_StronglySorted; [|exact Hs]. intros x y z. apply Qle_trans.
Qed.

(** X2. [zip] stops at the shorter list: when the store's reply carries
    metadata and distance rows of different lengths, [recommend] returns as
    many results as the shorter row has, without raising. *)
Theorem recommend_truncates_to_shorter_row :
  exists rs,
    result (run B (recommend q n) s) = inr rs
    /\ length rs = Nat.min (length ms) (length ds).
Proof.
  eexists.
  split; [rewrite (recommend_returns B s q n v ms ds rm rd embedded answered);
          reflexivity|].
  rewrite length_fmap, length_zip. reflexivity.
Qed.
End Ranking.

Lemma scores_never_increase_witness :
  exists rs,
    result (run (RefStore.stub_backend 1) (recommend "" 2) RefStore.two_entries) = inr rs
    /\ Sorted (fun a b => b <= a)%Q (score <$> rs).
Proof.
  apply (scores_never_increase (RefStore.stub_backend 1) RefStore.two_entries "" 2
           [[0%Q]] [RefStore.toy_story; ∅] [1 # 4; 3 # 4]%Q [] []).
  - vm_compute. reflexivity.
  - vm_compute. reflexivity.
  - repeat constructor. unfold Qle. simpl. lia.
Defined.

Lemma recommend_truncates_to_shorter_row_witness :
  exists rs,
    result (run (Doubles.canned
                   (inr {| metadatas := [[RefStore.toy_story; ∅; ∅]];
                           distances := [[1 # 4; 3 # 4]%Q] |}))
              (recommend "robot" 3) tt) = inr rs
    /\ length rs = Nat.min 3 2.
Proof.
  apply (recommend_truncates_to_shorter_row
           (Doubles.canned (inr {| metadatas := [[RefStore.toy_story; ∅; ∅]];
                                   distances := [[1 # 4; 3 # 4]%Q] |}))
           tt "robot" 3 [[]] [RefStore.toy_story; ∅; ∅] [1 # 4; 3 # 4]%Q [] []);
    reflexivity.
Defined.

(** X3. Failures of the collaborators reach the caller unchanged, and
    [recommend] stops at the first one: when the Embedder raises, the store
    is never queried; when the store raises, that exception is the result;
    when the reply has no row for the query (an empty outer list), the
    result is [IndexError].  In every case the store is left as it was. *)
Theorem recommend_failures (B : Backend) (s : store B) (q : string) (n : Z) :
  (forall e, encode B [q] = inl e ->
     run B (recommend q n) s
     = {| trace := [EvEncode [q]]; result := inl e; final := s |})
  /\ (forall v e, encode B [q] = inr v -> query B s v n = inl e ->
        run B (recommend q n) s
        = {| trace := [EvEncode [q]; EvQuery v n]; result := inl e; final := s |})
  /\ (forall v r, encode B [q] = inr v -> query B s v n = inr r ->
        metadatas r = [] \/ distances r = [] ->
        run B (recommend q n) s
        = {| trace := [EvEncode [q]; EvQuery v n]; result := inl IndexError;
             final := s |}).
Proof.
  split; [|split].
  - intros e He. rewrite run_recommend, He. reflexivity.
  - intros v e Hv He. rewrite run_recommend, Hv, He. reflexivity.
  - intros v r Hv Hr Hempty. rewrite run_recommend, Hv, Hr.
    destruct Hempty as [-> | Hd]; [reflexivity|].
    rewrite Hd. destruct (metadatas r); reflexivity.
Qed.

Lemma recommend_failures_witness :
  run Doubles.broken_backend (recommend "robot" 3) (∅ : RefStore.state)
  = Build_Outcome Doubles.broken_backend _ [EvEncode ["robot"]]
      (inl EncodingFailure) ∅
  /\ run (Doubles.canned (inl StoreUnavailable)) (recommend "robot" 3) tt
     = Build_Outcome (Doubles.canned (inl StoreUnavailable)) _
         [EvEncode ["robot"]; EvQuery [[]] 3] (inl StoreUnavailable) tt
  /\ run (Doubles.canned (inr {| metadatas := []; distances := [] |}))
       (recommend "robot" 3) tt
     = Build_Outcome (Doubles.canned (inr {| metadatas := []; distances := [] |})) _
         [EvEncode ["robot"]; EvQuery [[]] 3] (inl IndexError) tt.
Proof.
  split; [|split].
  - apply (proj1 (recommend_failures Doubles.broken_backend
                    (∅ : RefStore.state) "robot" 3)). reflexivity.
  - apply (proj1 (proj2 (recommend_failures (Doubles.canned (inl StoreUnavailable))
                           tt "robot" 3))); reflexivity.
  - apply (proj2 (proj2 (recommend_failures
                           (Doubles.canned (inr {| metadatas := []; distances := [] |}))
                           tt "robot" 3)) [[]] {| metadatas := []; distances := [] |});
      auto.
Defined.

(** *** When indexing fails half way *)
Section Failure.
Variable B : Backend.
Variable df : DataFrame.

(** The loop, stopped by batch [i] after the batches before it went
    through. *)
Lemma loop_stops (js : list Z) (k : nat) (i : Z) (s sk : store B) vss :
  js !! k = Some i ->
  Indexed B s (batch_of df <$> take k js) vss sk ->
  (forall e, encode B (soups_of (batch_of df i)) = inl e ->
     run B (for_each js (index_batch df)) s
     = {| trace := schedule (batch_of df <$> take k js) vss
                   ++ [EvEncode (soups_of (batch_of df i))];
          result := inl e; final := sk |})
  /\ (forall vs e,
        encode B (soups_of (batch_of df i)) = inr vs ->
        (upsert B sk (ids_of (batch_of df i)) vs (soups_of (batch_of df i))
           (metadatas_of (batch_of df i))).1 = Some e ->
        run B (for_each js (index_batch df)) s
        = {| trace := schedule (batch_of df <$> take k js) vss
                      ++ batch_events (batch_of df i) vs;
             result := inl e;
             final := after_upsert B sk (batch_of df i) vs |}).
Proof.
  revert k s vss. induction js as [|j js IH]; intros k s vss Hk Hind; [discriminate|].
  destruct k as [|k].
  - injection Hk as ->. simpl in Hind. inversion Hind; subst.
    rewrite run_for_each_cons, run_index_batch. cbv zeta. split.
    + intros e He. rewrite He. reflexivity.
    + intros vs e He Hup. rewrite He. cbn [result trace final].
      unfold after_upsert. rewrite Hup. reflexivity.
  - simpl in Hk. simpl in Hind.
    inversion Hind as [|s0 s1 b vs0 bs vss' Henc Hup Hrest]; subst.
    destruct (IH k _ _ Hk Hrest) as [IHe IHu].
    rewrite run_for_each_cons, run_index_batch. cbv zeta. rewrite Henc.
    cbn [result trace final]. rewrite Hup. cbn [result trace final].
    split.
    + intros e He. rewrite (IHe e He). reflexivity.
    + intros vs e He Hu. rewrite (IHu vs e He Hu). reflexivity.
Qed.

(** X4. Partial progress.  In a run of [index] that does not skip, if the
    batches before batch [k] were encoded and upserted and the Embedder
    raises on batch [k], or the store raises on its upsert, [index] raises
    that exception at once: the calls made are the first [count()], the
    calls of the batches before [k], and the failing call (with the [encode]
    before it, when it is the upsert); no later batch is encoded or
    upserted, the closing [count()] call is not made, and the store is the
    one the earlier batches (and the failing upsert itself) left. *)
Theorem index_stops_at_first_failure (force : bool) (s sk : store B) (k : nat)
    (b : DataFrame) vss :
  count B s <= 0 \/ force = true ->
  batches df !! k = Some b ->
  Indexed B s (take k (batches df)) vss sk ->
  (forall e, encode B (soups_of b) = inl e ->
     run B (index df force) s
     = {| trace := EvCount :: schedule (take k (batches df)) vss
                   ++ [EvEncode (soups_of b)];
          result := inl e; final := sk |})
  /\ (forall vs e,
        encode B (soups_of b) = inr vs ->
        (upsert B sk (ids_of b) vs (soups_of b) (metadatas_of b)).1 = Some e ->
        run B (index df force) s
        = {| trace := EvCount :: schedule (take k (batches df)) vss
                      ++ batch_events b vs;
             result := inl e;
             final := after_upsert B sk b vs |}).
Proof.
  intros Hgo Hk Hind. unfold batches in Hk, Hind.
  rewrite list_lookup_fmap in Hk.
  destruct (range (n_batch (len df)) !! k) as [i|] eqn:Hi; [|discriminate].
  injection Hk as <-. rewrite <- fmap_take in Hind.
  destruct (loop_stops _ _ _ _ _ _ Hi Hind) as [He Hu].
  unfold batches. rewrite <- fmap_take.
  split.
  - intros e Henc. rewrite (run_index_go B df force s Hgo). cbv zeta.
    rewrite (He e Henc). reflexivity.
  - intros vs e Henc Hup. rewrite (run_index_go B df force s Hgo). cbv zeta.
    rewrite (Hu vs e Henc Hup). reflexivity.
Qed.

(** X5. An empty catalog: [index] makes its two [count()] calls and nothing
    else, with or without force. *)
Theorem index_of_empty_catalog (force : bool) (s : store B) :
  count B s <= 0 \/ force = true ->
  run B (index [] force) s
  = {| trace := [EvCount; EvCount]; result := inr tt; final := s |}.
Proof.
  intros Hgo. rewrite (run_index_go B [] force s Hgo).
  assert (E : range (n_batch (len (@nil Row))) = []) by (vm_compute; reflexivity).
  rewrite E. reflexivity.
Qed.
End Failure.

Lemma index_stops_at_first_failure_witness :
  run Doubles.broken_backend (index RefStore.small_catalog false) (∅ : RefStore.state)
  = Build_Outcome Doubles.broken_backend unit
      [EvCount; EvEncode ["sad robot space drama"; "funny talking dog comedy"]]
      (inl EncodingFailure) (∅ : RefStore.state)
  /\ run Doubles.picky_backend (index RefStore.small_catalog false) (∅ : RefStore.state)
     = Build_Outcome Doubles.picky_backend unit
         [EvCount; EvEncode ["sad robot space drama"; "funny talking dog comedy"];
          EvUpsert ["1"; "2"] [[21%Q]]
            ["sad robot space drama"; "funny talking dog comedy"]
            (metadatas_of RefStore.small_catalog)]
         (inl ValidationError) (∅ : RefStore.state).
Proof.
  split.
  - apply (proj1 (index_stops_at_first_failure Doubles.broken_backend
                    RefStore.small_catalog false (∅ : RefStore.state) ∅ 0
                    RefStore.small_catalog []
                    ltac:(left; vm_compute; discriminate) eq_refl
                    (Indexed_nil Doubles.broken_backend ∅))).
    reflexivity.
  - apply (proj2 (index_stops_at_first_failure Doubles.picky_backend
                    RefStore.small_catalog false (∅ : RefStore.state) ∅ 0
                    RefStore.small_catalog []
                    ltac:(left; vm_compute; discriminate) eq_refl
                    (Indexed_nil Doubles.picky_backend ∅))
             [[21%Q]] ValidationError).
    + reflexivity.
    + reflexivity.
Defined.

Lemma index_of_empty_catalog_witness :
  run (RefStore.stub_backend 2) (index [] true) RefStore.two_entries
  = Build_Outcome (RefStore.stub_backend 2) _ [EvCount; EvCount] (inr tt)
      RefStore.two_entries.
Proof.
  apply (index_of_empty_catalog (RefStore.stub_backend 2) true RefStore.two_entries).
  right. reflexivity.
Defined.

(** *** A completed loop, read the other way *)
Section Replay.
Variable B : Backend.
Variable df : DataFrame.

Lemma loop_runs (js : list Z) (s s' : store B) vss :
  Indexed B s (batch_of df <$> js) vss s' ->
  run B (for_each js (index_batch df)) s
  = {| trace := schedule (batch_of df <$> js) vss; result := inr tt; final := s' |}.
Proof.
  revert s vss. induction js as [|i js IH]; intros s vss Hind.
  - inversion Hind; subst. reflexivity.
  - rewrite fmap_cons in Hind. inversion Hind as [|s0 s1 b vs bs vss' Henc Hup Hrest];
      subst.
    rewrite run_for_each_cons, run_index_batch. cbv zeta. rewrite Henc.
    cbn [result trace final]. rewrite Hup. cbn [result trace final].
    rewrite (IH _ _ Hrest). reflexivity.
Qed.

Lemma index_runs (force : bool) (s s' : store B) vss :
  count B s <= 0 \/ force = true ->
  Indexed B s (batches df) vss s' ->
  run B (index df force) s
  = {| trace := EvCount :: schedule (batches df) vss ++ [EvCount];
       result := inr tt; final := s' |}.
Proof.
  intros Hgo Hind. rewrite (run_index_go B df force s Hgo). cbv zeta.
  unfold batches in Hind. rewrite (loop_runs _ _ _ _ Hind). reflexivity.
Qed.

Lemma batch_of_subseteq (i : Z) (r : Row) : r ∈ batch_of df i -> r ∈ df.
Proof.
  unfold batch_of, iloc. intros H.
  apply subseteq_take in H. apply (subseteq_drop _ _ _ H).
Qed.

Lemma batches_subseteq (b : DataFrame) (r : Row) :
  b ∈ batches df -> r ∈ b -> r ∈ df.
Proof.
  unfold batches. intros Hb Hr.
  apply list_elem_of_fmap in Hb as (i & -> & _). eapply batch_of_subseteq, Hr.
Qed.
End Replay.
End EngineMore.

(** ** Indexing into the reference store *)
Module RefStoreMoreFacts.
Import Float64 Engine EngineFacts RefStore RefStoreMore RefStoreFacts EngineMore.
Local Open Scope Z_scope.

Lemma foldl_put_union (kvs : list (string * IndexEntry)) (s : state) :
  foldl put s kvs = list_to_map (reverse kvs) ∪ s.
Proof.
  revert s. induction kvs as [|[k e] kvs IH]; intros s; simpl.
  - rewrite (left_id_L ∅ (∪)). reflexivity.
  - rewrite IH, reverse_cons, list_to_map_app. simpl. unfold put. simpl.
    rewrite insert_empty, insert_union_singleton_l, (assoc_L (∪)). reflexivity.
Qed.

Lemma foldl_put_twice (kvs : list (string * IndexEntry)) (s : state) :
  foldl put (foldl put s kvs) kvs = foldl put s kvs.
Proof.
  rewrite !foldl_put_union, (assoc_L (∪)), (idemp_L (∪)). reflexivity.
Qed.

Lemma foldl_put_dom (kvs : list (string * IndexEntry)) (s : state) :
  dom (foldl put s kvs) = dom s ∪ list_to_set kvs.*1.
Proof.
  revert s. induction kvs as [|[k e] kvs IH]; intros s; simpl.
  - rewrite (right_id_L ∅ (∪)). reflexivity.
  - rewrite IH. unfold put. simpl. rewrite dom_insert_L.
    rewrite (comm_L (∪) {[k]} (dom s)), (assoc_L (∪)). reflexivity.
Qed.

Lemma entries_metadata (vs : list vector) (docs : list string) (ms : list metadata)
    (e : IndexEntry) :
  e ∈ entries vs docs ms -> entry_metadata e ∈ ms.
Proof.
  revert docs ms. induction vs as [|v vs IH]; intros [|d docs] [|m ms] H;
    simpl in H; try (apply elem_of_nil in H; contradiction).
  apply elem_of_cons in H as [-> | H]; [apply elem_of_cons; auto|].
  apply elem_of_cons. right. eapply IH, H.
Qed.

Lemma insert_hit_elem (h x : metadata * Q) (l : list (metadata * Q)) :
  x ∈ insert_hit h l -> x = h \/ x ∈ l.
Proof.
  induction l as [|h' l IH]; simpl.
  - intros H. apply list_elem_of_singleton in H. auto.
  - destruct (Qle_bool h.2 h'.2).
    + intros H. apply elem_of_cons in H as [H|H]; auto.
    + intros H. apply elem_of_cons in H as [H|H].
      * right. apply elem_of_cons. auto.
      * destruct (IH H) as [E|E]; [auto|]. right. apply elem_of_cons. auto.
Qed.

Lemma nearest_first_elem (x : metadata * Q) (l : list (metadata * Q)) :
  x ∈ nearest_first l -> x ∈ l.
Proof.
  induction l as [|h l IH]; simpl; [auto|].
  intros H. apply insert_hit_elem in H as [-> | H]; apply elem_of_cons; auto.
Qed.

Section Written.
Variable embed : list string -> exn + list vector.
Variable metric : vector -> vector -> Q.
Local Abbreviation B := (backend embed metric).

Lemma ref_indexed_written (s s' : state) bs vss :
  Indexed B s bs vss s' ->
  s' = foldl put s (written bs vss)
  /\ Forall2 (fun b vs => length vs = length b) bs vss.
Proof.
  intros Hind. induction Hind as [s|s s' b vs bs vss Henc Hup Hind [IH1 IH2]].
  - split; [reflexivity | constructor].
  - destruct (ref_upsert_accepted embed metric s _ _ _ _ Hup) as [Hlen Hs1].
    apply same_lengths_spec in Hlen as (Hv & _).
    unfold ids_of in Hv. rewrite length_fmap in Hv.
    split; [|constructor; assumption].
    unfold written. simpl. rewrite foldl_app. fold (written bs vss).
    rewrite IH1. unfold after_upsert. rewrite Hs1. reflexivity.
Qed.

Lemma ref_indexed_anywhere (s s' s2 : state) bs vss :
  Indexed B s bs vss s' -> Indexed B s2 bs vss (foldl put s2 (written bs vss)).
Proof.
  intros Hind. revert s2.
  induction Hind as [s|s s' b vs bs vss Henc Hup Hind IH]; intros s2.
  - constructor.
  - destruct (ref_upsert_accepted embed metric s _ _ _ _ Hup) as [Hlen _].
    assert (Hup2 : upsert B s2 (ids_of b) vs (soups_of b) (metadatas_of b)
                   = (None, foldl put s2 (zip (ids_of b)
                                            (entries vs (soups_of b) (metadatas_of b))))).
    { simpl. unfold ref_upsert. rewrite Hlen. reflexivity. }
    econstructor; [exact Henc | rewrite Hup2; reflexivity |].
    unfold after_upsert. rewrite Hup2. simpl.
    unfold written. simpl. rewrite foldl_app. apply IH.
Qed.

Lemma written_keys bs vss :
  Forall2 (fun (b : DataFrame) (vs : list vector) => length vs = length b) bs vss ->
  (written bs vss).*1 = ids_of (concat bs).
Proof.
  induction 1 as [|b vs bs vss Hlen _ IH]; [reflexivity|].
  unfold written. simpl. rewrite fmap_app. fold (written bs vss). rewrite IH.
  unfold ids_of at 3. rewrite fmap_app. f_equal.
  apply fst_zip. rewrite entries_length; unfold ids_of, soups_of, metadatas_of;
    rewrite ?length_fmap; lia.
Qed.

Lemma written_from_rows bs vss (k : string) (e : IndexEntry) :
  (k, e) ∈ written bs vss ->
  exists b r, b ∈ bs /\ r ∈ b /\ entry_metadata e = record_of r.
Proof.
  unfold written. intros H. apply elem_of_concat in H as (l & Hl & Hin).
  apply elem_of_zip_with in Hin as (b & vs & -> & Hb & _).
  apply elem_of_zip_r in Hl. apply entries_metadata in Hl.
  unfold metadatas_of in Hl. apply list_elem_of_fmap in Hl as (r & Hr & Hrb).
  exists b, r. auto.
Qed.

(** X6. Forcing twice is forcing once: on the reference store, a forced
    re-index that completed, run again on the store it left, makes the same
    calls, completes, and leaves that store unchanged: same ids, vectors,
    documents and metadata. *)
Theorem forced_reindex_twice (df : DataFrame) (s : state) :
  result (run B (index df true) s) = inr tt ->
  let once := run B (index df true) s in
  run B (index df true) (final once)
  = {| trace := trace once; result := inr tt; final := final once |}.
Proof.
  intros Hres. cbv zeta.
  destruct (index_completed B df true s (or_intror eq_refl) Hres) as (vss & Hind & Htr).
  destruct (ref_indexed_written _ _ _ _ Hind) as [Hs1 _].
  pose proof (ref_indexed_anywhere _ _ (final (run B (index df true) s)) _ _ Hind) as H2.
  rewrite (index_runs B df true _ _ vss (or_intror eq_refl) H2).
  rewrite Htr. f_equal. rewrite Hs1 at 1. rewrite foldl_put_twice. symmetry. exact Hs1.
Qed.

(** X7. After an indexing run that completed (and did not skip), the ids
    held by the reference store are the ids it held before together with
    the catalog's [movieId]s as strings; so indexing a catalog with distinct
    [movieId]s into an empty store leaves [count()] equal to the number of
    catalog rows. *)
Theorem indexed_ids (df : DataFrame) (force : bool) (s : state) :
  len df < 2 ^ 53 ->
  count B s <= 0 \/ force = true ->
  result (run B (index df force) s) = inr tt ->
  dom (final (run B (index df force) s)) = dom s ∪ list_to_set (ids_of df)
  /\ (s = ∅ -> NoDup (Catalog.movieId <$> df) ->
      count B (final (run B (index df force) s)) = len df).
Proof.
  intros Hfit Hgo Hres.
  destruct (index_completed B df force s Hgo Hres) as (vss & Hind & _).
  destruct (ref_indexed_written _ _ _ _ Hind) as [Hs1 Hlen].
  assert (Hdom : dom (final (run B (index df force) s)) = dom s ∪ list_to_set (ids_of df)).
  { rewrite Hs1, foldl_put_dom, (written_keys _ _ Hlen), (batches_concat df Hfit).
    reflexivity. }
  split; [exact Hdom|].
  intros -> Hnd.
  set (m := final (run B (index df force) ∅) : gmap string IndexEntry) in *.
  change (Z.of_nat (size m) = Z.of_nat (length df)). f_equal.
  assert (Hdom' : dom m = list_to_set (ids_of df)).
  { etrans; [exact Hdom|]. rewrite dom_empty_L. apply (left_id_L ∅ (∪)). }
  rewrite <- (size_dom (D := gset string) m), Hdom'.
  rewrite size_list_to_set.
  - unfold ids_of. apply length_fmap.
  - unfold ids_of.
    replace ((fun r => pretty (Catalog.movieId r)) <$> df)
      with (pretty <$> (Catalog.movieId <$> df))
      by (rewrite <- list_fmap_compose; reflexivity).
    apply (NoDup_fmap_2 pretty). exact Hnd.
Qed.

Lemma record_of_fields (r : Row) (d : Q) :
  title (recommendation (record_of r, d)) = fillna (Catalog.title r)
  /\ year (recommendation (record_of r, d)) = fillna (Catalog.year r)
  /\ genres (recommendation (record_of r, d)) = fillna (Catalog.genres_clean r)
  /\ tags (recommendation (record_of r, d)) = fillna (Catalog.tags r).
Proof. unfold recommendation, record_of. simpl. repeat split; by simplify_map_eq. Qed.

(** X8. Metadata round trip.  What [index] writes under the keys [title],
    [year], [genres_clean] and [tags] is what [recommend] reads back: a
    result built from a row's record carries that row's fields (the empty
    string for a missing cell).  So after indexing a catalog into an empty
    reference store, every result of every [recommend] carries the fields of
    some catalog row, and the ["N/A"] fallback is never used. *)
Theorem indexed_metadata_round_trip (df : DataFrame) (q : string) (n : Z)
    (rs : list QueryResult) :
  (forall r d,
     title (recommendation (record_of r, d)) = fillna (Catalog.title r)
     /\ year (recommendation (record_of r, d)) = fillna (Catalog.year r)
     /\ genres (recommendation (record_of r, d)) = fillna (Catalog.genres_clean r)
     /\ tags (recommendation (record_of r, d)) = fillna (Catalog.tags r))
  /\ (result (run B (index df false) ∅) = inr tt ->
      result (run B (recommend q n) (final (run B (index df false) ∅))) = inr rs ->
      forall res, res ∈ rs ->
        exists r, r ∈ df
          /\ title res = fillna (Catalog.title r)
          /\ year res = fillna (Catalog.year r)
          /\ genres res = fillna (Catalog.genres_clean r)
          /\ tags res = fillna (Catalog.tags r)).
Proof.
  split; [apply record_of_fields|].
  intros Hres.
  assert (Hgo : count B ∅ <= 0 \/ false = true) by (left; vm_compute; discriminate).
  destruct (index_completed B df false ∅ Hgo Hres) as (vss & Hind & _).
  destruct (ref_indexed_written _ _ _ _ Hind) as [Hs1 _].
  assert (Hs1' : (final (run B (index df false) ∅) : state)
                 = foldl put ∅ (written (batches df) vss)) by exact Hs1.
  clear Hind Hs1. revert Hs1'.
  generalize (final (run B (index df false) ∅) : state). intros s1 Hs1 Hrec res Hin.
  rewrite run_recommend in Hrec. simpl encode in Hrec.
  destruct (embed [q]) as [e|v]; [discriminate|]. cbn [result] in Hrec.
  simpl query in Hrec. unfold ref_query in Hrec. cbn [metadatas distances] in Hrec.
  destruct v as [|q0 v]; [discriminate|]. simpl in Hrec. injection Hrec as <-.
  rewrite zip_fst_snd in Hin.
  apply list_elem_of_fmap in Hin as (h & -> & Hh).
  unfold hits in Hh. apply subseteq_take in Hh. apply nearest_first_elem in Hh.
  apply list_elem_of_fmap in Hh as ([k e] & -> & Hkv). cbn [fst snd].
  apply elem_of_map_to_list in Hkv. rewrite Hs1, foldl_put_union in Hkv.
  rewrite (right_id_L ∅ (∪)) in Hkv. apply elem_of_list_to_map_2 in Hkv.
  rewrite elem_of_reverse in Hkv.
  destruct (written_from_rows _ _ _ _ Hkv) as (b & r & Hb & Hr & Hmeta).
  exists r. split; [eapply batches_subseteq; eassumption|].
  rewrite Hmeta. apply record_of_fields.
Qed.
End Written.

Lemma forced_reindex_twice_witness :
  let B := stub_backend 2 in
  let once := run B (index small_catalog true) two_entries in
  run B (index small_catalog true) (final once)
  = Build_Outcome B unit (trace once) (inr tt) (final once).
Proof.
  apply (forced_reindex_twice (stub_embed 2) l1_distance small_catalog two_entries).
  vm_compute. reflexivity.
Defined.

Lemma indexed_ids_witness :
  let B := stub_backend 2 in
  let after := final (run B (index small_catalog false) (∅ : state)) in
  dom after = dom (∅ : state) ∪ list_to_set (ids_of small_catalog)
  /\ count B after = len small_catalog.
Proof.
  destruct (indexed_ids (stub_embed 2) l1_distance small_catalog false ∅)
    as [Hdom Hcount].
  - vm_compute. reflexivity.
  - left. vm_compute. discriminate.
  - vm_compute. reflexivity.
  - split; [exact Hdom|]. apply Hcount; [reflexivity|].
    apply (bool_decide_unpack _). vm_compute. reflexivity.
Defined.

Lemma indexed_metadata_round_trip_witness :
  let B := stub_backend 2 in
  exists rs,
    result (run B (recommend "robot" 5)
              (final (run B (index small_catalog false) (∅ : state)))) = inr rs
    /\ length rs = 2%nat
    /\ forall res, res ∈ rs ->
         exists r, r ∈ small_catalog
           /\ title res = fillna (Catalog.title r)
           /\ year res = fillna (Catalog.year r)
           /\ genres res = fillna (Catalog.genres_clean r)
           /\ tags res = fillna (Catalog.tags r).
Proof.
  cbv zeta.
  destruct (result (run (stub_backend 2) (recommend "robot" 5)
                      (final (run (stub_backend 2) (index small_catalog false)
                                (∅ : state))))) as [e|rs] eqn:Hrs;
    [vm_compute in Hrs; discriminate|].
  exists rs. split; [reflexivity|]. split.
  - vm_compute in Hrs. injection Hrs as <-. reflexivity.
  - apply (proj2 (indexed_metadata_round_trip (stub_embed 2) l1_distance
                    small_catalog "robot" 5 rs)); [vm_compute; reflexivity | exact Hrs].
Defined.
End RefStoreMoreFacts.

(* ===================================================================== *)
(** * Swapping the Embedder *)
Module ReindexFacts.
Import Float64 Engine EngineFacts RefStore RefStoreMore RefStoreFacts EngineMore
  RefStoreMoreFacts.
Local Open Scope Z_scope.

Lemma foldl_put_covered (kvs : list (string * IndexEntry)) (s : state) :
  dom s ⊆ list_to_set kvs.*1 -> foldl put s kvs = foldl put ∅ kvs.
Proof.
  intros Hsub. rewrite !foldl_put_union, (right_id_L ∅ (∪)).
  apply map_eq. intros k.
  destruct (list_to_map (reverse kvs) !! k) as [e|] eqn:Hk.
  - apply lookup_union_Some_l. exact Hk.
  - apply lookup_union_None. split; [exact Hk|].
    apply not_elem_of_dom. intros Hin. apply Hsub in Hin.
    apply not_elem_of_list_to_map in Hk. apply Hk.
    rewrite fmap_reverse, elem_of_reverse. apply elem_of_list_to_set in Hin. exact Hin.
Qed.

Section Swap.
Variable embed : list string -> exn + list vector.
Variable metric : vector -> vector -> Q.
Local Abbreviation R := (backend embed metric).

(** A forced re-index of a store whose ids all belong to the catalog ends in
    the store that a first index of the empty store ends in. *)
Lemma forced_is_fresh (df : DataFrame) (s0 : state) :
  len df < 2 ^ 53 ->
  dom s0 ⊆ list_to_set (ids_of df) ->
  result (run R (index df true) s0) = inr tt ->
  result (run R (index df false) (∅ : state)) = inr tt
  /\ final (run R (index df true) s0) = final (run R (index df false) (∅ : state)).
Proof.
  intros Hfit Hsub Hres.
  destruct (index_completed R df true s0 (or_intror eq_refl) Hres) as (vss & Hind & _).
  destruct (ref_indexed_written embed metric _ _ _ _ Hind) as [Hs1 Hlen].
  pose proof (ref_indexed_anywhere embed metric _ _ (∅ : state) _ _ Hind) as Hfresh.
  assert (Hgo : count R (∅ : state) <= 0 \/ false = true)
    by (left; vm_compute; discriminate).
  assert (Hrun : run R (index df false) (∅ : state)
                 = Build_Outcome R unit
                     (EvCount :: schedule (batches df) vss ++ [EvCount]) (inr tt)
                     (foldl put ∅ (written (batches df) vss)))
    by exact (index_runs R df false _ _ vss Hgo Hfresh).
  rewrite Hrun. cbn [result final].
  split; [reflexivity|].
  rewrite Hs1. apply foldl_put_covered.
  rewrite (written_keys _ _ Hlen), (batches_concat df Hfit). exact Hsub.
Qed.
End Swap.

(** C6 (amended). [stats()] reports [vector_dim] as the constant 384 that
    goes with the configured model name: it reads neither the stored vectors
    nor the Embedder, so it is the same on an empty store, after a swap of
    the Embedder and after any re-index.  A forced re-index that runs to its
    end encodes every batch of the catalog with the current Embedder and
    upserts the result; on the reference store, when the ids stored before
    all belong to the catalog, the store it leaves is the one a first index
    with the current Embedder leaves, so that every [recommend] returns what
    it returns there, and (for distinct ids) each catalog entry holds the
    current Embedder's vector.  A non-forced re-index of a populated store
    changes neither the store, nor [stats()], nor any [recommend]. *)
Theorem stats_dim_constant_and_forced_reindex
    (B : Backend) (s : store B) (df : DataFrame)
    (embed : list string -> exn + list vector) (metric : vector -> vector -> Q)
    (s0 : state) :
  (run B stats s
   = {| trace := [EvCount];
        result := inr {| collection := COLLECTION_NAME; total_movies := count B s;
                         model := MODEL_NAME; vector_dim := 384 |};
        final := s |})
  /\ (len df < 2 ^ 53 ->
      result (run B (index df true) s) = inr tt ->
      concat (batches df) = df
      /\ exists vss,
           Indexed B s (batches df) vss (final (run B (index df true) s))
           /\ trace (run B (index df true) s)
              = EvCount :: schedule (batches df) vss ++ [EvCount])
  /\ (len df < 2 ^ 53 ->
      dom s0 ⊆ list_to_set (ids_of df) ->
      result (run (backend embed metric) (index df true) s0) = inr tt ->
      result (run (backend embed metric) (index df false) (∅ : state)) = inr tt
      /\ final (run (backend embed metric) (index df true) s0)
         = final (run (backend embed metric) (index df false) (∅ : state))
      /\ (forall q n,
            run (backend embed metric) (recommend q n)
              (final (run (backend embed metric) (index df true) s0))
            = run (backend embed metric) (recommend q n)
                (final (run (backend embed metric) (index df false) (∅ : state))))
      /\ (NoDup (Catalog.movieId <$> df) ->
          forall r, r ∈ df ->
            exists b vs i x,
              b ∈ batches df /\ b !! i = Some r
              /\ embed (soups_of b) = inr vs /\ vs !! i = Some x
              /\ final (run (backend embed metric) (index df true) s0)
                   !! pretty (Catalog.movieId r)
                 = Some {| entry_vector := x;
                           entry_document := default "" (Catalog.soup r);
                           entry_metadata := record_of r |}))
  /\ (count B s > 0 ->
      run B (index df false) s = {| trace := [EvCount]; result := inr tt; final := s |}
      /\ run B stats (final (run B (index df false) s)) = run B stats s
      /\ forall q n,
           run B (recommend q n) (final (run B (index df false) s))
           = run B (recommend q n) s).
Proof.
  split; [apply run_stats|]. split; [|split].
  - intros Hfit Hres. split; [apply batches_concat, Hfit|].
    apply index_completed; [right; reflexivity | exact Hres].
  - intros Hfit Hsub Hres.
    destruct (forced_is_fresh embed metric df s0 Hfit Hsub Hres) as [Hfresh Heq].
    split; [exact Hfresh|]. split; [exact Heq|]. split.
    { intros q n. rewrite Heq. reflexivity. }
    intros Hnd r Hr.
    destruct (index_completed (backend embed metric) df true s0
                (or_intror eq_refl) Hres) as (vss & Hind & _).
    rewrite <- (batches_concat df Hfit) in Hr at 1.
    apply elem_of_concat in Hr as (b & Hrb & Hb).
    apply list_elem_of_lookup in Hrb as [i Hi].
    pose proof Hb as Hb'. apply list_elem_of_lookup in Hb' as [k Hk].
    destruct (ref_indexed_lookup embed metric _ _ _ _ Hind) with
      (k := k) (b := b) (i := i) (r := r) as (vs & x & Henc & Hx & Hlook);
      [|exact Hk|exact Hi|].
    { rewrite (batches_concat df Hfit). unfold ids_of.
      replace ((fun r => pretty (Catalog.movieId r)) <$> df)
        with (pretty <$> (Catalog.movieId <$> df))
        by (rewrite <- list_fmap_compose; reflexivity).
      apply (NoDup_fmap_2 pretty). exact Hnd. }
    exists b, vs, i, x. auto.
  - intros Hc. rewrite (run_index_skip B df s Hc). cbn [final]. auto.
Qed.

Lemma stats_dim_constant_and_forced_reindex_witness :
  let old := stub_backend 2 in
  let new := backend (shifted_embed 2 100) l1_distance in
  let df := small_catalog in
  let s1 : state := final (run old (index df false) (∅ : state)) in
  (exists st, result (run new stats s1) = inr st /\ vector_dim st = 384)
  /\ (exists vss,
        Indexed new s1 (batches df) vss (final (run new (index df true) s1))
        /\ trace (run new (index df true) s1)
           = EvCount :: schedule (batches df) vss ++ [EvCount])
  /\ final (run new (index df true) s1) = final (run new (index df false) (∅ : state))
  /\ (forall q n,
        run new (recommend q n) (final (run new (index df true) s1))
        = run new (recommend q n) (final (run new (index df false) (∅ : state))))
  /\ (forall r, r ∈ df ->
        exists b vs i x,
          b ∈ batches df /\ b !! i = Some r
          /\ shifted_embed 2 100 (soups_of b) = inr vs /\ vs !! i = Some x
          /\ final (run new (index df true) s1) !! pretty (Catalog.movieId r)
             = Some {| entry_vector := x;
                       entry_document := default "" (Catalog.soup r);
                       entry_metadata := record_of r |})
  /\ final (run old (index df false) s1) = s1
  /\ result (run new (recommend "robot" 1) s1)
     = inr [recommendation (record_of (movie 2 "funny talking dog comedy"), 162 # 1)%Q]
  /\ result (run new (recommend "robot" 1) (final (run new (index df true) s1)))
     = inr [recommendation (record_of (movie 1 "sad robot space drama"), 32 # 1)%Q].
Proof.
  intros old new df s1.
  destruct (stats_dim_constant_and_forced_reindex new s1 df (shifted_embed 2 100)
              l1_distance s1) as (Hstats & Hforce & Hswap & _).
  destruct (stats_dim_constant_and_forced_reindex old s1 df (shifted_embed 2 100)
              l1_distance s1) as (_ & _ & _ & Hskip).
  assert (Hfit : len df < 2 ^ 53) by (vm_compute; reflexivity).
  assert (Hres : result (run new (index df true) s1) = inr tt)
    by (vm_compute; reflexivity).
  assert (Hsub : dom s1 ⊆ list_to_set (ids_of df))
    by (apply (bool_decide_unpack _); vm_compute; reflexivity).
  destruct (Hswap Hfit Hsub Hres) as (_ & Heq & Hrec & Hvec).
  split; [rewrite Hstats; eexists; split; reflexivity|].
  split; [apply Hforce; assumption|].
  split; [exact Heq|]. split; [exact Hrec|]. split.
  - apply Hvec. apply (bool_decide_unpack _). vm_compute. reflexivity.
  - split; [|split; vm_compute; reflexivity].
    destruct Hskip as (-> & _); [vm_compute; reflexivity | reflexivity].
Defined.

(** C6 fails as stated.  The store is first indexed with a stub Embedder of
    dimension 2; the Embedder is then swapped for another of dimension 2
    whose vectors differ, and the catalog re-indexed with force.  The stored
    vectors are recomputed, each with two coordinates, yet [stats()] reports
    [vector_dim = 384] after the re-index as before it, and on the empty
    store too: it does not reflect the Embedder. *)
Lemma vector_dim_ignores_the_embedder :
  let old := stub_backend 2 in
  let new := backend (shifted_embed 2 100) l1_distance in
  let df := small_catalog in
  let s1 : state := final (run old (index df false) (∅ : state)) in
  let o := run new (index df true) s1 in
  encode old ["ab"] = inr [[2; 2]%Q]
  /\ encode new ["ab"] = inr [[102; 102]%Q]
  /\ (fun kv => (kv.1, entry_vector kv.2)) <$> map_to_list s1
     = [("1", [21; 21]); ("2", [24; 24])]%Q
  /\ result o = inr tt
  /\ (fun kv => (kv.1, entry_vector kv.2)) <$> map_to_list (final o)
     = [("1", [121; 121]); ("2", [124; 124])]%Q
  /\ (exists st, result (run old stats s1) = inr st /\ vector_dim st = 384)
  /\ (exists st, result (run new stats (final o)) = inr st
                  /\ vector_dim st = 384 /\ vector_dim st <> 2)
  /\ (exists st, result (run new stats (∅ : state)) = inr st
                  /\ vector_dim st = 384 /\ vector_dim st <> 2).
Proof.
  cbv zeta. repeat split; try (vm_compute; reflexivity).
  - eexists. split; [rewrite run_stats; reflexivity | reflexivity].
  - eexists. split; [rewrite run_stats; reflexivity|]. split; [reflexivity|discriminate].
  - eexists. split; [rewrite run_stats; reflexivity|]. split; [reflexivity|discriminate].
Qed.
End ReindexFacts.

(** ** The rest of [pipeline.py] *)
Module PipelineRestFacts.
Import Pipeline PipelineFacts PipelineRest.
Local Open Scope Z_scope.

Section StripFacts.
Context {char : Type} `{EqDecision char}.
Variable is_space : char -> bool.
Local Abbreviation lstrip := (lstrip is_space).
Local Abbreviation rstrip := (rstrip is_space).
Local Abbreviation strip := (strip is_space).
Local Abbreviation stripped := (stripped is_space).
Local Abbreviation spaces := (Forall (fun c => is_space c = true)).

Lemma lstrip_head (s : list char) (c : char) :
  head (lstrip s) = Some c -> is_space c = false.
Proof.
  induction s as [|a s IH]; simpl; [discriminate|].
  destruct (is_space a) eqn:Ha; [exact IH|]. simpl. intros [= <-]. exact Ha.
Qed.

Lemma lstrip_suffix (s : list char) : exists w, s = w ++ lstrip s /\ spaces w.
Proof.
  induction s as [|a s (w & IH & Hw)]; simpl.
  - exists []. auto.
  - destruct (is_space a) eqn:Ha.
    + exists (a :: w). split; [simpl; congruence | constructor; assumption].
    + exists []. auto.
Qed.

Lemma lstrip_id (s : list char) :
  (forall c, head s = Some c -> is_space c = false) -> lstrip s = s.
Proof.
  destruct s as [|a s]; simpl; [reflexivity|]. intros H. rewrite (H a eq_refl).
  reflexivity.
Qed.

Lemma last_rev (s : list char) : last (rev s) = head s.
Proof. destruct s as [|a s]; simpl; [reflexivity|]. apply last_snoc. Qed.

Lemma head_rev (s : list char) : head (rev s) = last s.
Proof. rewrite <- (rev_involutive s) at 2. symmetry. apply last_rev. Qed.

Lemma rstrip_last (s : list char) (c : char) :
  last (rstrip s) = Some c -> is_space c = false.
Proof. unfold Pipeline.rstrip. rewrite last_rev. apply lstrip_head. Qed.

Lemma rstrip_prefix (s : list char) : exists w, s = rstrip s ++ w /\ spaces w.
Proof.
  destruct (lstrip_suffix (rev s)) as (w & E & Hw).
  exists (rev w). split.
  - unfold Pipeline.rstrip. rewrite <- rev_app_distr, <- E. symmetry. apply rev_involutive.
  - apply Forall_forall. intros c Hc. rewrite Forall_forall in Hw. apply Hw.
    apply list_elem_of_In. apply list_elem_of_In in Hc. apply in_rev. exact Hc.
Qed.

Lemma rstrip_id (s : list char) :
  (forall c, last s = Some c -> is_space c = false) -> rstrip s = s.
Proof.
  intros H. unfold Pipeline.rstrip. rewrite lstrip_id; [apply rev_involutive|].
  intros c. rewrite head_rev. apply H.
Qed.

Lemma strip_stripped (s : list char) : stripped (strip s).
Proof.
  unfold Pipeline.strip. split; [apply lstrip_head|].
  intros c Hc. destruct (lstrip_suffix (rstrip s)) as (w & E & _).
  apply (rstrip_last s). rewrite E.
  destruct (lstrip (rstrip s)) as [|a l] eqn:El; [discriminate Hc|].
  rewrite last_app, Hc. reflexivity.
Qed.

Lemma strip_id (s : list char) : stripped s -> strip s = s.
Proof.
  intros [Hh Hl]. unfold Pipeline.strip. rewrite (rstrip_id s Hl). apply lstrip_id, Hh.
Qed.

Lemma strip_infix (s : list char) :
  exists a b, s = a ++ strip s ++ b /\ spaces a /\ spaces b.
Proof.
  destruct (rstrip_prefix s) as (b & Eb & Hb).
  destruct (lstrip_suffix (rstrip s)) as (a & Ea & Ha).
  exists a, b. unfold Pipeline.strip. rewrite (assoc_L (++)), <- Ea. auto.
Qed.
End StripFacts.

Section TitleFacts.
Context {char : Type} `{EqDecision char}.
Variables is_space is_digit : char -> bool.
Variables lparen rparen newline : char.
Variable unknown : list char.
Hypothesis newline_space : is_space newline = true.

Local Abbreviation match_year := (match_year is_space is_digit lparen rparen newline).
Local Abbreviation search_year := (search_year is_space is_digit lparen rparen newline).
Local Abbreviation sub_year := (sub_year is_space is_digit lparen rparen newline).
Local Abbreviation clean_title := (clean_title is_space is_digit lparen rparen newline).
Local Abbreviation extract_year :=
  (extract_year is_space is_digit lparen rparen newline unknown).

Local Abbreviation ws_dollar := (ws_dollar is_space newline).

(** The facts about a match that need nothing of the parentheses. *)
Lemma ws_dollar_end (w : list char) (n : nat) :
  ws_dollar w = Some n -> n = length w.
Proof.
  revert n. induction w as [|c w IH]; intros n; simpl.
  - intros [= <-]. reflexivity.
  - destruct (is_space c) eqn:Hc.
    + destruct (ws_dollar w) as [m|] eqn:Hw.
      * intros [= <-]. rewrite (IH m eq_refl). reflexivity.
      * destruct w as [|c' w]; [discriminate Hw|].
        destruct (bool_decide (c = newline)); discriminate.
    + destruct w as [|c' w]; [|discriminate].
      destruct (bool_decide (c = newline)) eqn:Hnl; [|discriminate].
      apply bool_decide_eq_true in Hnl. rewrite Hnl in Hc.
      rewrite newline_space in Hc. discriminate.
Qed.

Lemma match_year_shape (s g : list char) (n : nat) :
  match_year s = Some (g, n) ->
  n = length s /\ length g = 4%nat /\ Forall (fun c => is_digit c = true) g.
Proof.
  destruct s as [|l [|d1 [|d2 [|d3 [|d4 [|r rest]]]]]]; try discriminate.
  unfold Pipeline.match_year.
  destruct (bool_decide (l = lparen)); [|discriminate].
  destruct (is_digit d1) eqn:H1; [|discriminate].
  destruct (is_digit d2) eqn:H2; [|discriminate].
  destruct (is_digit d3) eqn:H3; [|discriminate].
  destruct (is_digit d4) eqn:H4; [|discriminate].
  destruct (bool_decide (r = rparen)); [|discriminate].
  simpl. destruct (ws_dollar rest) as [m|] eqn:Hw; [|discriminate].
  intros [= <- <-]. rewrite (ws_dollar_end rest m Hw).
  split; [reflexivity|]. split; [reflexivity|]. repeat constructor; assumption.
Qed.

Lemma search_year_shape (t g : list char) :
  search_year t = Some g ->
  length g = 4%nat /\ Forall (fun c => is_digit c = true) g.
Proof.
  induction t as [|c t IH]; rewrite search_year_unfold.
  - simpl. discriminate.
  - destruct (match_year (c :: t)) as [[g' n]|] eqn:Hm.
    + intros [= ->]. apply (match_year_shape _ _ _ Hm).
    + exact IH.
Qed.

Lemma sub_year_prefix (t : list char) : exists rest, t = sub_year 0 t ++ rest.
Proof.
  induction t as [|c t (rest & IH)]; [exists []; reflexivity|].
  rewrite sub_year_unfold.
  destruct (match_year (c :: t)) as [[g n]|] eqn:Hm.
  - destruct (match_year_shape _ _ _ Hm) as (-> & _).
    simpl. rewrite sub_year_skip_all. exists (c :: t). reflexivity.
  - exists rest. simpl. congruence.
Qed.

(** X9. [clean_title] returns a piece of the title: the title is some
    whitespace-or-other prefix, then the result, then a suffix; the result
    has no whitespace at either end, and is never longer than the title. *)
Theorem clean_title_is_trimmed_piece (t : list char) :
  stripped is_space (clean_title t)
  /\ (exists a b, t = a ++ clean_title t ++ b)
  /\ (length (clean_title t) <= length t)%nat.
Proof.
  unfold Pipeline.clean_title.
  destruct (sub_year_prefix t) as (rest & Ht).
  destruct (strip_infix is_space (sub_year 0 t)) as (a & b & Es & _ & _).
  assert (Hpiece : t = a ++ strip is_space (sub_year 0 t) ++ (b ++ rest)).
  { rewrite Ht at 1. rewrite Es at 1. rewrite <- !(assoc_L (++)). reflexivity. }
  split; [apply strip_stripped|]. split; [exists a, (b ++ rest); exact Hpiece|].
  apply (f_equal length) in Hpiece. rewrite !length_app in Hpiece. lia.
Qed.

(** X10. [extract_year] returns either ["Unknown"] or exactly four
    characters, all of them digits. *)
Theorem extract_year_unknown_or_four_digits (t : list char) :
  extract_year t = unknown
  \/ (length (extract_year t) = 4%nat
      /\ Forall (fun c => is_digit c = true) (extract_year t)).
Proof.
  unfold Pipeline.extract_year.
  destruct (search_year t) as [g|] eqn:Hs; [|left; reflexivity].
  right. apply (search_year_shape _ _ Hs).
Qed.
End TitleFacts.

Lemma clean_title_is_trimmed_piece_witness :
  let t := chars " Toy Story (1995) " in
  let c := clean_title ascii_space ascii_digit "("%char ")"%char "010"%char t in
  stripped ascii_space c /\ (exists a b, t = a ++ c ++ b)
  /\ (length c <= length t)%nat.
Proof.
  apply (clean_title_is_trimmed_piece ascii_space ascii_digit "("%char ")"%char
           "010"%char eq_refl).
Defined.

Lemma extract_year_unknown_or_four_digits_witness :
  let y := extract_year ascii_space ascii_digit "("%char ")"%char "010"%char
             (chars "Unknown") (chars "Toy Story (1995)") in
  y = chars "Unknown"
  \/ (length y = 4%nat /\ Forall (fun c => ascii_digit c = true) y).
Proof.
  apply (extract_year_unknown_or_four_digits ascii_space ascii_digit "("%char
           ")"%char "010"%char (chars "Unknown") eq_refl).
Defined.

Section GenreFacts.
Context {char : Type} `{EqDecision char}.
Variable is_space : char -> bool.
Variables space pipe : char.
Variable no_genres_listed : list char.

Local Abbreviation format_genres := (format_genres space pipe no_genres_listed).
Local Abbreviation split := (split is_space).
Local Abbreviation genre_name := (genre_name is_space pipe).

Lemma replace_char_no_old (old new : char) (s : list char) :
  new <> old -> old ∉ replace_char old new s.
Proof.
  intros Hne Hin. unfold replace_char in Hin.
  apply list_elem_of_fmap in Hin as (c & Hc & _).
  destruct (decide (c = old)); congruence.
Qed.

(** X11. [format_genres] never returns a ["|"]: a missing cell and the
    literal ["(no genres listed)"] give the empty string, and on any other
    string each ["|"] is replaced in place by a space, so the length is
    kept. *)
Theorem format_genres_has_no_pipe (genres : option (list char)) :
  space <> pipe ->
  (pipe ∉ format_genres genres)
  /\ (genres = None \/ genres = Some no_genres_listed -> format_genres genres = [])
  /\ (forall g, genres = Some g -> g <> no_genres_listed ->
        length (format_genres genres) = length g).
Proof.
  intros Hne. split; [|split].
  - destruct genres as [g|]; simpl; [|apply not_elem_of_nil].
    destruct (decide (g = no_genres_listed)); [apply not_elem_of_nil|].
    apply replace_char_no_old, Hne.
  - intros [-> | ->]; simpl; [reflexivity|].
    destruct (decide (no_genres_listed = no_genres_listed)); [reflexivity|contradiction].
  - intros g -> Hg. simpl. destruct (decide (g = no_genres_listed)); [contradiction|].
    apply length_fmap.
Qed.

Hypothesis space_is_space : is_space space = true.
Hypothesis pipe_not_space : is_space pipe = false.
Hypothesis literal_has_space : Exists (fun c => is_space c = true) no_genres_listed.

Lemma split_word_app (w r : list char) :
  w <> [] -> Forall (fun c => is_space c = false) w ->
  (r = [] \/ exists c r', r = c :: r' /\ is_space c = true) ->
  split (w ++ r) = w :: split r.
Proof.
  intros Hne Hw Hr. induction w as [|c w IH]; [contradiction|].
  apply Forall_cons in Hw as [Hc Hw].
  destruct w as [|c2 w].
  - simpl. rewrite Hc. destruct Hr as [-> | (c' & r' & -> & Hc')]; [reflexivity|].
    rewrite Hc'. reflexivity.
  - change ((c :: c2 :: w) ++ r) with (c :: (c2 :: w) ++ r).
    pose proof Hw as Hw'. apply Forall_cons in Hw' as [Hc2 _].
    assert (IH' := IH ltac:(discriminate) Hw).
    change (split (c :: (c2 :: w) ++ r)) with
      (if is_space c then split ((c2 :: w) ++ r)
       else if is_space c2 then [c] :: split ((c2 :: w) ++ r)
            else match split ((c2 :: w) ++ r) with
                 | x :: ws => (c :: x) :: ws
                 | [] => [[c]]
                 end).
    rewrite Hc, Hc2, IH'. reflexivity.
Qed.

Lemma split_join (gs : list (list char)) :
  Forall (fun g => g <> [] /\ Forall (fun c => is_space c = false) g) gs ->
  split (join [space] gs) = gs.
Proof.
  induction 1 as [|g gs [Hne Hg] Hgs IH]; [reflexivity|].
  destruct gs as [|g2 gs].
  - simpl. rewrite <- (app_nil_r g) at 1. rewrite split_word_app; auto.
  - change (join [space] (g :: g2 :: gs)) with (g ++ space :: join [space] (g2 :: gs)).
    rewrite split_word_app; [|assumption|assumption|right; eauto].
    f_equal. simpl PipelineRest.split. simpl in IH. rewrite space_is_space. exact IH.
Qed.

Lemma replace_join (gs : list (list char)) :
  Forall (Forall (fun c => c <> pipe)) gs ->
  replace_char pipe space (join [pipe] gs) = join [space] gs.
Proof.
  assert (Hid : forall g, Forall (fun c => c <> pipe) g -> replace_char pipe space g = g).
  { intros g Hg. unfold replace_char. induction Hg as [|c g Hc _ IH]; [reflexivity|].
    rewrite fmap_cons, IH. destruct (decide (c = pipe)); [contradiction|reflexivity]. }
  induction 1 as [|g gs Hg Hgs IH]; [reflexivity|].
  destruct gs as [|g2 gs]; [apply Hid, Hg|].
  change (join [pipe] (g :: g2 :: gs)) with (g ++ pipe :: join [pipe] (g2 :: gs)).
  change (join [space] (g :: g2 :: gs)) with (g ++ space :: join [space] (g2 :: gs)).
  unfold replace_char in *. rewrite fmap_app, fmap_cons, IH.
  rewrite (Hid g Hg). destruct (decide (pipe = pipe)); [reflexivity|contradiction].
Qed.

Lemma join_pipe_no_space (gs : list (list char)) :
  Forall (Forall (fun c => is_space c = false)) gs ->
  Forall (fun c => is_space c = false) (join [pipe] gs).
Proof.
  induction 1 as [|g gs Hg Hgs IH]; [constructor|].
  destruct gs as [|g2 gs]; [exact Hg|].
  change (join [pipe] (g :: g2 :: gs)) with (g ++ pipe :: join [pipe] (g2 :: gs)).
  apply Forall_app. split; [exact Hg|]. constructor; assumption.
Qed.

(** X12. Genres survive the trip to the card.  For genre names that are
    non-empty and contain neither whitespace nor ["|"], formatting the
    ["|"]-joined genres and splitting the result on whitespace (as
    [movie_card] does before drawing one pill per item) gives the genre
    names back, in order. *)
Theorem genres_round_trip (gs : list (list char)) :
  Forall genre_name gs ->
  split (format_genres (Some (join [pipe] gs))) = gs.
Proof.
  intros Hgs.
  assert (Hns : Forall (Forall (fun c => is_space c = false)) gs).
  { eapply Forall_impl; [exact Hgs|]. intros g [_ Hg].
    eapply Forall_impl; [exact Hg|]. intros c [Hc _]. exact Hc. }
  assert (Hnp : Forall (Forall (fun c => c <> pipe)) gs).
  { eapply Forall_impl; [exact Hgs|]. intros g [_ Hg].
    eapply Forall_impl; [exact Hg|]. intros c [_ Hc]. exact Hc. }
  simpl. destruct (decide (join [pipe] gs = no_genres_listed)) as [E|_].
  - exfalso. apply Exists_exists in literal_has_space as (c & Hc & Hsp).
    rewrite <- E in Hc. pose proof (join_pipe_no_space gs Hns) as Hall.
    rewrite Forall_forall in Hall. specialize (Hall c Hc). congruence.
  - rewrite (replace_join gs Hnp). apply split_join.
    eapply Forall_impl; [exact Hgs|]. intros g [Hne Hg]. split; [exact Hne|].
    eapply Forall_impl; [exact Hg|]. intros c [Hc _]. exact Hc.
Qed.
End GenreFacts.

Lemma format_genres_has_no_pipe_witness :
  let f := format_genres " "%char "|"%char (chars "(no genres listed)") in
  ("|"%char ∉ f (Some (chars "Action|Crime")))
  /\ f (Some (chars "(no genres listed)")) = []
  /\ length (f (Some (chars "Action|Crime"))) = 12%nat.
Proof.
  cbv zeta.
  destruct (format_genres_has_no_pipe " "%char "|"%char (chars "(no genres listed)")
              (Some (chars "Action|Crime")) ltac:(discriminate)) as (H1 & _ & H3).
  destruct (format_genres_has_no_pipe " "%char "|"%char (chars "(no genres listed)")
              (Some (chars "(no genres listed)")) ltac:(discriminate)) as (_ & H2 & _).
  split; [exact H1|]. split; [apply H2; right; reflexivity|].
  apply (H3 (chars "Action|Crime")); [reflexivity | discriminate].
Defined.

Lemma genres_round_trip_witness :
  split ascii_space
    (format_genres " "%char "|"%char (chars "(no genres listed)")
       (Some (join ["|"%char] [chars "Action"; chars "Sci-Fi"])))
  = [chars "Action"; chars "Sci-Fi"].
Proof.
  apply (genres_round_trip ascii_space " "%char "|"%char (chars "(no genres listed)")
           eq_refl eq_refl).
  - apply Exists_exists. exists " "%char. split; [|reflexivity].
    apply list_elem_of_In. vm_compute. tauto.
  - repeat constructor; discriminate.
Defined.

Section SoupFacts.
Context {char : Type} `{EqDecision char}.
Variable is_space : char -> bool.
Variable space : char.
Local Abbreviation build_soup := (build_soup is_space space).
Local Abbreviation stripped := (stripped is_space).

Lemma join_head (sep p : list char) (ps : list (list char)) :
  p <> [] -> head (join sep (p :: ps)) = head p.
Proof. destruct p; [contradiction|]. destruct ps; reflexivity. Qed.

Lemma join_nonempty (sep p : list char) (ps : list (list char)) :
  p <> [] -> join sep (p :: ps) <> [].
Proof. destruct p; [contradiction|]. destruct ps; discriminate. Qed.

Lemma join_last (sep : list char) (ps : list (list char)) (c : char) :
  Forall (fun p => p <> [] /\ forall c, last p = Some c -> is_space c = false) ps ->
  last (join sep ps) = Some c -> is_space c = false.
Proof.
  intros Hps. induction Hps as [|p ps [Hne Hp] Hrest IH]; [discriminate|].
  destruct ps as [|p2 ps]; [apply Hp|].
  change (join sep (p :: p2 :: ps)) with (p ++ sep ++ join sep (p2 :: ps)).
  apply Forall_cons in Hrest as [[Hne2 _] _].
  pose proof (join_nonempty sep p2 ps Hne2) as HJ.
  destruct (last (join sep (p2 :: ps))) as [y|] eqn:El.
  - rewrite !last_app, El. intros [= <-]. apply IH. reflexivity.
  - apply last_None in El. contradiction.
Qed.

Lemma join_stripped (ps : list (list char)) :
  Forall (fun p => p <> [] /\ stripped p) ps -> stripped (join [space] ps).
Proof.
  intros Hps. split.
  - destruct ps as [|p0 ps]; [discriminate|].
    apply Forall_cons in Hps as [[Hne0 [Hh0 _]] _].
    rewrite join_head by exact Hne0. exact Hh0.
  - intros c. apply join_last.
    eapply Forall_impl; [exact Hps|]. intros p [Hne [_ Hl]]. auto.
Qed.

(** X13. The soup has no whitespace at either end; empty parts are left
    out, so that no doubled or dangling separator appears: when the clean
    title, the genres and the tags are each empty or free of whitespace at
    their ends, the soup is exactly the non-empty ones joined by single
    spaces, and it is empty when all three are. *)
Theorem build_soup_joins_nonempty_parts (row : SoupRow char) :
  let parts := [row_clean_title row; row_genres_clean row;
                default [] (row_tags row)] in
  stripped (build_soup row)
  /\ (Forall stripped parts ->
      build_soup row = join [space] (filter (fun p => p <> []) parts))
  /\ (Forall (fun p => p = []) parts -> build_soup row = []).
Proof.
  cbv zeta. unfold PipelineRest.build_soup. split; [apply strip_stripped|]. split.
  - intros Hparts. apply strip_id, join_stripped.
    apply Forall_forall. intros p Hp. apply list_elem_of_filter in Hp as [Hne Hin].
    split; [exact Hne|]. rewrite Forall_forall in Hparts. apply Hparts, Hin.
  - intros Hall.
    apply Forall_cons in Hall as [-> Hall]. apply Forall_cons in Hall as [-> Hall].
    apply Forall_cons in Hall as [-> _]. reflexivity.
Qed.
End SoupFacts.

Lemma build_soup_joins_nonempty_parts_witness :
  let row := {| row_clean_title := chars "Heat"; row_genres_clean := [];
                row_tags := Some (chars "crime heist") |} in
  stripped ascii_space (build_soup ascii_space " "%char row)
  /\ build_soup ascii_space " "%char row = chars "Heat crime heist"
  /\ build_soup ascii_space " "%char
       {| row_clean_title := []; row_genres_clean := []; row_tags := None |} = [].
Proof.
  cbv zeta.
  destruct (build_soup_joins_nonempty_parts ascii_space " "%char
              {| row_clean_title := chars "Heat"; row_genres_clean := [];
                 row_tags := Some (chars "crime heist") |}) as (H1 & H2 & _).
  destruct (build_soup_joins_nonempty_parts ascii_space " "%char
              {| row_clean_title := @nil Ascii.ascii; row_genres_clean := [];
                 row_tags := None |}) as (_ & _ & H3).
  split; [exact H1|]. split.
  - rewrite H2; [reflexivity|].
    repeat constructor; simpl; intros c Hc; try discriminate;
      injection Hc as <-; reflexivity.
  - apply H3. repeat constructor.
Defined.

Section TagFacts.
Context {char : Type} `{EqDecision char}.
Variable space : char.
Variable lower : list char -> list char.
Local Abbreviation aggregate_tags := (aggregate_tags space lower).
Local Abbreviation _join := (_join space lower).

Lemma unique_elem (l : list (list char)) (x : list char) : x ∈ unique l <-> x ∈ l.
Proof.
  induction l as [|y l IH]; simpl; [reflexivity|].
  rewrite !elem_of_cons, list_elem_of_filter, IH.
  destruct (decide (x = y)); intuition.
Qed.

Lemma unique_NoDup (l : list (list char)) : NoDup (unique l).
Proof.
  induction l as [|y l IH]; simpl; [constructor|].
  constructor; [|apply NoDup_filter, IH].
  intros Hin. apply list_elem_of_filter in Hin as [Hne _]. contradiction.
Qed.

Lemma aggregate_tags_series (tags_df : list (Z * option (list char))) :
  tags_df <> [] ->
  exists series,
    aggregate_tags tags_df = inr series
    /\ forall k, series !! k
                 = if decide (k ∈ tags_df.*1) then Some (_join (group tags_df k))
                   else None.
Proof.
  intros Hne. unfold PipelineRest.aggregate_tags.
  destruct tags_df as [|row rest] eqn:E; [contradiction|]. rewrite <- E.
  eexists. split; [reflexivity|]. intros k.
  destruct (decide (k ∈ tags_df.*1)) as [Hin|Hout].
  - apply elem_of_list_to_map_1'.
    + intros y Hy. apply list_elem_of_fmap in Hy as (k' & [= -> ->] & _). reflexivity.
    + apply list_elem_of_fmap. exists k. auto.
  - apply not_elem_of_list_to_map_1. rewrite <- list_fmap_compose.
    intros Hin. apply Hout. apply list_elem_of_fmap in Hin as (k' & -> & Hk'). exact Hk'.
Qed.

(** X14. On a [tags_df] with no rows [aggregate_tags] raises [TypeError].
    Otherwise it returns a series that has an entry for a movie exactly when
    [tags_df] has a row for it.  The entry is the space-joined list of the
    movie's tags, lower-cased, each one once, missing tags dropped: a tag is
    in the list if and only if it is the lower-casing of a tag of some row
    of that movie. *)
Theorem aggregate_tags_entries (tags_df : list (Z * option (list char))) :
  (tags_df = [] -> aggregate_tags tags_df = inl TypeError)
  /\ (tags_df <> [] ->
      exists series,
        aggregate_tags tags_df = inr series
        /\ forall k,
             (k ∉ tags_df.*1 -> series !! k = None)
             /\ (k ∈ tags_df.*1 ->
                 exists ts,
                   series !! k = Some (join [space] ts)
                   /\ NoDup ts
                   /\ forall t, t ∈ ts <->
                        exists raw, (k, Some raw) ∈ tags_df /\ t = lower raw)).
Proof.
  split; [intros ->; reflexivity|].
  intros Hne. destruct (aggregate_tags_series tags_df Hne) as (series & Hs & Hlook).
  exists series. split; [exact Hs|]. intros k. rewrite Hlook. split.
  - intros Hout. destruct (decide (k ∈ tags_df.*1)); [contradiction|reflexivity].
  - intros Hin. destruct (decide (k ∈ tags_df.*1)); [|contradiction].
    exists (unique (lower <$> omap id (group tags_df k))).
    split; [reflexivity|]. split; [apply unique_NoDup|].
    intros t. rewrite unique_elem, list_elem_of_fmap. split.
    + intros (raw & -> & Hraw). exists raw. split; [|reflexivity].
      apply list_elem_of_omap in Hraw as (o & Ho & Eo). simpl in Eo. subst o.
      unfold group in Ho. apply list_elem_of_fmap in Ho as ([k' o] & Eo & Hr).
      apply list_elem_of_filter in Hr as [Hk Hr]. simpl in *. subst. exact Hr.
    + intros (raw & Hr & ->). exists raw. split; [reflexivity|].
      apply list_elem_of_omap. exists (Some raw). split; [|reflexivity].
      unfold group. apply list_elem_of_fmap. exists (k, Some raw).
      split; [reflexivity|]. apply list_elem_of_filter. auto.
Qed.
End TagFacts.

Lemma aggregate_tags_entries_witness :
  let tags_df := [(1, Some (chars "Pixar")); (3, None); (1, Some (chars "PIXAR"))] in
  aggregate_tags " "%char latin1_lower ([] : list (Z * option (list Ascii.ascii)))
  = inl TypeError
  /\ aggregate_tags " "%char latin1_lower tags_df
     = inr (<[1 := chars "pixar"]> (<[3 := []]> ∅))
  /\ exists series,
       aggregate_tags " "%char latin1_lower tags_df = inr series
       /\ forall k,
            (k ∉ tags_df.*1 -> series !! k = None)
            /\ (k ∈ tags_df.*1 ->
                exists ts,
                  series !! k = Some (join [" "%char] ts)
                  /\ NoDup ts
                  /\ forall t, t ∈ ts <->
                       exists raw, (k, Some raw) ∈ tags_df /\ t = latin1_lower raw).
Proof.
  cbv zeta. split; [|split].
  - apply (proj1 (aggregate_tags_entries " "%char latin1_lower [])). reflexivity.
  - vm_compute. reflexivity.
  - apply (proj2 (aggregate_tags_entries " "%char latin1_lower
                    [(1, Some (chars "Pixar")); (3, None); (1, Some (chars "PIXAR"))])).
    discriminate.
Defined.

Section PipelineRun.
Context {char : Type} `{EqDecision char}.
Variables is_space is_digit : char -> bool.
Variables lparen rparen newline : char.
Variable unknown : list char.
Variables space pipe : char.
Variable no_genres_listed : list char.
Variable lower : list char -> list char.
Hypothesis newline_space : is_space newline = true.
Hypothesis space_not_pipe : space <> pipe.

Local Abbreviation run_pipeline :=
  (run_pipeline is_space is_digit lparen rparen newline unknown space pipe
     no_genres_listed lower).

(** X15. [run_pipeline] raises [TypeError] when [tags_df] has no rows, and
    [ValueError] when [tags_df] has rows and [movies_df] has none.  Otherwise
    it writes one row per row of [movies_df], in the same order, with
    [movieId] and [title] untouched, whatever the rows of [tags_df] hold (no
    row is lost for want of tags, none is doubled by repeated tags).  In
    every row written: the clean title and the soup have no whitespace at
    their ends, the year is ["Unknown"] or four digits, the genres hold no
    ["|"], and the tags are the empty string when the movie has no row in
    [tags_df]. *)
Theorem run_pipeline_rows (movies_df : list (Movies.Row char))
    (tags_df : list (Z * option (list char))) :
  (tags_df = [] -> run_pipeline movies_df tags_df = inl TypeError)
  /\ (tags_df <> [] -> movies_df = [] ->
      run_pipeline movies_df tags_df = inl ValueError)
  /\ (tags_df <> [] -> movies_df <> [] ->
      exists out,
        run_pipeline movies_df tags_df = inr out
        /\ Processed.movieId <$> out = Movies.movieId <$> movies_df
        /\ Processed.title <$> out = Movies.title <$> movies_df
        /\ Forall (fun o =>
                     stripped is_space (Processed.clean_title o)
                     /\ stripped is_space (Processed.soup o)
                     /\ (Processed.year o = unknown
                         \/ (length (Processed.year o) = 4%nat
                             /\ Forall (fun c => is_digit c = true) (Processed.year o)))
                     /\ (pipe ∉ Processed.genres_clean o)
                     /\ (Processed.movieId o ∉ tags_df.*1 -> Processed.tags o = []))
                  out).
Proof.
  split; [intros ->; reflexivity|]. split.
  { intros Hne ->. unfold PipelineRest.run_pipeline.
    destruct (aggregate_tags_series space lower tags_df Hne) as (series & -> & _).
    reflexivity. }
  intros Hne Hm. unfold PipelineRest.run_pipeline.
  destruct (aggregate_tags_series space lower tags_df Hne) as (series & -> & Hlook).
  destruct movies_df as [|m0 rest] eqn:E; [contradiction|]. rewrite <- E.
  eexists. split; [reflexivity|].
  rewrite <- !list_fmap_compose.
  split; [reflexivity|]. split; [reflexivity|].
  apply Forall_fmap, Forall_forall. intros m _. simpl.
  split; [apply strip_stripped|]. split; [apply strip_stripped|]. split; [|split].
  - unfold Pipeline.extract_year.
    destruct (search_year is_space is_digit lparen rparen newline (Movies.title m))
      as [g|] eqn:Hs; [|left; reflexivity].
    right. apply (search_year_shape is_space is_digit lparen rparen newline
                    newline_space _ _ Hs).
  - destruct (Movies.genres m) as [g|]; simpl; [|apply not_elem_of_nil].
    destruct (decide (g = no_genres_listed)); [apply not_elem_of_nil|].
    apply replace_char_no_old, space_not_pipe.
  - intros Hout. rewrite Hlook.
    destruct (decide (Movies.movieId m ∈ tags_df.*1)); [contradiction|reflexivity].
Qed.
End PipelineRun.

Lemma run_pipeline_rows_witness :
  let movies := [(1, "Toy Story (1995)", Some "Adventure|Animation");
                 (3, " Heat", None)] in
  let tags := [(1, Some "Pixar"); (1, Some "PIXAR")] in
  run_pipeline_str movies [] = inl TypeError
  /\ run_pipeline_str [] tags = inl ValueError
  /\ exists out,
       run_pipeline_str movies tags = inr out
       /\ Processed.movieId <$> out = [1; 3]
       /\ (String.string_of_list_ascii ∘ Processed.soup) <$> out
          = ["Toy Story Adventure Animation pixar"; "Heat"]
       /\ Forall (fun o =>
                    stripped ascii_space (Processed.clean_title o)
                    /\ stripped ascii_space (Processed.soup o)
                    /\ (Processed.year o = chars "Unknown"
                        \/ (length (Processed.year o) = 4%nat
                            /\ Forall (fun c => ascii_digit c = true) (Processed.year o)))
                    /\ ("|"%char ∉ Processed.genres_clean o)
                    /\ (Processed.movieId o ∉ [1; 1] -> Processed.tags o = []))
                 out.
Proof.
  cbv zeta. unfold run_pipeline_str. split; [|split].
  - match goal with |- PipelineRest.run_pipeline _ _ _ _ _ _ _ _ _ _ ?m ?t = _ =>
      apply (proj1 (run_pipeline_rows ascii_space ascii_digit "("%char ")"%char
                      "010"%char (chars "Unknown") " "%char "|"%char
                      (chars "(no genres listed)") latin1_lower eq_refl
                      ltac:(discriminate) m t))
    end.
    reflexivity.
  - match goal with |- PipelineRest.run_pipeline _ _ _ _ _ _ _ _ _ _ ?m ?t = _ =>
      apply (proj1 (proj2 (run_pipeline_rows ascii_space ascii_digit "("%char ")"%char
                      "010"%char (chars "Unknown") " "%char "|"%char
                      (chars "(no genres listed)") latin1_lower eq_refl
                      ltac:(discriminate) m t)))
    end.
    + discriminate.
    + reflexivity.
  - match goal with
    |- context [PipelineRest.run_pipeline _ _ _ _ _ _ _ _ _ _ ?m ?t] =>
      destruct (proj2 (proj2 (run_pipeline_rows ascii_space ascii_digit "("%char
                      ")"%char "010"%char (chars "Unknown") " "%char "|"%char
                      (chars "(no genres listed)") latin1_lower eq_refl
                      ltac:(discriminate) m t)))
        as (out & Hout & H1 & _ & H3); [discriminate | discriminate |]
    end.
    exists out. split; [exact Hout|]. split; [exact H1|]. split; [|exact H3].
    vm_compute in Hout. injection Hout as <-. vm_compute. reflexivity.
Defined.
End PipelineRestFacts.

(** ** [api.py] *)
Module ApiFacts.
Import Float64 Engine EngineFacts Api.
Local Open Scope Z_scope.

Section Routes.
Variable B : Backend.

Lemma run_respond (inst : option SemanticEngine) (q : string) (n : Z) (s : store B) :
  run B (respond inst q n) s =
  match inst with
  | None => {| trace := []; result := inr (HTTPException 503 "Engine not initialised yet.");
               final := s |}
  | Some _ =>
      let o := run B (recommend q n) s in
      {| trace := trace o;
         result := match result o with
                   | inl e => inl e
                   | inr rs => inr (Body {| query := q; n_results := len rs;
                                            results := rs |})
                   end;
         final := final o |}
  end.
Proof.
  destruct inst as [e|]; [|reflexivity].
  unfold respond. simpl _get_engine. cbv iota beta.
  change (rs ← recommend q n; Ret (Body {| query := q; n_results := len rs; results := rs |}))
    with (bind (recommend q n)
            (fun rs => Ret (Body {| query := q; n_results := len rs; results := rs |}))).
  rewrite run_bind. destruct (result (run B (recommend q n) s)) as [x|rs]; [reflexivity|].
  cbn. rewrite app_nil_r. reflexivity.
Qed.

Lemma recommend_get_cases (inst : option SemanticEngine) (query : option string)
    (n : option Z) :
  (exists q, query = Some q /\ (2 <= characters q)%nat
             /\ 1 <= default 10 n <= 50
             /\ recommend_get inst query n = respond inst q (default 10 n))
  \/ recommend_get inst query n = Ret RequestValidationError.
Proof.
  destruct query as [q|]; [|right; reflexivity]. simpl.
  destruct (bool_decide (2 <= Z.of_nat (characters q))) eqn:H2; [|right; reflexivity].
  destruct (bool_decide (1 <= default 10 n)) eqn:H1; [|right; reflexivity].
  destruct (bool_decide (default 10 n <= 50)) eqn:H50; [|right; reflexivity].
  apply bool_decide_eq_true in H2, H1, H50.
  left. exists q. repeat split; auto; lia.
Qed.

Lemma recommend_post_cases (inst : option SemanticEngine) (query : option string)
    (n : option Z) :
  (exists q, query = Some q /\ 1 <= default 10 n <= 50
             /\ recommend_post inst query n = respond inst q (default 10 n))
  \/ recommend_post inst query n = Ret RequestValidationError.
Proof.
  destruct query as [q|]; [|right; reflexivity]. simpl.
  destruct (bool_decide (1 <= default 10 n)) eqn:H1; [|right; reflexivity].
  destruct (bool_decide (default 10 n <= 50)) eqn:H50; [|right; reflexivity].
  apply bool_decide_eq_true in H1, H50.
  left. exists q. repeat split; auto.
Qed.

Lemma recommend_trace (q : string) (n : Z) (s : store B) :
  final (run B (recommend q n) s) = s
  /\ Forall (fun e => is_write e = false) (trace (run B (recommend q n) s))
  /\ Forall (fun e => match e with EvQuery _ k => k = n | _ => True end)
       (trace (run B (recommend q n) s)).
Proof.
  rewrite run_recommend. destruct (encode B [q]) as [e|v]; simpl;
    repeat split; repeat constructor.
Qed.

Lemma recommend_encodes (q : string) (n : Z) (s : store B) :
  (exists rest, trace (run B (recommend q n) s) = EvEncode [q] :: rest)
  /\ Forall (fun e => match e with EvEncode texts => texts = [q] | _ => True end)
       (trace (run B (recommend q n) s)).
Proof.
  rewrite run_recommend. destruct (encode B [q]) as [e|v]; simpl.
  - split; [eexists; reflexivity | repeat constructor].
  - destruct (Engine.query B s v n); simpl;
      (split; [eexists; reflexivity | repeat constructor]).
Qed.

Lemma respond_trace (inst : option SemanticEngine) (q : string) (n : Z) (s : store B) :
  final (run B (respond inst q n) s) = s
  /\ Forall (fun e => is_write e = false) (trace (run B (respond inst q n) s))
  /\ Forall (fun e => match e with EvQuery _ k => k = n | _ => True end)
       (trace (run B (respond inst q n) s)).
Proof.
  rewrite run_respond. destruct inst; cbn [trace final].
  - apply recommend_trace.
  - repeat split; constructor.
Qed.

(** X16. The routes only read.  Whatever the request and whether or not
    the engine is initialised, [GET /stats], [GET /recommend] and
    [POST /recommend] leave the store as they found it and make no
    [upsert] call. *)
Theorem routes_never_write (inst : option SemanticEngine) (query : option string)
    (n : option Z) (s : store B) :
  (final (run B (get_stats inst) s) = s
   /\ Forall (fun e => is_write e = false) (trace (run B (get_stats inst) s)))
  /\ (final (run B (recommend_get inst query n) s) = s
      /\ Forall (fun e => is_write e = false)
           (trace (run B (recommend_get inst query n) s)))
  /\ (final (run B (recommend_post inst query n) s) = s
      /\ Forall (fun e => is_write e = false)
           (trace (run B (recommend_post inst query n) s))).
Proof.
  split; [|split].
  - destruct inst; simpl; repeat split; repeat constructor.
  - destruct (recommend_get_cases inst query n) as [(q & _ & _ & _ & ->) | ->].
    + destruct (respond_trace inst q (default 10 n) s) as (? & ? & _). auto.
    + simpl. split; [reflexivity | constructor].
  - destruct (recommend_post_cases inst query n) as [(q & _ & _ & ->) | ->].
    + destruct (respond_trace inst q (default 10 n) s) as (? & ? & _). auto.
    + simpl. split; [reflexivity | constructor].
Qed.

(** X17. The store is never asked for fewer than 1 or more than 50
    results: every [query] call made by [GET /recommend] or
    [POST /recommend] carries an [n_results] between 1 and 50, whatever the
    request says. *)
Theorem routes_ask_within_bounds (inst : option SemanticEngine)
    (query : option string) (n : option Z) (s : store B) :
  asks_within_bounds (trace (run B (recommend_get inst query n) s))
  /\ asks_within_bounds (trace (run B (recommend_post inst query n) s)).
Proof.
  unfold asks_within_bounds. split.
  - destruct (recommend_get_cases inst query n) as [(q & _ & _ & Hn & ->) | ->];
      [|constructor].
    destruct (respond_trace inst q (default 10 n) s) as (_ & _ & Hk).
    eapply Forall_impl; [exact Hk|]. intros [] Hx; auto. subst. exact Hn.
  - destruct (recommend_post_cases inst query n) as [(q & _ & Hn & ->) | ->];
      [|constructor].
    destruct (respond_trace inst q (default 10 n) s) as (_ & _ & Hk).
    eapply Forall_impl; [exact Hk|]. intros [] Hx; auto. subst. exact Hn.
Qed.

(** X18. Before start-up.  While [engine_instance] is [None], no route
    reaches the Embedder or the store: [/stats] answers with status 503, and
    [/recommend], by either method, with 503 or, for a malformed request,
    with 422. *)
Theorem not_initialised_gives_503 (query : option string) (n : option Z)
    (s : store B) :
  run B (get_stats None) s
  = {| trace := []; result := inr (HTTPException 503 "Engine not initialised yet.");
       final := s |}
  /\ (trace (run B (recommend_get None query n) s) = []
      /\ final (run B (recommend_get None query n) s) = s
      /\ (result (run B (recommend_get None query n) s)
           = inr (HTTPException 503 "Engine not initialised yet.")
          \/ result (run B (recommend_get None query n) s)
             = inr RequestValidationError))
  /\ (trace (run B (recommend_post None query n) s) = []
      /\ final (run B (recommend_post None query n) s) = s
      /\ (result (run B (recommend_post None query n) s)
           = inr (HTTPException 503 "Engine not initialised yet.")
          \/ result (run B (recommend_post None query n) s)
             = inr RequestValidationError)).
Proof.
  split; [reflexivity|]. split.
  - destruct (recommend_get_cases None query n) as [(q & _ & _ & _ & ->) | ->].
    + rewrite run_respond. auto.
    + simpl. auto.
  - destruct (recommend_post_cases None query n) as [(q & _ & _ & ->) | ->].
    + rewrite run_respond. auto.
    + simpl. auto.
Qed.

(** X19. [GET /recommend] never lets a query of fewer than two characters
    reach the Embedder: such a request is answered 422 with no call made.
    [POST /recommend] has no length constraint: once the engine is there and
    [n_results] is within 1 to 50, any query, the empty one too, is the
    first thing handed to the Embedder.  Where [GET] accepts the query, the
    two routes run the same program. *)
Theorem get_and_post (inst : option SemanticEngine) (query : option string)
    (q : string) (n : option Z) (s : store B) :
  encodes_two_characters (trace (run B (recommend_get inst query n) s))
  /\ ((characters q < 2)%nat ->
      run B (recommend_get inst (Some q) n) s
      = {| trace := []; result := inr RequestValidationError; final := s |})
  /\ (1 <= default 10 n <= 50 ->
      exists rest,
        trace (run B (recommend_post (Some TheEngine) (Some q) n) s)
        = EvEncode [q] :: rest)
  /\ ((2 <= characters q)%nat ->
      recommend_get inst (Some q) n = recommend_post inst (Some q) n).
Proof.
  split; [|split; [|split]].
  - unfold encodes_two_characters.
    destruct (recommend_get_cases inst query n) as [(q' & _ & Hq & _ & ->) | ->];
      [|constructor].
    rewrite run_respond. destruct inst; cbn [trace]; [|constructor].
    destruct (recommend_encodes q' (default 10 n) s) as (_ & Henc).
    eapply Forall_impl; [exact Henc|]. intros [] Hx; auto. subst.
    constructor; [exact Hq | constructor].
  - intros Hq. unfold recommend_get. cbv zeta.
    rewrite (bool_decide_eq_false_2 (2 <= Z.of_nat (characters q))) by lia.
    reflexivity.
  - intros [H1 H50]. unfold recommend_post. cbv zeta.
    rewrite (bool_decide_eq_true_2 (1 <= default 10 n) H1).
    rewrite (bool_decide_eq_true_2 (default 10 n <= 50) H50). cbn [andb].
    rewrite run_respond. cbv zeta. cbn [trace].
    apply (recommend_encodes q (default 10 n) s).
  - intros Hq. unfold recommend_get, recommend_post. cbv zeta.
    rewrite (bool_decide_eq_true_2 (2 <= Z.of_nat (characters q))) by lia.
    reflexivity.
Qed.

End Routes.

Section Response.
Variable B : Backend.
Variable s : store B.
Variables (q : string) (n : Z).
Variables (v : list vector) (ms : list metadata) (ds : list Q).
Variables (rm : list (list metadata)) (rd : list (list Q)).
Hypothesis long_enough : (2 <= characters q)%nat.
Hypothesis in_range : 1 <= n <= 50.
Hypothesis embedded : encode B [q] = inr v.
Hypothesis answered :
  Engine.query B s v n = inr {| metadatas := ms :: rm; distances := ds :: rd |}.

(** X21. The response of [GET /recommend] echoes the query, carries the
    engine's results unchanged and in order, and reports as [n_results] the
    number of results returned, not the number asked for; when the store
    returns at most [n] hits, that number is at most [n], hence at most
    50. *)
Theorem response_counts_what_it_returns :
  exists r,
    result (run B (recommend_get (Some TheEngine) (Some q) (Some n)) s) = inr (Body r)
    /\ Api.query r = q
    /\ results r = recommendation <$> zip ms ds
    /\ n_results r = len (results r)
    /\ (Z.of_nat (length ds) <= n -> n_results r <= n /\ n_results r <= 50).
Proof.
  unfold recommend_get. cbv zeta. simpl default.
  rewrite (bool_decide_eq_true_2 (2 <= Z.of_nat (characters q))) by lia.
  rewrite (bool_decide_eq_true_2 (1 <= n)) by lia.
  rewrite (bool_decide_eq_true_2 (n <= 50)) by lia. cbn [andb].
  rewrite run_respond. cbv zeta.
  rewrite (recommend_returns B s q n v ms ds rm rd embedded answered).
  cbn [trace result final].
  eexists. split; [reflexivity|]. cbn [Api.query results n_results].
  repeat split; unfold len; rewrite length_fmap, length_zip; lia.
Qed.
End Response.

Lemma get_and_post_witness :
  let B := RefStore.stub_backend 1 in
  let s : store B := RefStore.two_entries in
  (* a query of one character, three bytes long in UTF-8 *)
  run B (recommend_get (Some TheEngine) (Some "日"%string) None) s
  = Build_Outcome B _ [] (inr RequestValidationError) s
  /\ (exists rest,
        trace (run B (recommend_post (Some TheEngine) (Some "") None) s)
        = EvEncode [""] :: rest)
  /\ recommend_get (Some TheEngine) (Some "robot") (Some 5)
     = recommend_post (Some TheEngine) (Some "robot") (Some 5).
Proof.
  cbv zeta. split; [|split].
  - apply (proj1 (proj2 (get_and_post (RefStore.stub_backend 1) (Some TheEngine) None
                           "日" None RefStore.two_entries))).
    vm_compute. lia.
  - apply (proj1 (proj2 (proj2 (get_and_post (RefStore.stub_backend 1) (Some TheEngine)
                                  None "" None RefStore.two_entries)))).
    vm_compute. split; discriminate.
  - apply (proj2 (proj2 (proj2 (get_and_post (RefStore.stub_backend 1) (Some TheEngine)
                                  None "robot" (Some 5) RefStore.two_entries)))).
    vm_compute. lia.
Defined.


Lemma response_counts_what_it_returns_witness :
  exists r,
    result (run (RefStore.stub_backend 1)
              (recommend_get (Some TheEngine) (Some "ab") (Some 2))
              RefStore.two_entries) = inr (Body r)
    /\ Api.query r = "ab"
    /\ results r = recommendation <$> zip [∅; RefStore.toy_story] [5 # 4; 7 # 4]%Q
    /\ n_results r = len (results r)
    /\ (Z.of_nat (length [5 # 4; 7 # 4]%Q) <= 2 -> n_results r <= 2 /\ n_results r <= 50).
Proof.
  apply (response_counts_what_it_returns (RefStore.stub_backend 1) RefStore.two_entries
           "ab" 2 [[2%Q]] [∅; RefStore.toy_story] [5 # 4; 7 # 4]%Q [] []).
  - simpl. lia.
  - lia.
  - vm_compute. reflexivity.
  - vm_compute. reflexivity.
Defined.
End ApiFacts.

(* ===================================================================== *)
(** * The dashboard helpers *)
Module AppFacts.
Import Float64 Float64Facts Pipeline PipelineRest App.
Local Open Scope Z_scope.

(** ** The score bar *)

Lemma trunc_mono (x y : Q) : (x <= y)%Q -> trunc x <= trunc y.
Proof.
  intros Hxy. unfold trunc.
  destruct (Qle_bool 0 x) eqn:Hx, (Qle_bool 0 y) eqn:Hy.
  - apply Qfloor_resp_le, Hxy.
  - apply Qle_bool_iff in Hx. assert (0 <= y)%Q by lra.
    apply Qle_bool_iff in H. congruence.
  - assert (Hx' : (x <= 0)%Q).
    { destruct (Qlt_le_dec 0 x) as [H|H]; [|exact H].
      apply Qlt_le_weak, Qle_bool_iff in H. congruence. }
    apply Qle_bool_iff in Hy.
    pose proof (Qceiling_resp_le _ _ Hx') as H1.
    pose proof (Qfloor_resp_le _ _ Hy) as H2.
    change (Qceiling 0) with 0 in H1. change (Qfloor 0) with 0 in H2. lia.
  - apply Qceiling_resp_le, Hxy.
Qed.

(** The percentage is printed exactly when the product stays finite. *)
Lemma score_pct_cases (score : Q) :
  ((- max_float <= fl (score * (100 # 1)))%Q
   /\ (fl (score * (100 # 1)) <= max_float)%Q
   /\ score_pct score = inr (trunc (fl (score * (100 # 1)))))
  \/ (~ ((- max_float <= fl (score * (100 # 1)))%Q
         /\ (fl (score * (100 # 1)) <= max_float)%Q)
      /\ score_pct score = inl OverflowError).
Proof.
  unfold score_pct, fmul. cbv zeta.
  destruct (Qle_bool (Qabs (fl (score * (100 # 1)))) max_float) eqn:E.
  - left. apply Qle_bool_iff, Qabs_Qle_condition in E. destruct E. auto.
  - right. split; [|reflexivity]. intros [H1 H2].
    assert (H : (Qabs (fl (score * (100 # 1))) <= max_float)%Q)
      by (apply Qabs_Qle_condition; auto).
    apply Qle_bool_iff in H. congruence.
Qed.

Lemma score_pct_mono (x y : Q) (px py : Z) :
  (x <= y)%Q -> score_pct x = inr px -> score_pct y = inr py -> px <= py.
Proof.
  intros Hxy Hx Hy.
  destruct (score_pct_cases x) as [(_ & _ & Ex) | (_ & Ex)]; [|congruence].
  destruct (score_pct_cases y) as [(_ & _ & Ey) | (_ & Ey)]; [|congruence].
  rewrite Ex in Hx. rewrite Ey in Hy. injection Hx as <-. injection Hy as <-.
  apply trunc_mono, fl_mono. nra.
Qed.

(** Between two scores whose percentage is printed, the percentage is
    printed, and lies between theirs. *)
Lemma score_pct_between (lo hi score : Q) (plo phi : Z) :
  (lo <= score)%Q -> (score <= hi)%Q ->
  score_pct lo = inr plo -> score_pct hi = inr phi ->
  exists p, score_pct score = inr p /\ plo <= p <= phi.
Proof.
  intros Hlo Hhi Elo Ehi.
  destruct (score_pct_cases lo) as [(L1 & _ & _) | (_ & E)]; [|congruence].
  destruct (score_pct_cases hi) as [(_ & H2 & _) | (_ & E)]; [|congruence].
  assert (M1 : (fl (lo * (100 # 1)) <= fl (score * (100 # 1)))%Q) by (apply fl_mono; nra).
  assert (M2 : (fl (score * (100 # 1)) <= fl (hi * (100 # 1)))%Q) by (apply fl_mono; nra).
  destruct (score_pct_cases score) as [(_ & _ & E) | (N & _)].
  - eexists. split; [exact E|]. split.
    + eapply score_pct_mono; [exact Hlo | exact Elo | exact E].
    + eapply score_pct_mono; [exact Hhi | exact E | exact Ehi].
  - exfalso. apply N. split; lra.
Qed.

(** The float nearest to [k / 10^4]: the shape of every [round(x, 4)]. *)
Lemma py_round_4_grade (x : Q) :
  py_round x 4 = fl (inject_Z (round_half_even (x * (10 # 1) ^ 4)) / (10 # 1) ^ 4).
Proof. reflexivity. Qed.

Lemma grade_mono (j k : Z) :
  j <= k -> (fl (inject_Z j / (10 # 1) ^ 4) <= fl (inject_Z k / (10 # 1) ^ 4))%Q.
Proof.
  intros H. apply fl_mono. apply Qmult_le_compat_r.
  - rewrite <- Zle_Qle. exact H.
  - vm_compute. discriminate.
Qed.

Lemma score_colour_cases (s : Q) :
  ((1 # 2 <= s)%Q /\ score_colour s = cp "#2ecc71")
  \/ ((fl (3 # 10) <= s)%Q /\ (s < 1 # 2)%Q /\ score_colour s = cp "#f39c12")
  \/ ((s < fl (3 # 10))%Q /\ score_colour s = cp "#e74c3c").
Proof.
  unfold score_colour.
  destruct (Qle_bool (1 # 2) s) eqn:H1.
  { left. split; [apply Qle_bool_iff, H1 | reflexivity]. }
  assert (s < 1 # 2)%Q.
  { destruct (Qlt_le_dec s (1 # 2)) as [H|H]; [exact H|].
    apply Qle_bool_iff in H. congruence. }
  destruct (Qle_bool (fl (3 # 10)) s) eqn:H2.
  { right; left. split; [apply Qle_bool_iff, H2 | split; [assumption | reflexivity]]. }
  right; right. split; [|reflexivity].
  destruct (Qlt_le_dec s (fl (3 # 10))) as [H'|H']; [exact H'|].
  apply Qle_bool_iff in H'. congruence.
Qed.

Lemma grade_bands (k : Z) (p : Z) :
  let s := fl (inject_Z k / (10 # 1) ^ 4) in
  score_pct s = inr p ->
  (5000 <= k -> (1 # 2 <= s)%Q /\ 50 <= p)
  /\ (3000 <= k <= 4999 ->
      (fl (3 # 10) <= s)%Q /\ (s < 1 # 2)%Q /\ 30 <= p <= 49)
  /\ (k <= 2999 -> (s < fl (3 # 10))%Q /\ p <= 29).
Proof.
  cbv zeta. intros Hp. split; [|split].
  - intros Hk. pose proof (grade_mono 5000 k Hk) as H.
    assert (E : (fl (inject_Z 5000 / (10 # 1) ^ 4) == 1 # 2)%Q) by (vm_compute; reflexivity).
    split; [lra|].
    apply (score_pct_mono _ _ 50 p H); [vm_compute; reflexivity | exact Hp].
  - intros [Hlo Hhi].
    pose proof (grade_mono 3000 k Hlo) as H1. pose proof (grade_mono k 4999 Hhi) as H2.
    assert (E1 : (fl (inject_Z 3000 / (10 # 1) ^ 4) == fl (3 # 10))%Q)
      by (vm_compute; reflexivity).
    assert (E2 : (fl (inject_Z 4999 / (10 # 1) ^ 4) < 1 # 2)%Q) by (vm_compute; reflexivity).
    split; [lra|]. split; [lra|]. split.
    + apply (score_pct_mono _ _ 30 p H1); [vm_compute; reflexivity | exact Hp].
    + apply (score_pct_mono _ _ p 49 H2); [exact Hp | vm_compute; reflexivity].
  - intros Hk. pose proof (grade_mono k 2999 Hk) as H.
    assert (E : (fl (inject_Z 2999 / (10 # 1) ^ 4) < fl (3 # 10))%Q)
      by (vm_compute; reflexivity).
    split; [lra|].
    apply (score_pct_mono _ _ p 29 H); [exact Hp | vm_compute; reflexivity].
Qed.

Lemma colours_differ :
  cp "#2ecc71" <> cp "#f39c12" /\ cp "#2ecc71" <> cp "#e74c3c"
  /\ cp "#f39c12" <> cp "#e74c3c".
Proof. repeat split; intros E; vm_compute in E; discriminate E. Qed.

Local Ltac band :=
  first [ lia | reflexivity
        | exfalso; destruct colours_differ as (? & ? & ?); congruence ].

(** X22. The colour of the score bar follows the percentage it prints.  For
    a score rounded to four places, as [recommend] produces it: whenever
    [score_bar] prints a percentage (it raises [OverflowError] when
    [score * 100] is no longer a finite float), the bar is green exactly
    when the percentage is at least 50, orange exactly when it is between
    30 and 49, and red exactly when it is at most 29; and a percentage is
    printed for every score up to [10^300] in magnitude.  (The percentage
    is [int(score * 100)] in float arithmetic, which for the score 0.29 is
    28.) *)
Theorem score_bar_colour_follows_percentage (x : Q) :
  let score := py_round x 4 in
  (forall p, score_pct score = inr p ->
     (score_colour score = cp "#2ecc71" <-> 50 <= p)
     /\ (score_colour score = cp "#f39c12" <-> 30 <= p <= 49)
     /\ (score_colour score = cp "#e74c3c" <-> p <= 29))
  /\ ((- inject_Z (10 ^ 300) <= x)%Q -> (x <= inject_Z (10 ^ 300))%Q ->
      exists p, score_pct score = inr p
                /\ score_bar score = inr (score_bar_html (score_colour score) p)).
Proof.
  cbv zeta. split.
  - intros p. rewrite py_round_4_grade.
    set (k := round_half_even (x * (10 # 1) ^ 4)). intros Hp.
    destruct (grade_bands k p Hp) as (Hg & Ho & Hr).
    set (s := fl (inject_Z k / (10 # 1) ^ 4)) in *.
    destruct (score_colour_cases s) as [(H1 & ->) | [(H1 & H2 & ->) | (H1 & ->)]].
    + assert (Hk : 5000 <= k).
      { destruct (Z_le_gt_dec 5000 k) as [?|Hk]; [assumption|].
        destruct (Z_le_gt_dec 3000 k) as [Hk'|Hk'].
        - destruct (Ho ltac:(lia)) as (_ & ? & _). lra.
        - destruct (Hr ltac:(lia)) as (? & _).
          assert (fl (3 # 10) < 1 # 2)%Q by (vm_compute; reflexivity). lra. }
      destruct (Hg Hk) as (_ & Hb).
      repeat split; intros; band.
    + assert (Hk : 3000 <= k <= 4999).
      { destruct (Z_le_gt_dec 5000 k) as [Hk|Hk].
        - destruct (Hg Hk) as (? & _). lra.
        - destruct (Z_le_gt_dec 3000 k) as [Hk'|Hk']; [lia|].
          destruct (Hr ltac:(lia)) as (? & _). lra. }
      destruct (Ho Hk) as (_ & _ & Hb).
      repeat split; intros; band.
    + assert (Hk : k <= 2999).
      { destruct (Z_le_gt_dec 3000 k) as [Hk|Hk]; [|lia].
        destruct (Z_le_gt_dec 5000 k) as [Hk'|Hk'].
        - destruct (Hg Hk') as (? & _).
          assert (fl (3 # 10) < 1 # 2)%Q by (vm_compute; reflexivity). lra.
        - destruct (Ho ltac:(lia)) as (? & _). lra. }
      destruct (Hr Hk) as (_ & Hb).
      repeat split; intros; band.
  - intros Hlo Hhi.
    pose proof (py_round_mono _ _ 4 Hlo) as H1.
    pose proof (py_round_mono _ _ 4 Hhi) as H2.
    assert (Elo : exists plo, score_pct (py_round (- inject_Z (10 ^ 300)) 4) = inr plo)
      by (eexists; vm_compute; reflexivity).
    assert (Ehi : exists phi, score_pct (py_round (inject_Z (10 ^ 300)) 4) = inr phi)
      by (eexists; vm_compute; reflexivity).
    destruct Elo as [plo Elo]. destruct Ehi as [phi Ehi].
    destruct (score_pct_between _ _ _ plo phi H1 H2 Elo Ehi) as (p & Hp & _).
    exists p. split; [exact Hp|]. unfold score_bar. rewrite Hp. reflexivity.
Qed.

Lemma score_bar_colour_follows_percentage_witness :
  (exists p, score_pct (py_round (29 # 100) 4) = inr p /\ p = 28
             /\ score_colour (py_round (29 # 100) 4) = cp "#e74c3c")
  /\ score_bar (py_round (inject_Z (2 ^ 1020)) 4) = inl OverflowError.
Proof.
  split.
  - destruct (proj2 (score_bar_colour_follows_percentage (29 # 100)))
      as (p & Hp & _); [vm_compute; discriminate | vm_compute; discriminate |].
    exists p. split; [exact Hp|].
    assert (E : p = 28) by (vm_compute in Hp; injection Hp as <-; reflexivity).
    split; [exact E|].
    apply (proj1 (score_bar_colour_follows_percentage (29 # 100)) p Hp). lia.
  - vm_compute. reflexivity.
Defined.

(** X23. The width of the bar of a hit.  For a hit the store returned at a
    raw distance [d] between 0 and 2, the range of a cosine distance,
    [score_bar] prints a percentage between -100 and 100: at least 0 when
    [d <= 1], and at most 0, with the bar red, when [d >= 1]; nothing
    clamps the width, so a distance above 1 can print a negative
    percentage.  For any distance, as long as a percentage is printed
    (there is none when [score * 100] overflows), it is at most 100 when
    [d >= 0], at least 0 when [d <= 1], and at most 0 when [d >= 1]. *)
Theorem score_bar_of_a_hit (meta : Engine.metadata) (d : Q) :
  let score := Engine.score (Engine.recommendation (meta, d)) in
  ((0 <= d)%Q -> (d <= 2)%Q ->
   exists p, score_pct score = inr p /\ -100 <= p <= 100
             /\ ((d <= 1)%Q -> 0 <= p)
             /\ ((1 <= d)%Q -> p <= 0 /\ score_colour score = cp "#e74c3c"))
  /\ (forall p, score_pct score = inr p ->
        ((0 <= d)%Q -> p <= 100)
        /\ ((d <= 1)%Q -> 0 <= p)
        /\ ((1 <= d)%Q -> p <= 0 /\ score_colour score = cp "#e74c3c")).
Proof.
  cbv zeta. cbn [Engine.recommendation Engine.score].
  assert (E0 : (py_round (fsub 1 0) 4 == 1)%Q) by (vm_compute; reflexivity).
  assert (E1 : (py_round (fsub 1 1) 4 == 0)%Q) by (vm_compute; reflexivity).
  assert (Hred : (1 <= d)%Q -> score_colour (py_round (fsub 1 d) 4) = cp "#e74c3c").
  { intros Hd. pose proof (py_round_mono _ _ 4 (fsub_mono_r 1 _ _ Hd)) as H.
    destruct (score_colour_cases (py_round (fsub 1 d) 4))
      as [(H1 & _) | [(H1 & _) | (_ & ->)]]; [| |reflexivity].
    - lra.
    - assert (0 < fl (3 # 10))%Q by (vm_compute; reflexivity). lra. }
  assert (Hany : forall p, score_pct (py_round (fsub 1 d) 4) = inr p ->
            ((0 <= d)%Q -> p <= 100)
            /\ ((d <= 1)%Q -> 0 <= p)
            /\ ((1 <= d)%Q -> p <= 0 /\ score_colour (py_round (fsub 1 d) 4)
                                        = cp "#e74c3c")).
  { intros p Hp. split; [|split].
    - intros Hd. pose proof (py_round_mono _ _ 4 (fsub_mono_r 1 _ _ Hd)) as H.
      apply (score_pct_mono _ _ p 100 H Hp). vm_compute. reflexivity.
    - intros Hd. pose proof (py_round_mono _ _ 4 (fsub_mono_r 1 _ _ Hd)) as H.
      apply (score_pct_mono _ _ 0 p H); [vm_compute; reflexivity | exact Hp].
    - intros Hd. split; [|apply Hred, Hd].
      pose proof (py_round_mono _ _ 4 (fsub_mono_r 1 _ _ Hd)) as H.
      apply (score_pct_mono _ _ p 0 H Hp). vm_compute. reflexivity. }
  split; [|exact Hany].
  intros Hd0 Hd2.
  pose proof (py_round_mono _ _ 4 (fsub_mono_r 1 _ _ Hd0)) as Hhi.
  pose proof (py_round_mono _ _ 4 (fsub_mono_r 1 _ _ Hd2)) as Hlo.
  destruct (score_pct_between _ _ _ (-100) 100 Hlo Hhi) as (p & Hp & Hb);
    [vm_compute; reflexivity | vm_compute; reflexivity |].
  exists p. split; [exact Hp|]. split; [exact Hb|].
  destruct (Hany p Hp) as (_ & H1 & H2). auto.
Qed.

Lemma score_bar_of_a_hit_witness :
  (exists p,
     score_pct (Engine.score (Engine.recommendation (∅, RefStore.d_1_3_f32))) = inr p
     /\ -100 <= p <= 100
     /\ p <= 0
     /\ score_colour (Engine.score (Engine.recommendation (∅, RefStore.d_1_3_f32)))
        = cp "#e74c3c")
  /\ score_pct (Engine.score (Engine.recommendation (∅, RefStore.d_1_3_f32))) = inr (-30)
  /\ (exists p,
        score_pct (Engine.score (Engine.recommendation (∅, 1 # 4)%Q)) = inr p
        /\ 0 <= p <= 100).
Proof.
  split; [|split].
  - destruct (proj1 (score_bar_of_a_hit ∅ RefStore.d_1_3_f32))
      as (p & Hp & Hb & _ & Hr); [vm_compute; discriminate | vm_compute; discriminate |].
    exists p. split; [exact Hp|]. split; [exact Hb|].
    apply Hr. vm_compute. discriminate.
  - vm_compute. reflexivity.
  - destruct (proj1 (score_bar_of_a_hit ∅ (1 # 4)))
      as (p & Hp & Hb & H0 & _); [vm_compute; discriminate | vm_compute; discriminate |].
    exists p. split; [exact Hp|]. split; [|lia].
    apply H0. vm_compute. discriminate.
Defined.

(** ** The card *)

Section Words.
Context {char : Type}.
Variable is_space : char -> bool.

Lemma split_words (s : list char) :
  Forall (fun w => w <> [] /\ Forall (fun c => is_space c = false) w)
         (split is_space s).
Proof.
  induction s as [|c s IH]; [constructor|].
  cbn [split]. destruct (is_space c) eqn:Hc; [exact IH|].
  destruct s as [|c' s'].
  { constructor; [|constructor]. split; [discriminate|]. repeat constructor. exact Hc. }
  destruct (is_space c') eqn:Hc'.
  { constructor; [|exact IH]. split; [discriminate|]. repeat constructor. exact Hc. }
  destruct (split is_space (c' :: s')) as [|w ws].
  { constructor; [|constructor]. split; [discriminate|]. repeat constructor. exact Hc. }
  apply Forall_cons in IH as [[_ Hw] Hws].
  constructor; [|exact Hws]. split; [discriminate|]. constructor; assumption.
Qed.

Lemma word_stripped (w : list char) :
  Forall (fun c => is_space c = false) w -> stripped is_space w.
Proof.
  intros Hw. rewrite Forall_forall in Hw. split; intros c Hc; apply Hw.
  - destruct w; simplify_eq/=. left.
  - apply last_Some in Hc as (l & ->). apply elem_of_app. right. left.
Qed.
End Words.

Lemma filter_all {X : Type} (P : X -> Prop) `{forall x, Decision (P x)} (l : list X) :
  Forall P l -> filter P l = l.
Proof.
  induction 1 as [|x l Hx Hl IH]; [reflexivity|].
  rewrite filter_cons_True by exact Hx. f_equal. exact IH.
Qed.

(** X24. One pill per genre word.  [movie_card] draws one pill for each
    whitespace-separated word of the genres string, in order: the words that
    [split()] returns are never empty and carry no whitespace, so neither the
    [if g] filter nor the [strip()] inside [genre_pill] changes anything
    there; and in general a pill depends only on the stripped name. *)
Theorem one_pill_per_genre_word (movie : Movie) :
  genres_html movie = concat (genre_pill <$> split py_isspace (genres movie))
  /\ Forall (fun g => g <> [] /\ strip py_isspace g = g)
            (split py_isspace (genres movie))
  /\ (forall g, genre_pill (strip py_isspace g) = genre_pill g).
Proof.
  pose proof (split_words py_isspace (genres movie)) as Hw.
  split; [|split].
  - unfold genres_html. rewrite filter_all; [reflexivity|].
    eapply Forall_impl; [exact Hw|]. intros g [Hg _]. exact Hg.
  - eapply Forall_impl; [exact Hw|]. intros g [Hg Hs]. split; [exact Hg|].
    apply PipelineRestFacts.strip_id, word_stripped, Hs.
  - intros g. unfold genre_pill.
    rewrite (PipelineRestFacts.strip_id py_isspace (strip py_isspace g))
      by apply PipelineRestFacts.strip_stripped.
    reflexivity.
Qed.

(** X25. What the card shows of the tags.  Tags of at most 80 characters are
    shown in full; longer ones are cut to their first 80 characters followed
    by one ellipsis, 81 characters in all; and the tags paragraph is left out
    exactly when the tags are empty. *)
Theorem card_tags (movie : Movie) :
  ((length (tags movie) <= 80)%nat -> tags_snippet movie = tags movie)
  /\ ((80 < length (tags movie))%nat ->
      tags_snippet movie = take 80 (tags movie) ++ [8230%N]
      /\ length (tags_snippet movie) = 81%nat)
  /\ (tags_html movie = [] <-> tags movie = []).
Proof.
  unfold tags_html, tags_snippet, Engine.len. split; [|split].
  - intros H. rewrite bool_decide_eq_false_2 by lia. reflexivity.
  - intros H. rewrite bool_decide_eq_true_2 by lia. split; [reflexivity|].
    rewrite length_app, length_take. cbn [length]. lia.
  - destruct (bool_decide (80 < Z.of_nat (length (tags movie)))) eqn:E.
    + apply bool_decide_eq_true_1 in E.
      rewrite bool_decide_eq_true_2 by (intros H; apply app_eq_nil in H as [_ H]; discriminate).
      split; [discriminate|]. intros H. rewrite H in E. simpl in E. lia.
    + destruct (tags movie) as [|c t].
      * rewrite bool_decide_eq_false_2 by (intros H; apply H; reflexivity).
        split; reflexivity.
      * rewrite bool_decide_eq_true_2 by discriminate. split; discriminate.
Qed.

Lemma card_tags_witness :
  let short := {| title := cp "Heat"; year := cp "1995"; genres := cp "Action Crime";
                  tags := cp "heist"; score := 1 # 2 |} in
  let long := {| title := cp "Heat"; year := cp "1995"; genres := cp "Action Crime";
                 tags := replicate 100 97%N; score := 1 # 2 |} in
  tags_snippet short = cp "heist"
  /\ tags_snippet long = replicate 80 97%N ++ [8230%N]
  /\ length (tags_snippet long) = 81%nat.
Proof.
  cbv zeta. split.
  - apply (proj1 (card_tags
                    {| title := cp "Heat"; year := cp "1995"; genres := cp "Action Crime";
                       tags := cp "heist"; score := 1 # 2 |})).
    vm_compute. lia.
  - apply (proj1 (proj2 (card_tags
                    {| title := cp "Heat"; year := cp "1995"; genres := cp "Action Crime";
                       tags := replicate 100 97%N; score := 1 # 2 |}))).
    vm_compute. lia.
Defined.
End AppFacts.
